(** * The 2048 game engine of [script.js], embedded in Rocq

    The script keeps one game in global variables ([board], [score],
    [bestScore], [won], [historyStack], [undosRemaining], [isTimedGame],
    [timeRemaining], [timerInterval]), shows an overlay for win and game-over
    messages and persists the game in [localStorage].  The embedding below
    gathers those globals in one record that every function reads and
    returns, in the order the JavaScript statements run.

    Conventions of the embedding:
    - numbers are integers ([Z]); every number the game computes (tile
      values, scores, seconds, counters) is an integer;
    - a cell is [None] for JavaScript's [null] and [Some v] for a number;
    - arrays are lists, indexed with [!!] and updated with [<[i:=x]>];
    - a function returns [None] where the JavaScript raises a [TypeError] or
      reads [undefined] (a board lacking one of its SIZE x SIZE cells, a
      stored value of a shape [saveGameState] never writes);
    - DOM rendering, sound, vibration and confetti are left out: they read
      the state and never write it.  The one DOM property the game logic
      reads back, [messageContainer.style.display], is part of the state;
      what [updateUndoButton] and [updateTimerDisplay] write is given as a
      function of the state;
    - the preferences ([currentTheme], [soundEnabled], [vibrationEnabled])
      and their three storage items have records of their own: the game
      neither reads nor writes them. *)

From stdpp Require Import base option list numbers strings pretty.
From Stdlib Require Import ZArith Lia Ascii.

Local Open Scope Z_scope.

(** ** Data *)

Definition SIZE : nat := 4.

(** A cell of the board: [null] or a tile value. *)
Abbreviation cell := (option Z).

(** The board: an array of rows. *)
Abbreviation Board := (list (list cell)).

(** An entry of [historyStack]: [{board, score, timeRemaining, isTimedGame}];
    [timeRemaining] is [null] for an untimed game. *)
Record Snapshot := mkSnapshot {
  snap_board : Board;
  snap_score : Z;
  snap_timeRemaining : option Z;
  snap_isTimedGame : bool
}.

(** The three texts the script passes to [showMessage]. *)
Inductive Msg := YouWin | GameOver | TimesUp.

(** [/win/i.test(text)], which agrees with [text.includes('win')] on the
    three texts: 'You win!', 'Game Over', "Time's up! Game Over". *)
Definition isWinText (m : Msg) : bool :=
  match m with YouWin => true | GameOver | TimesUp => false end.

(** Which interval callback [timerInterval] holds: the one installed by
    [startTimer] saves the game on every tick, the one installed by the
    keep-playing button does not. *)
Inductive Ticker := SavingTicker | PlainTicker.

(** Values that [JSON.parse] can return. *)
#[warnings="-register-all"]
Inductive json :=
  | JNull
  | JBool (b : bool)
  | JNum (n : Z)
  | JStr (s : string)
  | JArr (items : list json)
  | JObj (fields : list (string * json)).

(** [localStorage]: the 'gameState' item (kept as the parsed value of the
    stored text), the 'bestScore' item, and the number of [setItem] and
    [removeItem] calls issued so far. *)
Record Storage := mkStorage {
  gameStateItem : option json;
  bestScoreItem : option Z;
  storageCalls : nat
}.

Record State := mkState {
  board : Board;
  score : Z;
  bestScore : Z;
  won : bool;
  historyStack : list Snapshot;
  undosRemaining : Z;
  isTimedGame : bool;
  timeRemaining : Z;
  timerInterval : option Ticker;
  messageShown : bool;          (* messageContainer.style.display !== 'none' *)
  messageText : option Msg;     (* messageText.textContent *)
  storage : Storage
}.

(** Assignments to the globals. *)
Definition set_board (v : Board) (st : State) : State :=
  mkState v (score st) (bestScore st) (won st) (historyStack st)
    (undosRemaining st) (isTimedGame st) (timeRemaining st) (timerInterval st)
    (messageShown st) (messageText st) (storage st).
Definition set_score (v : Z) (st : State) : State :=
  mkState (board st) v (bestScore st) (won st) (historyStack st)
    (undosRemaining st) (isTimedGame st) (timeRemaining st) (timerInterval st)
    (messageShown st) (messageText st) (storage st).
Definition set_bestScore (v : Z) (st : State) : State :=
  mkState (board st) (score st) v (won st) (historyStack st)
    (undosRemaining st) (isTimedGame st) (timeRemaining st) (timerInterval st)
    (messageShown st) (messageText st) (storage st).
Definition set_won (v : bool) (st : State) : State :=
  mkState (board st) (score st) (bestScore st) v (historyStack st)
    (undosRemaining st) (isTimedGame st) (timeRemaining st) (timerInterval st)
    (messageShown st) (messageText st) (storage st).
Definition set_historyStack (v : list Snapshot) (st : State) : State :=
  mkState (board st) (score st) (bestScore st) (won st) v
    (undosRemaining st) (isTimedGame st) (timeRemaining st) (timerInterval st)
    (messageShown st) (messageText st) (storage st).
Definition set_undosRemaining (v : Z) (st : State) : State :=
  mkState (board st) (score st) (bestScore st) (won st) (historyStack st)
    v (isTimedGame st) (timeRemaining st) (timerInterval st)
    (messageShown st) (messageText st) (storage st).
Definition set_isTimedGame (v : bool) (st : State) : State :=
  mkState (board st) (score st) (bestScore st) (won st) (historyStack st)
    (undosRemaining st) v (timeRemaining st) (timerInterval st)
    (messageShown st) (messageText st) (storage st).
Definition set_timeRemaining (v : Z) (st : State) : State :=
  mkState (board st) (score st) (bestScore st) (won st) (historyStack st)
    (undosRemaining st) (isTimedGame st) v (timerInterval st)
    (messageShown st) (messageText st) (storage st).
Definition set_timerInterval (v : option Ticker) (st : State) : State :=
  mkState (board st) (score st) (bestScore st) (won st) (historyStack st)
    (undosRemaining st) (isTimedGame st) (timeRemaining st) v
    (messageShown st) (messageText st) (storage st).
Definition set_messageShown (v : bool) (st : State) : State :=
  mkState (board st) (score st) (bestScore st) (won st) (historyStack st)
    (undosRemaining st) (isTimedGame st) (timeRemaining st) (timerInterval st)
    v (messageText st) (storage st).
Definition set_messageText (v : option Msg) (st : State) : State :=
  mkState (board st) (score st) (bestScore st) (won st) (historyStack st)
    (undosRemaining st) (isTimedGame st) (timeRemaining st) (timerInterval st)
    (messageShown st) v (storage st).
Definition set_storage (v : Storage) (st : State) : State :=
  mkState (board st) (score st) (bestScore st) (won st) (historyStack st)
    (undosRemaining st) (isTimedGame st) (timeRemaining st) (timerInterval st)
    (messageShown st) (messageText st) v.

(** ** Overlay, timer and storage primitives *)

(** [clearGameState]: [localStorage.removeItem('gameState')]. *)
Definition clearGameState (st : State) : State :=
  set_storage (mkStorage None (bestScoreItem (storage st))
                 (S (storageCalls (storage st)))) st.

(** [stopTimer]: clears the interval, if any. *)
Definition stopTimer (st : State) : State := set_timerInterval None st.

(** [startTimer(initial)]; [initial = None] is a call without a number. *)
Definition startTimer (initial : option Z) (st : State) : State :=
  let st1 := stopTimer st in
  let st2 := set_timeRemaining (default 300 initial) st1 in
  set_timerInterval (Some SavingTicker) st2.

(** [showMessage(text)]. *)
Definition showMessage (text : Msg) (st : State) : State :=
  let st1 := set_messageText (Some text) st in
  let st2 := if isTimedGame st1 && negb (isWinText text)
             then stopTimer st1 else st1 in
  let st3 := if negb (isWinText text) then clearGameState st2 else st2 in
  set_messageShown true st3.

(** [hideMessage]. *)
Definition hideMessage (st : State) : State := set_messageShown false st.

(** ** Resolving one line: [slideAndCombine] *)

(** [x !== null]. *)
Definition notNull (x : cell) : bool :=
  match x with Some _ => true | None => false end.

(** [array.filter(x => x !== null)]. *)
Fixpoint filterNotNull (array : list cell) : list cell :=
  match array with
  | [] => []
  | x :: rest => if notNull x then x :: filterNotNull rest
                 else filterNotNull rest
  end.

(** The number [arr[i] *= 2] stores; [null * 2] is [0] in JavaScript. *)
Definition timesTwo (x : cell) : Z :=
  match x with Some v => 2 * v | None => 0 end.

(** The body of the merge loop for one index [i], run [n] more times with
    [i] going up: [for (let i = ...; i < arr.length - 1; i++)]. *)
Fixpoint combineFrom (n : nat) (i : nat) (arr : list cell) (st : State)
  : list cell * State :=
  match n with
  | O => (arr, st)
  | S n' =>
      match arr !! i, arr !! S i with
      | Some a, Some b =>
          if decide (a = b) then
            let v := timesTwo a in
            let arr1 := <[i := Some v]> arr in
            let st1 := set_score (score st + v) st in
            let arr2 := <[S i := None]> arr1 in
            let st2 := if (v =? 2048) && negb (won st1)
                       then showMessage YouWin (set_won true st1)
                       else st1 in
            combineFrom n' (S i) arr2 st2
          else combineFrom n' (S i) arr st
      | _, _ => (arr, st)
      end
  end.

(** [while (newArr.length < SIZE) newArr.push(null)]. *)
Definition padToSize (newArr : list cell) : list cell :=
  newArr ++ replicate (SIZE - length newArr) None.

Definition slideAndCombine (array : list cell) (st : State)
  : list cell * State :=
  let arr := filterNotNull array in
  let '(arr', st') := combineFrom (length arr - 1) 0 arr st in
  (padToSize (filterNotNull arr'), st').


(** ** The board *)

(** [createEmptyBoard]. *)
Definition createEmptyBoard : Board := replicate SIZE (replicate SIZE None).

(** [b[r][c]]; [None] when the row or the cell is absent. *)
Definition cellAt (b : Board) (r c : nat) : option cell :=
  row ← b !! r; row !! c.

(** [b[r][c] = v] on a row that exists. *)
Definition setCell (r c : nat) (v : cell) (b : Board) : Board :=
  alter (λ row, <[c := v]> row) r b.

(** The indices [0 .. SIZE-1] of the [for] loops, and the cells of the board
    in the order of the two nested loops. *)
Definition indices : list nat := seq 0 SIZE.

Definition positions : list (nat * nat) :=
  r ← indices; c ← indices; [(r, c)].

(** The two calls of [Math.random] in [spawnTile]: the first only serves
    to choose one of the [n] empty cells through
    [Math.floor(Math.random() * n)], which is any index below [n]: here
    [pick mod n]; the second decides between 2 and 4:
    [four] is [!(Math.random() < 0.9)]. *)
Record Rnd := mkRnd { pick : nat; four : bool }.

(** The [emptyCells] array of [spawnTile]. *)
Fixpoint emptyCellsIn (b : Board) (ps : list (nat * nat))
  : option (list (nat * nat)) :=
  match ps with
  | [] => Some []
  | (r, c) :: ps' =>
      x ← cellAt b r c;
      rest ← emptyCellsIn b ps';
      Some (if notNull x then rest else (r, c) :: rest)
  end.

Definition spawnTile (rnd : Rnd) (st : State) : option State :=
  emptyCells ← emptyCellsIn (board st) positions;
  match emptyCells with
  | [] => Some st
  | _ :: _ =>
      '(r, c) ← emptyCells !! (pick rnd `mod` length emptyCells)%nat;
      Some (set_board
              (setCell r c (Some (if four rnd then 4 else 2)) (board st)) st)
  end.

(** [renderBoard] only reads the state; it raises a [TypeError] when one of
    the rows [board[0] .. board[SIZE-1]] is absent. *)
Definition renderBoard (st : State) : option unit :=
  if decide (SIZE ≤ length (board st))%nat then Some () else None.

(** [arraysEqual(a, b)]: compares [a[i]] with [b[i]] for every index of
    [a]; an absent [b[i]] is [undefined], which differs from every cell. *)
Fixpoint arraysEqual (a b : list cell) : bool :=
  match a, b with
  | [], _ => true
  | x :: a', y :: b' => if decide (x = y) then arraysEqual a' b' else false
  | _ :: _, [] => false
  end.

(** ** Moves *)

(** A [for] loop over rows or columns that carries [changed] and the
    globals. *)
Fixpoint forEach (body : nat → bool → State → option (bool * State))
    (idx : list nat) (changed : bool) (st : State) : option (bool * State) :=
  match idx with
  | [] => Some (changed, st)
  | i :: idx' =>
      '(changed1, st1) ← body i changed st;
      forEach body idx' changed1 st1
  end.

Definition moveLeftRow (r : nat) (changed : bool) (st : State)
  : option (bool * State) :=
  row ← board st !! r;
  let '(newRow, st1) := slideAndCombine row st in
  if arraysEqual row newRow then Some (changed, st1)
  else Some (true, set_board (<[r := newRow]> (board st1)) st1).

Definition moveLeft (st : State) : option (bool * State) :=
  forEach moveLeftRow indices false st.

Definition moveRightRow (r : nat) (changed : bool) (st : State)
  : option (bool * State) :=
  boardRow ← board st !! r;
  let row := reverse boardRow in
  let '(newRow0, st1) := slideAndCombine row st in
  let newRow := reverse newRow0 in
  if arraysEqual boardRow newRow then Some (changed, st1)
  else Some (true, set_board (<[r := newRow]> (board st1)) st1).

Definition moveRight (st : State) : option (bool * State) :=
  forEach moveRightRow indices false st.

(** [for (let r = 0; r < SIZE; r++) column.push(board[r][c])]. *)
Fixpoint readColumn (b : Board) (c : nat) (rs : list nat)
  : option (list cell) :=
  match rs with
  | [] => Some []
  | r :: rs' => x ← cellAt b r c; rest ← readColumn b c rs'; Some (x :: rest)
  end.

(** The loop that writes [newColumn] back, cell by cell, where it differs. *)
Fixpoint writeColumn (c : nat) (newColumn : list cell) (rs : list nat)
    (changed : bool) (b : Board) : option (bool * Board) :=
  match rs with
  | [] => Some (changed, b)
  | r :: rs' =>
      old ← cellAt b r c;
      new ← newColumn !! r;
      if decide (old = new) then writeColumn c newColumn rs' changed b
      else writeColumn c newColumn rs' true (setCell r c new b)
  end.

Definition moveUpColumn (c : nat) (changed : bool) (st : State)
  : option (bool * State) :=
  column ← readColumn (board st) c indices;
  let '(newColumn, st1) := slideAndCombine column st in
  '(changed1, b1) ← writeColumn c newColumn indices changed (board st1);
  Some (changed1, set_board b1 st1).

Definition moveUp (st : State) : option (bool * State) :=
  forEach moveUpColumn indices false st.

Definition moveDownColumn (c : nat) (changed : bool) (st : State)
  : option (bool * State) :=
  column0 ← readColumn (board st) c indices;
  let column := reverse column0 in
  let '(newColumn0, st1) := slideAndCombine column st in
  let newColumn := reverse newColumn0 in
  '(changed1, b1) ← writeColumn c newColumn indices changed (board st1);
  Some (changed1, set_board b1 st1).

Definition moveDown (st : State) : option (bool * State) :=
  forEach moveDownColumn indices false st.

(** [isGameOver]: the two nested loops, the first looking for an empty
    cell, the second for two equal neighbours. *)
Fixpoint anyEmpty (b : Board) (ps : list (nat * nat)) : option bool :=
  match ps with
  | [] => Some false
  | (r, c) :: ps' =>
      x ← cellAt b r c;
      if notNull x then anyEmpty b ps' else Some true
  end.

(** [r < SIZE - 1 && board[r + 1][c] === current], and the same test
    for the cell to the right. *)
Definition equalAt (b : Board) (inside : bool) (r c : nat) (current : cell)
  : option bool :=
  if inside then x ← cellAt b r c; Some (bool_decide (x = current))
  else Some false.

Fixpoint anyEqualNeighbours (b : Board) (ps : list (nat * nat))
  : option bool :=
  match ps with
  | [] => Some false
  | (r, c) :: ps' =>
      current ← cellAt b r c;
      below ← equalAt b (bool_decide (r < SIZE - 1)%nat) (r + 1) c current;
      if (below : bool) then Some true else
      right ← equalAt b (bool_decide (c < SIZE - 1)%nat) r (c + 1) current;
      if (right : bool) then Some true else anyEqualNeighbours b ps'
  end.

Definition isGameOver (b : Board) : option bool :=
  hasEmpty ← anyEmpty b positions;
  if (hasEmpty : bool) then Some false else
  hasEqual ← anyEqualNeighbours b positions;
  Some (negb hasEqual).


(** ** Score display and persistence *)

(** [updateScoreDisplay]: raises [bestScore] to [score] and stores it. *)
Definition updateScoreDisplay (st : State) : State :=
  if decide (bestScore st < score st) then
    let st1 := set_bestScore (score st) st in
    set_storage (mkStorage (gameStateItem (storage st1))
                   (Some (bestScore st1))
                   (S (storageCalls (storage st1)))) st1
  else st.

(** What [JSON.stringify] makes of the object built in [saveGameState],
    read back as a parsed value. *)
Definition jsonOfCell (x : cell) : json :=
  match x with None => JNull | Some v => JNum v end.

Definition jsonOfBoard (b : Board) : json :=
  JArr (map (λ row, JArr (map jsonOfCell row)) b).

Definition jsonOfSnapshot (item : Snapshot) : json :=
  JObj [("board", jsonOfBoard (snap_board item));
        ("score", JNum (snap_score item));
        ("timeRemaining", jsonOfCell (snap_timeRemaining item));
        ("isTimedGame", JBool (snap_isTimedGame item))].

Definition jsonOfState (st : State) : json :=
  JObj [("board", jsonOfBoard (board st));
        ("score", JNum (score st));
        ("bestScore", JNum (bestScore st));
        ("isTimedGame", JBool (isTimedGame st));
        ("timeRemaining", JNum (timeRemaining st));
        ("won", JBool (won st));
        ("historyStack", JArr (map jsonOfSnapshot (historyStack st)));
        ("undosRemaining", JNum (undosRemaining st))].

(** [saveGameState]: [localStorage.setItem('gameState', ...)].  The write
    is taken to succeed; the script swallows a failed one. *)
Definition saveGameState (st : State) : State :=
  set_storage (mkStorage (Some (jsonOfState st))
                 (bestScoreItem (storage st))
                 (S (storageCalls (storage st)))) st.

(** ** History and undo *)

(** The object literal [{board: board.map(row => row.slice()), score,
    timeRemaining: isTimedGame ? timeRemaining : null, isTimedGame}]. *)
Definition takeSnapshot (st : State) : Snapshot :=
  mkSnapshot (board st) (score st)
    (if isTimedGame st then Some (timeRemaining st) else None)
    (isTimedGame st).

(** [historyStack.push(snapshot); if (historyStack.length > 3)
    historyStack.shift()]. *)
Definition pushHistory (snapshot : Snapshot) (h : list Snapshot)
  : list Snapshot :=
  let h1 := h ++ [snapshot] in
  if decide (3 < length h1)%nat then tail h1 else h1.

(** [historyStack.pop()] on a stack that is not empty: the last entry and
    the entries before it. *)
Definition popHistory (h : list Snapshot) : option (Snapshot * list Snapshot) :=
  lastState ← last h; Some (lastState, removelast h).

Definition undoMove (st : State) : option State :=
  if bool_decide (historyStack st = []) || bool_decide (undosRemaining st <= 0)
  then Some st
  else
    '(lastState, rest) ← popHistory (historyStack st);
    let st1 := set_historyStack rest st in
    let st2 := set_undosRemaining (undosRemaining st1 - 1) st1 in
    let st3 := set_board (snap_board lastState) st2 in
    let st4 := set_score (snap_score lastState) st3 in
    let st5 :=
      if snap_isTimedGame lastState then
        let s1 := set_isTimedGame true st4 in
        let s2 := set_timeRemaining
                    (default (timeRemaining s1) (snap_timeRemaining lastState))
                    s1 in
        startTimer (Some (timeRemaining s2)) s2
      else st4 in
    _ ← renderBoard st5;
    let st6 := updateScoreDisplay st5 in
    Some (saveGameState st6).

(** ** Playing a move *)

Inductive Key := ArrowLeft | ArrowRight | ArrowUp | ArrowDown | OtherKey.

(** The [switch (e.key)] of [handleKey]. *)
Definition dispatchKey (k : Key) (st : State) : option (bool * State) :=
  match k with
  | ArrowLeft => moveLeft st
  | ArrowRight => moveRight st
  | ArrowUp => moveUp st
  | ArrowDown => moveDown st
  | OtherKey => Some (false, st)
  end.

(** The [if (moved) { ... }] block, the same in [handleKey] and
    [handleTouchEnd].  The snapshot is the one taken before the move; it
    is pushed the way [pushCurrentState] pushes. *)
Definition afterMove (snapshot : Snapshot) (rnd : Rnd) (st : State)
  : option State :=
  let st1 := set_historyStack (pushHistory snapshot (historyStack st)) st in
  st2 ← spawnTile rnd st1;
  _ ← renderBoard st2;
  let st3 := updateScoreDisplay st2 in
  let st4 := saveGameState st3 in
  over ← isGameOver (board st4);
  Some (if (over : bool) then showMessage GameOver st4 else st4).

Definition handleKey (k : Key) (rnd : Rnd) (st : State) : option State :=
  if messageShown st then Some st
  else
    let snapshot := takeSnapshot st in
    '(moved, st1) ← dispatchKey k st;
    if (moved : bool) then afterMove snapshot rnd st1 else Some st1.

(** [handleTouchEnd] for a swipe of [dx], [dy] pixels. *)
Definition dispatchSwipe (dx dy : Z) (st : State) : option (bool * State) :=
  if decide (Z.abs dy < Z.abs dx)
  then (if decide (0 < dx) then moveRight st else moveLeft st)
  else (if decide (0 < dy) then moveDown st else moveUp st).

Definition handleTouchEnd (dx dy : Z) (rnd : Rnd) (st : State)
  : option State :=
  if messageShown st then Some st
  else if decide (20 < Z.max (Z.abs dx) (Z.abs dy)) then
    let snapshot := takeSnapshot st in
    '(moved, st1) ← dispatchSwipe dx dy st;
    if (moved : bool) then afterMove snapshot rnd st1 else Some st1
  else Some st.

(** ** Starting and resuming a game *)

Definition initGame (rnd1 rnd2 : Rnd) (st : State) : option State :=
  let st1 := set_board createEmptyBoard st in
  let st2 := set_score 0 st1 in
  let st3 := set_won false st2 in
  st4 ← spawnTile rnd1 st3;
  st5 ← spawnTile rnd2 st4;
  _ ← renderBoard st5;
  let st6 := hideMessage st5 in
  let st7 := updateScoreDisplay st6 in
  let st8 := saveGameState st7 in
  let st9 := set_historyStack [] st8 in
  Some (set_undosRemaining 3 st9).

(** [startGame(timed, customMinutes)]; [seconds] is the value the function
    computes from [customMinutes]: [Math.floor(customMinutes * 60)] for a
    positive number, [undefined] ([None]) otherwise. *)
Definition startGame (timed : bool) (seconds : option Z) (rnd1 rnd2 : Rnd)
    (st : State) : option State :=
  let st1 := clearGameState st in
  let st2 := set_isTimedGame timed st1 in
  st3 ← initGame rnd1 rnd2 st2;
  Some (if isTimedGame st3 then startTimer seconds st3 else stopTimer st3).

(** [state.name] on a parsed value: [Some None] is [undefined]; reading a
    property of [null] raises a [TypeError]. *)
Fixpoint lookupField (name : string) (fields : list (string * json))
  : option json :=
  match fields with
  | [] => None
  | (k, v) :: rest => if String.eqb k name then Some v
                      else lookupField name rest
  end.

Definition getProp (name : string) (j : json) : option (option json) :=
  match j with
  | JNull => None
  | JObj fields => Some (lookupField name fields)
  | _ => Some None
  end.

(** [!!x]. *)
Definition truthy (x : option json) : bool :=
  match x with
  | None | Some JNull => false
  | Some (JBool b) => b
  | Some (JNum n) => negb (n =? 0)
  | Some (JStr s) => negb (String.eqb s "")
  | Some (JArr _) | Some (JObj _) => true
  end.

(** [typeof x === 'number' ? x : d]. *)
Definition numberOr (d : Z) (x : option json) : Z :=
  match x with Some (JNum n) => n | _ => d end.

(** A stored cell: [null] or a number; other values are not cells. *)
Definition cellOfJson (j : json) : option cell :=
  match j with JNull => Some None | JNum n => Some (Some n) | _ => None end.

Fixpoint cellsOfJson (items : list json) : option (list cell) :=
  match items with
  | [] => Some []
  | j :: rest => x ← cellOfJson j; xs ← cellsOfJson rest; Some (x :: xs)
  end.

(** [rows.map(row => row.map(...))] and [rows.map(row => row.slice())]:
    every row has to be an array. *)
Fixpoint boardOfJson (rows : list json) : option Board :=
  match rows with
  | [] => Some []
  | JArr items :: rest =>
      row ← cellsOfJson items; b ← boardOfJson rest; Some (row :: b)
  | _ :: _ => None
  end.

(** One entry of the stored [historyStack]. *)
Definition snapshotOfJson (item : json) : option Snapshot :=
  itemBoard ← getProp "board" item;
  itemScore ← getProp "score" item;
  itemTime ← getProp "timeRemaining" item;
  itemTimed ← getProp "isTimedGame" item;
  match itemBoard, itemScore, itemTime, itemTimed with
  | Some (JArr rows), Some (JNum sc), Some t, Some (JBool timed) =>
      b ← boardOfJson rows;
      tr ← cellOfJson t;
      Some (mkSnapshot b sc tr timed)
  | _, _, _, _ => None
  end.

Fixpoint historyOfJson (items : list json) : option (list Snapshot) :=
  match items with
  | [] => Some []
  | j :: rest =>
      item ← snapshotOfJson j; h ← historyOfJson rest; Some (item :: h)
  end.

(** [resumeGame].  The body runs in a [try] block: a [TypeError] raised by
    [renderBoard] is caught and leaves the globals as assigned so far.
    The stored text is kept as the value [JSON.parse] gives for it.  The
    result is [None] on a stored value of a shape that [saveGameState]
    never writes (a row that is not an array, a cell that is neither
    [null] nor a number, a history entry without its four properties):
    what the [catch] block leaves behind there is not modelled. *)
Definition resumeGame (st : State) : option State :=
  match gameStateItem (storage st) with
  | None => Some st
  | Some state =>
      stBoard ← getProp "board" state;
      b ← match stBoard with
          | Some (JArr rows) => boardOfJson rows
          | _ => Some createEmptyBoard
          end;
      let st1 := set_board b st in
      stScore ← getProp "score" state;
      let st2 := set_score (numberOr 0 stScore) st1 in
      stBest ← getProp "bestScore" state;
      let st3 := set_bestScore (numberOr (bestScore st2) stBest) st2 in
      stTimed ← getProp "isTimedGame" state;
      let st4 := set_isTimedGame (truthy stTimed) st3 in
      stTime ← getProp "timeRemaining" state;
      let st5 := set_timeRemaining (numberOr 300 stTime) st4 in
      stWon ← getProp "won" state;
      let st6 := set_won (truthy stWon) st5 in
      stHistory ← getProp "historyStack" state;
      h ← match stHistory with
          | Some (JArr items) => historyOfJson items
          | _ => Some []
          end;
      let st7 := set_historyStack h st6 in
      stUndos ← getProp "undosRemaining" state;
      let st8 := set_undosRemaining (numberOr 3 stUndos) st7 in
      match renderBoard st8 with
      | None => Some st8       (* the TypeError lands in the catch block *)
      | Some _ =>
          let st9 := updateScoreDisplay st8 in
          let st10 := hideMessage st9 in
          Some (if isTimedGame st10
                then startTimer (Some (timeRemaining st10)) st10
                else stopTimer st10)
      end
  end.

(** ** Timer ticks and the buttons of the game screen *)

(** One firing of the interval callback, if an interval is set. *)
Definition tick (st : State) : State :=
  match timerInterval st with
  | None => st
  | Some ticker =>
      let st1 := set_timeRemaining (timeRemaining st - 1) st in
      let st2 := match ticker with
                 | SavingTicker => saveGameState st1
                 | PlainTicker => st1
                 end in
      if decide (timeRemaining st2 <= 0)
      then showMessage TimesUp (set_timerInterval None st2)
      else st2
  end.

(** The click handler of the home button. *)
Definition homeButton (st : State) : State :=
  let st1 := saveGameState st in
  if isTimedGame st1 then stopTimer st1 else st1.

(** The click handler of the keep-playing button. *)
Definition keepPlaying (st : State) : State :=
  let st1 := hideMessage st in
  if isTimedGame st1 && bool_decide (timerInterval st1 = None)
  then set_timerInterval (Some PlainTicker) st1
  else st1.


(** ** Page load and events *)

(** [initStorage]: reads the 'bestScore' item. *)
Definition initStorage (st : State) : State :=
  let st1 := set_bestScore (default 0 (bestScoreItem (storage st))) st in
  updateScoreDisplay st1.

Definition emptyStorage : Storage := mkStorage None None 0.

(** The globals as the script declares them, then the [DOMContentLoaded]
    handler ([initStorage]; the rest of it sets up the screens).  [overlay]
    tells whether the page shows the message overlay before any game
    starts, which the markup decides. *)
Definition pageLoad (overlay : bool) (stored : Storage) : State :=
  initStorage
    (mkState [] 0 0 false [] 3 false 300 None overlay None stored).

(** What can happen to the page: a key press, a swipe, a click on one of
    the buttons, a firing of the interval callback, a reload. *)
Inductive Event :=
  | EvKey (k : Key) (rnd : Rnd)
  | EvSwipe (dx dy : Z) (rnd : Rnd)
  | EvUndo
  | EvTick
  | EvHome
  | EvKeepPlaying
  | EvResume
  | EvNewGame (timed : bool) (seconds : option Z) (rnd1 rnd2 : Rnd)
  | EvExit
  | EvReload (overlay : bool).

Definition step (ev : Event) (st : State) : option State :=
  match ev with
  | EvKey k rnd => handleKey k rnd st
  | EvSwipe dx dy rnd => handleTouchEnd dx dy rnd st
  | EvUndo => undoMove st
  | EvTick => Some (tick st)
  | EvHome => Some (homeButton st)
  | EvKeepPlaying => Some (keepPlaying st)
  | EvResume => resumeGame st
  | EvNewGame timed seconds rnd1 rnd2 => startGame timed seconds rnd1 rnd2 st
  | EvExit => Some (clearGameState st)
  | EvReload overlay => Some (pageLoad overlay (storage st))
  end.

Fixpoint run (evs : list Event) (st : State) : option State :=
  match evs with
  | [] => Some st
  | ev :: evs' => st1 ← step ev st; run evs' st1
  end.

(** The events that act on the game in progress; the others replace it
    ([EvNewGame]), drop the stored game ([EvExit]) or reset the globals
    ([EvReload]). *)
Definition sessionEvent (ev : Event) : bool :=
  match ev with
  | EvNewGame _ _ _ _ | EvExit | EvReload _ => false
  | _ => true
  end.

(** The states the page can be in: after a first load, with nothing
    stored, and after any event. *)
Inductive reachable : State → Prop :=
  | reachable_load overlay : reachable (pageLoad overlay emptyStorage)
  | reachable_step ev st st' :
      reachable st → step ev st = Some st' → reachable st'.

(** A game begins with [startGame] or with [resumeGame]. *)
Definition sessionStart (st0 st : State) : Prop :=
  (∃ timed seconds rnd1 rnd2,
     startGame timed seconds rnd1 rnd2 st0 = Some st)
  ∨ (is_Some (gameStateItem (storage st0)) ∧ resumeGame st0 = Some st).

(** [k] moves the board of [st]: the key handler is not blocked by the
    overlay and the move function returns [true]. *)
Definition movedBy (k : Key) (st : State) : bool :=
  negb (messageShown st) &&
  match dispatchKey k st with Some (true, _) => true | _ => false end.

(** Consecutive successful moves: the states before each move, oldest
    first, and the state after the last one. *)
Fixpoint playMoves (ms : list (Key * Rnd)) (st : State)
  : option (list State * State) :=
  match ms with
  | [] => Some ([], st)
  | (k, rnd) :: ms' =>
      if movedBy k st then
        st1 ← handleKey k rnd st;
        '(before, st') ← playMoves ms' st1;
        Some (st :: before, st')
      else None
  end.

(** [n] clicks on the undo button. *)
Fixpoint undoTimes (n : nat) (st : State) : option State :=
  match n with
  | O => Some st
  | S n' => st1 ← undoMove st; undoTimes n' st1
  end.

(** The last [n] elements of a list. *)
Definition lastN {A} (n : nat) (l : list A) : list A :=
  drop (length l - n) l.

(** A board with its SIZE rows of SIZE cells. *)
Definition wfBoard (b : Board) : Prop :=
  length b = SIZE ∧ Forall (λ row, length row = SIZE) b.

(** What the stored game and the globals have in common in every state the
    page reaches. *)
Definition storedBy (st : State) (s : State) : Prop :=
  (length (historyStack s) ≤ 3)%nat
  ∧ 0 <= undosRemaining s <= undosRemaining st
  ∧ (won st = true → won s = true).

Definition consistent (st : State) : Prop :=
  (length (historyStack st) ≤ 3)%nat
  ∧ 0 <= undosRemaining st <= 3
  ∧ ∀ j, gameStateItem (storage st) = Some j →
         ∃ s, j = jsonOfState s ∧ storedBy st s.

(** ** The merge sweep in closed form *)

(** The tiles of a line, in order: the numbers left by
    [filter(x => x !== null)]. *)
Fixpoint tiles (line : list cell) : list Z :=
  match line with
  | [] => []
  | Some v :: rest => v :: tiles rest
  | None :: rest => tiles rest
  end.

(** The array after the merge loop, cleared cells included. *)
Fixpoint sweep (vs : list Z) : list cell :=
  match vs with
  | [] => []
  | a :: tl =>
      match tl with
      | [] => [Some a]
      | b :: rest =>
          if decide (a = b) then Some (2 * a) :: None :: sweep rest
          else Some a :: sweep tl
      end
  end.

(** The values the merges of one sweep produce, first merge first. *)
Fixpoint mergeResults (vs : list Z) : list Z :=
  match vs with
  | [] => []
  | a :: tl =>
      match tl with
      | [] => []
      | b :: rest =>
          if decide (a = b) then 2 * a :: mergeResults rest
          else mergeResults tl
      end
  end.

(** The statements the loop runs on the globals for one merge giving [v]. *)
Definition recordMerge (st : State) (v : Z) : State :=
  let st1 := set_score (score st + v) st in
  if (v =? 2048) && negb (won st1)
  then showMessage YouWin (set_won true st1) else st1.

(** The tiles of the line after the sweep. *)
Fixpoint mergeTiles (vs : list Z) : list Z :=
  match vs with
  | [] => []
  | a :: tl =>
      match tl with
      | [] => [a]
      | b :: rest =>
          if decide (a = b) then 2 * a :: mergeTiles rest
          else a :: mergeTiles tl
      end
  end.

(** The runs of one or two tiles that the sweep turns into one tile each. *)
Fixpoint groupsOf (vs : list Z) : list (list Z) :=
  match vs with
  | [] => []
  | a :: tl =>
      match tl with
      | [] => [[a]]
      | b :: rest =>
          if decide (a = b) then [a; b] :: groupsOf rest
          else [a] :: groupsOf tl
      end
  end.

(** The sum of the tiles of a group. *)
Definition sumZ (l : list Z) : Z := foldr Z.add 0 l.

(** Two neighbouring cells of a line hold the same tile. *)
Fixpoint equalNeighbours (line : list cell) : bool :=
  match line with
  | [] => false
  | x :: tl =>
      match tl with
      | [] => false
      | y :: _ => (notNull x && bool_decide (x = y)) || equalNeighbours tl
      end
  end.

(** The loop invariant.  At index [length pre] the array is the part
    already swept, [pre], followed either by tiles not yet looked at or
    by the cell the previous merge cleared and then such tiles. *)
Definition sweptOpen (vs : list Z) : Prop :=
  ∀ (pre : list cell) (st : State),
    combineFrom (length vs - 1) (length pre) (pre ++ map Some vs) st
    = (pre ++ sweep vs, foldl recordMerge st (mergeResults vs)).

(** The same just after a merge: the cell at the index is the one the
    merge cleared. *)
Definition sweptCleared (vs : list Z) : Prop :=
  ∀ (pre : list cell) (st : State),
    combineFrom (length vs) (length pre) (pre ++ None :: map Some vs) st
    = (pre ++ None :: sweep vs, foldl recordMerge st (mergeResults vs)).

(** The groups of two tiles are the merges. *)
Definition isPair (g : list Z) : bool := bool_decide (length g = 2%nat).

Fixpoint pairsOf (groups : list (list Z)) : list (list Z) :=
  match groups with
  | [] => []
  | g :: rest => if isPair g then g :: pairsOf rest else pairsOf rest
  end.

(** ** Example states *)

(** An example state: an untimed game in progress, nothing stored yet. *)
Definition exampleState : State :=
  mkState [[Some 2; Some 2; Some 2; Some 2]; [None; None; None; None];
           [None; None; None; None]; [None; None; None; None]]
    0 0 false [] 3 false 300 None false None (mkStorage None None 0).

(** The globals once [resumeGame] has assigned what [saveGameState] wrote
    for the state [s], and at the end of [resumeGame]. *)
Definition restored (st s : State) : State :=
  mkState (board s) (score s) (bestScore s) (won s) (historyStack s)
    (undosRemaining s) (isTimedGame s) (timeRemaining s)
    (timerInterval st) (messageShown st) (messageText st) (storage st).

(** The end of [resumeGame], from [renderBoard] on. *)
Definition finishResume (st8 : State) : State :=
  match renderBoard st8 with
  | None => st8
  | Some _ =>
      let st10 := hideMessage (updateScoreDisplay st8) in
      if isTimedGame st10 then startTimer (Some (timeRemaining st10)) st10
      else stopTimer st10
  end.

Definition resumed (st s : State) : State := finishResume (restored st s).

(** A board on which a move to the left changes nothing. *)
Definition packedState : State :=
  mkState [[Some 2; Some 4; None; None]; [Some 4; None; None; None];
           [None; None; None; None]; [None; None; None; None]]
    0 0 false [] 3 false 300 None false None (mkStorage None None 0).

(** Every move function only touches the board, the score, the win flag
    and the overlay; a win flag that is set stays set, and the board keeps
    its number of rows. *)
Definition moveFrame (st st' : State) : Prop :=
  bestScore st' = bestScore st
  ∧ historyStack st' = historyStack st
  ∧ undosRemaining st' = undosRemaining st
  ∧ isTimedGame st' = isTimedGame st
  ∧ timeRemaining st' = timeRemaining st
  ∧ timerInterval st' = timerInterval st
  ∧ storage st' = storage st
  ∧ (won st = true → won st' = true)
  ∧ length (board st') = length (board st).

(** A position on the board. *)
Definition validPosition (p : nat * nat) : Prop :=
  (p.1 < SIZE)%nat ∧ (p.2 < SIZE)%nat.

(** What an event of a running session may do to the stored game, the win
    flag, the history and the undo counter: the stored game is removed,
    left alone or written from the new globals; a win flag that is set
    stays set; the history is kept, pushed on or popped; the counter is
    kept or, when positive, goes down by one. *)
Definition sessionEffect (st st' : State) : Prop :=
  (gameStateItem (storage st') = None
   ∨ (gameStateItem (storage st') = gameStateItem (storage st)
      ∧ won st' = won st ∧ undosRemaining st' = undosRemaining st)
   ∨ (∃ s, gameStateItem (storage st') = Some (jsonOfState s)
           ∧ won s = won st'
           ∧ historyStack s = historyStack st'
           ∧ undosRemaining s = undosRemaining st'))
  ∧ (won st = true → won st' = true)
  ∧ (historyStack st' = historyStack st
     ∨ (∃ snapshot,
          historyStack st' = pushHistory snapshot (historyStack st))
     ∨ historyStack st' = removelast (historyStack st))
  ∧ (undosRemaining st' = undosRemaining st
     ∨ (0 < undosRemaining st
        ∧ undosRemaining st' = undosRemaining st - 1)).

(** A successful undo: the last snapshot is popped and restored, the
    counter goes down by one, the game is saved. *)
Definition undone (lastState : Snapshot) (rest : list Snapshot) (st : State)
  : State :=
  let st4 :=
    set_score (snap_score lastState) (set_board (snap_board lastState)
      (set_undosRemaining (undosRemaining st - 1)
        (set_historyStack rest st))) in
  let st5 :=
    if snap_isTimedGame lastState then
      startTimer
        (Some (default (timeRemaining st4) (snap_timeRemaining lastState)))
        (set_timeRemaining
           (default (timeRemaining st4) (snap_timeRemaining lastState))
           (set_isTimedGame true st4))
    else st4 in
  saveGameState (updateScoreDisplay st5).

(** The stored game does not lose a win: if the globals say the game is
    won, so does the stored 'won' property. *)
Definition wonKept (st : State) : Prop :=
  ∀ j pWon,
    gameStateItem (storage st) = Some j →
    getProp "won" j = Some pWon →
    won st = true → truthy pWon = true.

(** [u] shows the game as it was in [p]: the board, the score and, for a
    timed game, the remaining time. *)
Definition restoredFrom (p u : State) : Prop :=
  board u = board p
  ∧ score u = score p
  ∧ (isTimedGame p = true →
     isTimedGame u = true ∧ timeRemaining u = timeRemaining p).

(** A draw that puts a 2 on the first empty cell. *)
Definition lowDraw : Rnd := mkRnd 0 false.

(** The state after the events [evs], from a first load of the page with
    the overlay hidden. *)
Definition played (evs : list Event) : State :=
  default (pageLoad false emptyStorage)
    (run evs (pageLoad false emptyStorage)).

(** A new untimed game, and the same game after one to four moves. *)
Definition newGameEvents : list Event := [EvNewGame false None lowDraw lowDraw].

Definition freshGame : State := played newGameEvents.

Definition fourMoves : list (Key * Rnd) :=
  [(ArrowLeft, lowDraw); (ArrowRight, lowDraw);
   (ArrowDown, lowDraw); (ArrowUp, lowDraw)].

Definition afterMoves (n : nat) : State :=
  played (newGameEvents ++ map (λ m, EvKey m.1 m.2) (take n fourMoves)).

(** A game in which two of the three undos have been used. *)
Definition twoUndosSpent : State :=
  played (newGameEvents ++
          [EvKey ArrowLeft lowDraw; EvUndo; EvKey ArrowLeft lowDraw; EvUndo]).

Definition afterMovesSpent (n : nat) : State :=
  played (newGameEvents ++
          [EvKey ArrowLeft lowDraw; EvUndo; EvKey ArrowLeft lowDraw; EvUndo] ++
          map (λ m, EvKey m.1 m.2) (take n fourMoves)).

(** A game one merge away from the 2048 tile, stored, and the page loaded
    again. *)
Definition almostWon : State :=
  mkState [[Some 1024; Some 1024; None; None]; [None; None; None; None];
           [None; None; None; None]; [Some 2; None; None; None]]
    20000 20000 false [] 3 false 300 None false None
    (mkStorage None (Some 20000) 40).

Definition almostWonStored : State :=
  pageLoad false (storage (saveGameState almostWon)).

(** A stored game that is older than the best score in memory: the game
    was saved with a best score of 40, the page now holds 100. *)
Definition earlierGame : State :=
  mkState [[Some 8; Some 4; None; None]; [Some 2; None; None; None];
           [None; None; None; None]; [None; None; None; None]]
    40 40 false [] 3 false 300 None false None (mkStorage None (Some 40) 12).

Definition staleBest : State :=
  mkState [[Some 32; Some 16; None; None]; [Some 4; None; None; None];
           [None; None; None; None]; [None; None; None; None]]
    100 100 false [] 3 false 300 None false None
    (mkStorage (Some (jsonOfState earlierGame)) (Some 100) 30).

(** A board one move away from a game over, untimed and timed. *)
Definition nearlyLost : State :=
  mkState [[Some 2; Some 4; Some 2; Some 4]; [Some 4; Some 2; Some 4; Some 2];
           [Some 2; Some 4; Some 2; Some 4]; [Some 2; Some 2; Some 2; Some 4]]
    100 100 false [] 3 false 300 None false None
    (mkStorage None (Some 100) 7).

Definition lost : State :=
  default nearlyLost (handleKey ArrowLeft lowDraw nearlyLost).

Definition timedGame : State :=
  mkState [[Some 2; Some 4; Some 2; Some 4]; [Some 4; Some 2; Some 4; Some 2];
           [Some 2; Some 4; Some 2; Some 4]; [Some 2; Some 2; Some 2; None]]
    100 100 false [] 3 true 2 (Some SavingTicker) false None
    (mkStorage None (Some 100) 7).

Definition timeUp : State :=
  default timedGame
    (run [EvKey ArrowLeft lowDraw; EvTick; EvTick] timedGame).

(** A state in which a game is on the board: the board, the boards of the
    snapshots and those of the stored game have their SIZE rows of SIZE
    cells. *)
Definition playableGame (s : State) : Prop :=
  wfBoard (board s)
  ∧ Forall (λ item, wfBoard (snap_board item)) (historyStack s).

(** A playable state: the game on the board is playable and so is the
    stored one, which is always one that [saveGameState] wrote. *)
Definition playable (st : State) : Prop :=
  playableGame st
  ∧ ∀ j, gameStateItem (storage st) = Some j →
         ∃ s, j = jsonOfState s ∧ playableGame s.

(** The line [slideAndCombine] returns and the values its merges produce,
    as functions of the line alone. *)
Definition slideLine (line : list cell) : list cell :=
  padToSize (map Some (mergeTiles (tiles line))).

(** ** The four moves in closed form *)

Definition lineMerges (line : list cell) : list Z := mergeResults (tiles line).

(** The same towards the end of the line, as [moveRight] and [moveDown]
    call it: on the reversed line, the result reversed. *)
Definition slideLineBack (line : list cell) : list cell :=
  reverse (slideLine (reverse line)).

Definition lineMergesBack (line : list cell) : list Z :=
  lineMerges (reverse line).

(** The merges of several lines, recorded line after line. *)
Definition recordLines (merges : list cell → list Z) (st : State)
    (lines : list (list cell)) : State :=
  foldl (λ s line, foldl recordMerge s (merges line)) st lines.

(** The board seen from the right, and the board with rows and columns
    exchanged. *)
Definition mirror (b : Board) : Board := map reverse b.

Definition column (b : Board) (c : nat) : list cell :=
  map (λ row, default None (row !! c)) b.

Definition transpose (b : Board) : Board := map (column b) indices.

(** The board with column [c] replaced by [newColumn]. *)
Definition setColumn (c : nat) (newColumn : list cell) (b : Board) : Board :=
  zip_with (λ x row, <[c := x]> row) newColumn b.

(** The board a key leaves, and the globals after the merges it runs. *)
Definition resolveBoard (k : Key) (b : Board) : Board :=
  match k with
  | ArrowLeft => map slideLine b
  | ArrowRight => map slideLineBack b
  | ArrowUp => transpose (map slideLine (transpose b))
  | ArrowDown => transpose (map slideLineBack (transpose b))
  | OtherKey => b
  end.

Definition recordMove (k : Key) (st : State) : State :=
  match k with
  | ArrowLeft => recordLines lineMerges st (board st)
  | ArrowRight => recordLines lineMergesBack st (board st)
  | ArrowUp => recordLines lineMerges st (transpose (board st))
  | ArrowDown => recordLines lineMergesBack st (transpose (board st))
  | OtherKey => st
  end.

(** The globals with the board seen through a symmetry [f], and the result
    of a move function seen the same way. *)
Definition onBoard (f : Board → Board) (st : State) : State :=
  set_board (f (board st)) st.

Definition onResult (f : Board → Board) (r : bool * State) : bool * State :=
  (r.1, onBoard f r.2).

(** The tiles of the board, row after row, and the values the merges of a
    move produce, in the order the move runs them. *)
Definition boardTiles (b : Board) : list Z := tiles (concat b).

(** ** What a move keeps *)

Definition moveMerges (k : Key) (b : Board) : list Z :=
  match k with
  | ArrowLeft => concat (map lineMerges b)
  | ArrowRight => concat (map lineMergesBack b)
  | ArrowUp => concat (map lineMerges (transpose b))
  | ArrowDown => concat (map lineMergesBack (transpose b))
  | OtherKey => []
  end.

(** The number a cell counts for in a sum of tiles. *)
Definition cellValue (x : cell) : Z := default 0 x.

Definition cellCount (x : cell) : nat :=
  match x with Some _ => 1%nat | None => 0%nat end.

(** What the tiles [after] and the merge results [merged] owe to the tiles
    [before]: the same sum, one tile less for every merge, every merge the
    double of a tile from before and itself a tile afterwards, every tile
    afterwards a tile from before or the double of one. *)
Definition resolved (before after merged : list Z) : Prop :=
  sumZ after = sumZ before
  ∧ (length after + length merged)%nat = length before
  ∧ Forall (λ m, ∃ v, m = 2 * v ∧ v ∈ before ∧ m ∈ after) merged
  ∧ Forall (λ t, t ∈ before ∨ ∃ v, t = 2 * v ∧ v ∈ before) after.

(** [n] firings of the interval callback. *)
Definition ticks (n : nat) (st : State) : State := Nat.iter n tick st.

(** The fields a tick leaves alone. *)
Definition sameGame (st st' : State) : Prop :=
  board st' = board st ∧ score st' = score st ∧ bestScore st' = bestScore st
  ∧ won st' = won st ∧ historyStack st' = historyStack st
  ∧ undosRemaining st' = undosRemaining st ∧ isTimedGame st' = isTimedGame st.

(** The arrow key a swipe of [dx], [dy] pixels stands for: the longer axis
    decides, the vertical one when both are equal. *)
Definition keyOfSwipe (dx dy : Z) : Key :=
  if decide (Z.abs dy < Z.abs dx)
  then (if decide (0 < dx) then ArrowRight else ArrowLeft)
  else (if decide (0 < dy) then ArrowDown else ArrowUp).

(** A tile value of the game: 2, 4, 8, ... *)
Definition tileOk (v : Z) : Prop := ∃ k : nat, v = 2 ^ Z.of_nat (S k).

(** A board of SIZE x SIZE cells whose tiles are such values. *)
Definition okBoard (b : Board) : Prop :=
  wfBoard b ∧ Forall tileOk (boardTiles b).

(** The game in the globals or in a stored record: the board is the empty
    array the page starts with, or a board of the game; the snapshots hold
    boards of the game. *)
Definition gameOk (s : State) : Prop :=
  (board s = [] ∨ okBoard (board s))
  ∧ Forall (λ item, okBoard (snap_board item)) (historyStack s).

(** ** Tiles are powers of two *)

Definition tilesInv (st : State) : Prop :=
  gameOk st
  ∧ ∀ j, gameStateItem (storage st) = Some j →
         ∃ s, j = jsonOfState s ∧ gameOk s.

(** ** The best score of one page *)

(** The best score is not negative, not below the score, and the
    'bestScore' item holds it. *)
Definition bestOk (st : State) : Prop :=
  0 <= bestScore st ∧ score st <= bestScore st
  ∧ default 0 (bestScoreItem (storage st)) = bestScore st.

(** What every state of the page satisfies when the page alone writes the
    storage and every write succeeds: the stored game carries the best
    score of the globals. *)
Definition bestInv (st : State) : Prop :=
  bestOk st
  ∧ ∀ j, gameStateItem (storage st) = Some j →
         ∃ s, j = jsonOfState s ∧ bestScore s = bestScore st
              ∧ score s <= bestScore s.

(** ** What the page shows: the undo button and the timer display *)

(** [updateUndoButton]: the text and the [disabled] property it gives the
    undo button. *)
Definition updateUndoButton (st : State) : string * bool :=
  ("Undo (" +:+ pretty (undosRemaining st) +:+ ")",
   bool_decide (historyStack st = []) || bool_decide (undosRemaining st <= 0)).

(** The properties of the stored value that [resumeGame] reads. *)
Definition gameFields : list string :=
  ["board"; "score"; "bestScore"; "isTimedGame"; "timeRemaining"; "won";
   "historyStack"; "undosRemaining"].

(** [s.padStart(2, '0')]. *)
Definition padStart2 (s : string) : string :=
  match String.length s with
  | 0%nat => "00"
  | 1%nat => "0" +:+ s
  | _ => s
  end.

(** [updateTimerDisplay]: the text it gives the timer display.  On integers
    [Math.floor(t / 60)] is the quotient rounded down and [t % 60] the
    remainder with the sign of [t]. *)
Definition updateTimerDisplay (st : State) : string :=
  let mins := padStart2 (pretty (timeRemaining st `div` 60)) in
  let secs := padStart2 (pretty (timeRemaining st `rem` 60)) in
  mins +:+ ":" +:+ secs.

(** ** Preferences *)

(** The preference globals. *)
Record Prefs := mkPrefs {
  currentTheme : string;
  soundEnabled : bool;
  vibrationEnabled : bool
}.

(** The 'theme', 'sound' and 'vibration' items of [localStorage]. *)
Record PrefItems := mkPrefItems {
  themeItem : option string;
  soundItem : option string;
  vibrationItem : option string
}.

(** The text [setItem] stores for a boolean. *)
Definition textOfBool (b : bool) : string := if b then "true" else "false".

(** [savePreferences]: the three items it writes. *)
Definition savePreferences (p : Prefs) : PrefItems :=
  mkPrefItems (Some (currentTheme p))
    (Some (textOfBool (soundEnabled p)))
    (Some (textOfBool (vibrationEnabled p))).

(** [applyTheme(theme)]: whether the body carries the class 'stealth'
    afterwards. *)
Definition applyTheme (theme : string) : bool :=
  bool_decide (theme = "stealth").

(** [loadPreferences]: the globals it assigns and the result of its call
    of [applyTheme].  An absent item is [null]; [null] and the empty text
    are the values for which [storedTheme || 'default'] is 'default'. *)
Definition loadPreferences (items : PrefItems) : Prefs * bool :=
  let theme := match themeItem items with
               | Some s => if bool_decide (s = EmptyString) then "default"
                           else s
               | None => "default"
               end in
  (mkPrefs theme
     (bool_decide (soundItem items = Some "true"))
     (bool_decide (vibrationItem items = Some "true")),
   applyTheme theme).

(** * Properties *)

(** ** What one call of [slideAndCombine] computes *)

Section Line.


Lemma sweep_step a b rest :
  sweep (a :: b :: rest)
  = if decide (a = b) then Some (2 * a) :: None :: sweep rest
    else Some a :: sweep (b :: rest).
Proof. done. Qed.

Lemma mergeTiles_step a b rest :
  mergeTiles (a :: b :: rest)
  = if decide (a = b) then 2 * a :: mergeTiles rest
    else a :: mergeTiles (b :: rest).
Proof. done. Qed.

Lemma mergeResults_step a b rest :
  mergeResults (a :: b :: rest)
  = if decide (a = b) then 2 * a :: mergeResults rest
    else mergeResults (b :: rest).
Proof. done. Qed.

Lemma groupsOf_step a b rest :
  groupsOf (a :: b :: rest)
  = if decide (a = b) then [a; b] :: groupsOf rest
    else [a] :: groupsOf (b :: rest).
Proof. done. Qed.

Lemma filterNotNull_tiles line : filterNotNull line = map Some (tiles line).
Proof.
  induction line as [|[v|] line IH]; simpl; [done | by rewrite IH | done].
Qed.

Lemma tiles_map_Some vs : tiles (map Some vs) = vs.
Proof. induction vs as [|v vs IH]; simpl; [done | by rewrite IH]. Qed.

Lemma tiles_app l1 l2 : tiles (l1 ++ l2) = tiles l1 ++ tiles l2.
Proof.
  induction l1 as [|[v|] l1 IH]; simpl; [done | by rewrite IH | done].
Qed.

Lemma tiles_replicate_None n : tiles (replicate n None) = [].
Proof. induction n; simpl; done. Qed.

Lemma tiles_sweep vs : tiles (sweep vs) = mergeTiles vs.
Proof.
  remember (length vs) as n eqn:Hn.
  assert (Hle : (length vs ≤ n)%nat) by lia. clear Hn.
  revert vs Hle. induction n as [|n IH]; intros vs Hle.
  { destruct vs; simpl in *; [done | lia]. }
  destruct vs as [|a [|b rest]]; [done | done |].
  simpl in Hle.
  rewrite sweep_step, mergeTiles_step.
  case_decide; cbn [tiles]; rewrite IH; simpl; (done || lia).
Qed.

Lemma lookup_after {A} (pre : list A) x l :
  (pre ++ x :: l) !! length pre = Some x.
Proof. by apply list_lookup_middle. Qed.

Lemma lookup_after_S {A} (pre : list A) x y l :
  (pre ++ x :: y :: l) !! S (length pre) = Some y.
Proof.
  rewrite (cons_middle x), (assoc_L (++)).
  apply list_lookup_middle. rewrite length_app. simpl. lia.
Qed.

Lemma insert_after {A} (pre : list A) x z l :
  <[length pre := z]> (pre ++ x :: l) = pre ++ z :: l.
Proof.
  replace (length pre) with (length pre + 0)%nat by lia.
  by rewrite insert_app_r.
Qed.

Lemma insert_after_S {A} (pre : list A) x y z l :
  <[S (length pre) := z]> (pre ++ x :: y :: l) = pre ++ x :: z :: l.
Proof.
  replace (S (length pre)) with (length pre + 1)%nat by lia.
  by rewrite insert_app_r.
Qed.

Lemma sweptCleared_of_open vs : sweptOpen vs → sweptCleared vs.
Proof.
  intros Hopen pre st. destruct vs as [|b rest]; [done|].
  cbn [length map combineFrom].
  rewrite lookup_after, lookup_after_S.
  rewrite decide_False by done.
  specialize (Hopen (pre ++ [None]) st).
  rewrite length_app in Hopen. cbn [length map] in Hopen.
  rewrite Nat.sub_succ, Nat.sub_0_r, Nat.add_1_r,
    <- !(assoc_L (++)) in Hopen.
  exact Hopen.
Qed.

Lemma combineFrom_sweep vs : sweptOpen vs.
Proof.
  remember (length vs) as n eqn:Hn.
  assert (Hle : (length vs ≤ n)%nat) by lia. clear Hn.
  revert vs Hle. induction n as [|n IH]; intros vs Hle pre st.
  { destruct vs; simpl in *; [done | lia]. }
  destruct vs as [|a [|b rest]]; [done | done |].
  simpl in Hle.
  cbn [length map]. rewrite Nat.sub_succ, Nat.sub_0_r.
  cbn [combineFrom]. rewrite lookup_after, lookup_after_S.
  rewrite sweep_step, mergeResults_step.
  destruct (decide (a = b)) as [->|Hne].
  - rewrite !decide_True by done. cbn [foldl].
    rewrite insert_after, insert_after_S.
    assert (Hrest : sweptCleared rest).
    { apply sweptCleared_of_open. apply IH. lia. }
    specialize (Hrest (pre ++ [Some (2 * b)])
                  (recordMerge st (2 * b))).
    rewrite length_app in Hrest. cbn [length] in Hrest.
    rewrite Nat.add_1_r, <- !(assoc_L (++)) in Hrest.
    exact Hrest.
  - rewrite !decide_False by congruence.
    specialize (IH (b :: rest) ltac:(simpl; lia) (pre ++ [Some a]) st).
    rewrite length_app in IH. cbn [length map] in IH.
    rewrite Nat.sub_succ, Nat.sub_0_r, Nat.add_1_r,
      <- !(assoc_L (++)) in IH.
    exact IH.
Qed.

(** [slideAndCombine] in closed form: the line it returns and what it
    does to the globals. *)
Lemma slideAndCombine_eq line st :
  slideAndCombine line st
  = (padToSize (map Some (mergeTiles (tiles line))),
     foldl recordMerge st (mergeResults (tiles line))).
Proof.
  unfold slideAndCombine. rewrite filterNotNull_tiles, length_map.
  pose proof (combineFrom_sweep (tiles line) [] st) as H.
  cbn [length app] in H. rewrite H.
  by rewrite filterNotNull_tiles, tiles_sweep.
Qed.

Lemma groupsOf_concat vs : concat (groupsOf vs) = vs.
Proof.
  remember (length vs) as n eqn:Hn.
  assert (Hle : (length vs ≤ n)%nat) by lia. clear Hn.
  revert vs Hle. induction n as [|n IH]; intros vs Hle.
  { destruct vs; simpl in *; [done | lia]. }
  destruct vs as [|a [|b rest]]; [done | done |].
  simpl in Hle. rewrite groupsOf_step.
  case_decide; cbn [concat app]; rewrite IH; simpl; (done || lia).
Qed.

Lemma groupsOf_shape vs :
  Forall (λ g, ∃ a : Z, g = [a] ∨ g = [a; a]) (groupsOf vs).
Proof.
  remember (length vs) as n eqn:Hn.
  assert (Hle : (length vs ≤ n)%nat) by lia. clear Hn.
  revert vs Hle. induction n as [|n IH]; intros vs Hle.
  { destruct vs; simpl in *; [constructor | lia]. }
  destruct vs as [|a [|b rest]]; [constructor | |].
  { repeat constructor. exists a. by left. }
  simpl in Hle. rewrite groupsOf_step.
  case_decide as Hab; constructor.
  - exists b. right. by rewrite Hab.
  - apply IH. lia.
  - exists a. by left.
  - apply IH. simpl. lia.
Qed.

Lemma mergeTiles_groups vs : mergeTiles vs = map sumZ (groupsOf vs).
Proof.
  remember (length vs) as n eqn:Hn.
  assert (Hle : (length vs ≤ n)%nat) by lia. clear Hn.
  revert vs Hle. induction n as [|n IH]; intros vs Hle.
  { destruct vs; simpl in *; [done | lia]. }
  destruct vs as [|a [|b rest]]; [done | |].
  { simpl. f_equal. lia. }
  simpl in Hle. rewrite groupsOf_step, mergeTiles_step.
  case_decide as Hab; cbn [map]; rewrite IH by (simpl; lia);
    f_equal; unfold sumZ; simpl; lia.
Qed.

Lemma mergeResults_groups vs :
  mergeResults vs = map sumZ (pairsOf (groupsOf vs)).
Proof.
  remember (length vs) as n eqn:Hn.
  assert (Hle : (length vs ≤ n)%nat) by lia. clear Hn.
  revert vs Hle. induction n as [|n IH]; intros vs Hle.
  { destruct vs; simpl in *; [done | lia]. }
  destruct vs as [|a [|b rest]]; [done | done |].
  simpl in Hle. rewrite groupsOf_step, mergeResults_step.
  case_decide as Hab; cbn [pairsOf isPair length bool_decide map];
    rewrite IH by (simpl; lia).
  - simpl. f_equal. unfold sumZ. simpl. lia.
  - done.
Qed.

Lemma showMessage_YouWin st :
  showMessage YouWin st
  = set_messageShown true (set_messageText (Some YouWin) st).
Proof.
  unfold showMessage. cbn [isWinText negb].
  by rewrite andb_false_r.
Qed.

Lemma recordMerge_score st v : score (recordMerge st v) = score st + v.
Proof.
  unfold recordMerge. cbv zeta. rewrite showMessage_YouWin.
  destruct ((v =? 2048) && negb (won (set_score (score st + v) st)));
    reflexivity.
Qed.

Lemma foldl_recordMerge_score rs st :
  score (foldl recordMerge st rs) = score st + sumZ rs.
Proof.
  revert st. induction rs as [|v rs IH]; intros st; simpl.
  - lia.
  - rewrite IH, recordMerge_score. unfold sumZ. simpl. lia.
Qed.

Lemma equalNeighbours_step x y rest :
  equalNeighbours (x :: y :: rest)
  = (notNull x && bool_decide (x = y)) || equalNeighbours (y :: rest).
Proof. done. Qed.

Lemma equalNeighbours_replicate_None k :
  equalNeighbours (replicate k None) = false.
Proof.
  induction k as [|k IH]; [done|].
  destruct k as [|k]; [done|].
  change (replicate (S (S k)) (@None Z))
    with (None :: None :: replicate k (@None Z)).
  rewrite equalNeighbours_step. exact IH.
Qed.

Lemma mergeTiles_length vs : (length (mergeTiles vs) ≤ length vs)%nat.
Proof.
  assert (Hall : ∀ n vs, (length vs ≤ n)%nat →
                         (length (mergeTiles vs) ≤ length vs)%nat);
    [|by apply (Hall (length vs))].
  clear vs. induction n as [|n IH]; intros vs Hle.
  { destruct vs; simpl in *; lia. }
  destruct vs as [|a [|b rest]]; [done | done |].
  cbn [length] in Hle |- *. rewrite mergeTiles_step.
  case_decide; cbn [length].
  - specialize (IH rest ltac:(lia)). lia.
  - specialize (IH (b :: rest) ltac:(simpl; lia)).
    cbn [length] in IH. lia.
Qed.

(** A line of tiles followed by empty cells: without equal neighbours the
    sweep merges nothing, with equal neighbours it leaves fewer tiles. *)
Lemma sweep_without_equalNeighbours vs k :
  equalNeighbours (map Some vs ++ replicate k None) = false →
  mergeTiles vs = vs ∧ mergeResults vs = [].
Proof.
  induction vs as [|a vs IH]; [done|].
  destruct vs as [|b rest]; [done|].
  cbn [map app]. rewrite equalNeighbours_step.
  rewrite mergeTiles_step, mergeResults_step.
  intros [Hab Hrest]%orb_false_elim. cbn [notNull andb] in Hab.
  apply bool_decide_eq_false in Hab.
  rewrite !decide_False by congruence.
  destruct (IH Hrest) as [-> ->]. done.
Qed.

Lemma sweep_with_equalNeighbours vs k :
  equalNeighbours (map Some vs ++ replicate k None) = true →
  (length (mergeTiles vs) < length vs)%nat.
Proof.
  induction vs as [|a vs IH].
  { simpl. by rewrite equalNeighbours_replicate_None. }
  destruct vs as [|b rest].
  { cbn [map app]. destruct k; [done|]. cbn [replicate].
    rewrite equalNeighbours_step.
    change (None :: replicate k None) with (replicate (S k) (@None Z)).
    by rewrite equalNeighbours_replicate_None. }
  cbn [map app]. rewrite equalNeighbours_step, mergeTiles_step.
  cbn [notNull andb]. intros Heq.
  destruct (decide (a = b)) as [Hab|Hab]; cbn [length].
  - pose proof (mergeTiles_length rest). lia.
  - rewrite bool_decide_eq_false_2 in Heq by congruence.
    specialize (IH Heq). cbn [length] in IH. lia.
Qed.

Lemma tiles_padToSize vs : tiles (padToSize (map Some vs)) = vs.
Proof.
  unfold padToSize.
  by rewrite tiles_app, tiles_map_Some, tiles_replicate_None, app_nil_r.
Qed.

Lemma merge_count vs :
  (length (mergeTiles vs) + length (mergeResults vs) = length vs)%nat.
Proof.
  assert (Hall : ∀ n vs, (length vs ≤ n)%nat →
    (length (mergeTiles vs) + length (mergeResults vs) = length vs)%nat);
    [|by apply (Hall (length vs))].
  clear vs. induction n as [|n IH]; intros vs Hle.
  { destruct vs; simpl in *; lia. }
  destruct vs as [|a [|b rest]]; [done | done |].
  cbn [length] in Hle |- *. rewrite mergeTiles_step, mergeResults_step.
  destruct (decide (a = b)); cbn [length].
  - specialize (IH rest ltac:(lia)). lia.
  - specialize (IH (b :: rest) ltac:(simpl; lia)).
    cbn [length] in IH. lia.
Qed.

Lemma tiles_reverse line : tiles (reverse line) = reverse (tiles line).
Proof.
  induction line as [|[v|] line IH]; [done | |].
  - rewrite reverse_cons, tiles_app, IH. cbn [tiles].
    by rewrite reverse_cons.
  - rewrite reverse_cons, tiles_app, IH. cbn [tiles].
    by rewrite app_nil_r.
Qed.

Lemma arraysEqual_prefix a b :
  arraysEqual a b = true → ∃ b2, b = a ++ b2.
Proof.
  revert b. induction a as [|x a IH]; intros b Heq.
  { by exists b. }
  destruct b as [|y b]; [done|]. simpl in Heq.
  destruct (decide (x = y)) as [->|]; [|done].
  destruct (IH b Heq) as [b2 ->]. by exists b2.
Qed.

Lemma arraysEqual_refl a b2 : arraysEqual a (a ++ b2) = true.
Proof.
  induction a as [|x a IH]; [done|]. simpl. by rewrite decide_True.
Qed.

(** A call that returns at least as many tiles as it was given has run
    no merge: the globals are as before. *)
Lemma slideAndCombine_same_count line st :
  (length (tiles line) ≤ length (tiles (slideAndCombine line st).1))%nat →
  (slideAndCombine line st).2 = st.
Proof.
  rewrite slideAndCombine_eq. cbn [fst snd]. rewrite tiles_padToSize.
  intros Hle. pose proof (merge_count (tiles line)) as Hc.
  destruct (mergeResults (tiles line)); [done | simpl in Hc; lia].
Qed.

End Line.

(** C1. One application of [slideAndCombine] never merges a tile that a
    merge of the same sweep produced.  The line [2,2,2,2] becomes
    [4,4,_,_] and adds exactly 8 to the score; it does not become
    [8,_,_,_].  For every line, the tiles split into consecutive groups of
    one tile or of two equal tiles, each group gives one tile of the result
    (the tile itself, or the double of the two equal ones), and the score
    grows by the sum of the doubled tiles: no value is doubled twice. *)
Theorem slideAndCombine_merges_once :
  (∀ st : State,
     (slideAndCombine [Some 2; Some 2; Some 2; Some 2] st).1
       = [Some 4; Some 4; None; None]
     ∧ score (slideAndCombine [Some 2; Some 2; Some 2; Some 2] st).2
       = score st + 8
     ∧ (slideAndCombine [Some 2; Some 2; Some 2; Some 2] st).1
       ≠ [Some 8; None; None; None])
  ∧ (∀ (line : list cell) (st : State),
       ∃ groups : list (list Z),
         tiles line = concat groups
         ∧ Forall (λ g, ∃ a : Z, g = [a] ∨ g = [a; a]) groups
         ∧ (slideAndCombine line st).1
           = padToSize (map (λ g, Some (sumZ g)) groups)
         ∧ score (slideAndCombine line st).2
           = score st + sumZ (map sumZ (pairsOf groups))).
Proof.
  split.
  - intros st. rewrite slideAndCombine_eq. cbn [fst snd].
    rewrite foldl_recordMerge_score. repeat split; done.
  - intros line st. exists (groupsOf (tiles line)).
    rewrite slideAndCombine_eq. cbn [fst snd].
    split; [by rewrite groupsOf_concat|].
    split; [apply groupsOf_shape|].
    split.
    + by rewrite mergeTiles_groups, map_map.
    + by rewrite foldl_recordMerge_score, mergeResults_groups.
Qed.

(** C2, as stated, fails: the second application is not the identity on the
    result of the first.  [2,2,2,2] gives [4,4,_,_], and applying
    [slideAndCombine] to that gives [8,_,_,_]. *)
Lemma slideAndCombine_not_idempotent :
  let first := slideAndCombine [Some 2; Some 2; Some 2; Some 2] exampleState in
  first.1 = [Some 4; Some 4; None; None]
  ∧ (slideAndCombine first.1 first.2).1 = [Some 8; None; None; None]
  ∧ (slideAndCombine first.1 first.2).1 ≠ first.1.
Proof. vm_compute. repeat split; congruence. Qed.

(** C2, amended.  Applying [slideAndCombine] to the result of a first
    application returns that result, and leaves the globals as they are,
    exactly when the result has no two equal tiles side by side; when it
    has, the second application returns a different line. *)
Theorem slideAndCombine_twice (line : list cell) (st : State) :
  let first := slideAndCombine line st in
  (equalNeighbours first.1 = false
     ↔ slideAndCombine first.1 first.2 = first)
  ∧ (equalNeighbours first.1 = true
     ↔ (slideAndCombine first.1 first.2).1 ≠ first.1).
Proof.
  cbv zeta. rewrite (slideAndCombine_eq line st). cbn [fst snd].
  set (vs := mergeTiles (tiles line)).
  set (st1 := foldl recordMerge st (mergeResults (tiles line))).
  rewrite slideAndCombine_eq, tiles_padToSize. cbn [fst].
  assert (Hno : equalNeighbours (padToSize (map Some vs)) = false →
                mergeTiles vs = vs ∧ mergeResults vs = []).
  { apply sweep_without_equalNeighbours. }
  assert (Hyes : equalNeighbours (padToSize (map Some vs)) = true →
                 padToSize (map Some (mergeTiles vs))
                 ≠ padToSize (map Some vs)).
  { intros Heq%sweep_with_equalNeighbours Hsame.
    apply (f_equal tiles) in Hsame. rewrite !tiles_padToSize in Hsame.
    rewrite Hsame in Heq. lia. }
  split; split.
  - intros [-> ->]%Hno. done.
  - intros Hsame. destruct (equalNeighbours _) eqn:Heq; [|done].
    exfalso. apply (Hyes eq_refl). congruence.
  - apply Hyes.
  - intros Hdiff. destruct (equalNeighbours _) eqn:Heq; [done|].
    exfalso. apply Hdiff. destruct (Hno eq_refl) as [-> _]. done.
Qed.

(** The amended C2 on [2,4,_,2] (stable: it gives [2,4,2,_]) and on
    [2,2,2,2] (not stable). *)
Lemma slideAndCombine_twice_witness :
  slideAndCombine
    (slideAndCombine [Some 2; Some 4; None; Some 2] exampleState).1
    (slideAndCombine [Some 2; Some 4; None; Some 2] exampleState).2
  = slideAndCombine [Some 2; Some 4; None; Some 2] exampleState
  ∧ (slideAndCombine
       (slideAndCombine [Some 2; Some 2; Some 2; Some 2] exampleState).1
       (slideAndCombine [Some 2; Some 2; Some 2; Some 2] exampleState).2).1
    ≠ (slideAndCombine [Some 2; Some 2; Some 2; Some 2] exampleState).1.
Proof.
  split.
  - apply (slideAndCombine_twice [Some 2; Some 4; None; Some 2] exampleState).
    reflexivity.
  - apply (slideAndCombine_twice [Some 2; Some 2; Some 2; Some 2]
             exampleState).
    reflexivity.
Defined.

(** ** What the move functions leave alone *)

Section Frame.

Lemma moveFrame_refl st : moveFrame st st.
Proof. by repeat split. Qed.

Lemma moveFrame_trans st1 st2 st3 :
  moveFrame st1 st2 → moveFrame st2 st3 → moveFrame st1 st3.
Proof.
  unfold moveFrame. intros H12 H23.
  destruct H12 as (?&?&?&?&?&?&?&?&?), H23 as (?&?&?&?&?&?&?&?&?).
  repeat split; try congruence. auto.
Qed.

Lemma moveFrame_recordMerge st v : moveFrame st (recordMerge st v).
Proof.
  unfold recordMerge. cbv zeta. rewrite showMessage_YouWin.
  destruct ((v =? 2048) && negb _); by repeat split.
Qed.

Lemma moveFrame_foldl_recordMerge rs st :
  moveFrame st (foldl recordMerge st rs).
Proof.
  revert st. induction rs as [|v rs IH]; intros st; simpl.
  - apply moveFrame_refl.
  - eapply moveFrame_trans; [apply moveFrame_recordMerge | apply IH].
Qed.

Lemma moveFrame_slideAndCombine line st :
  moveFrame st (slideAndCombine line st).2.
Proof. rewrite slideAndCombine_eq. apply moveFrame_foldl_recordMerge. Qed.

Lemma board_slideAndCombine line st :
  board (slideAndCombine line st).2 = board st.
Proof.
  rewrite slideAndCombine_eq. cbn [snd].
  generalize (mergeResults (tiles line)). intros rs. revert st.
  induction rs as [|v rs IH]; intros st; simpl; [done|].
  rewrite IH. unfold recordMerge. cbv zeta. rewrite showMessage_YouWin.
  by destruct (_ && _).
Qed.

Lemma moveFrame_set_board st b :
  length b = length (board st) → moveFrame st (set_board b st).
Proof. intros Hb. by repeat split. Qed.

(** A loop over rows or columns keeps what each round keeps. *)
Lemma forEach_moveFrame body idx changed st changed' st' :
  (∀ i ch s ch' s', body i ch s = Some (ch', s') → moveFrame s s') →
  forEach body idx changed st = Some (changed', st') →
  moveFrame st st'.
Proof.
  intros Hbody. revert changed st.
  induction idx as [|i idx IH]; intros changed st Hrun; simpl in Hrun.
  - injection Hrun as _ <-. apply moveFrame_refl.
  - destruct (body i changed st) as [[ch1 s1]|] eqn:Hb; [|done].
    simpl in Hrun. eapply moveFrame_trans; [by eapply Hbody | by eapply IH].
Qed.

(** A loop that ends with [changed = false] began with it, and every
    round left the globals as they were. *)
Lemma forEach_unchanged body idx changed st st' :
  (∀ i ch s s', body i ch s = Some (false, s') → ch = false ∧ s' = s) →
  forEach body idx changed st = Some (false, st') →
  changed = false ∧ st' = st.
Proof.
  intros Hbody. revert changed st.
  induction idx as [|i idx IH]; intros changed st Hrun; simpl in Hrun.
  - by injection Hrun as -> ->.
  - destruct (body i changed st) as [[ch1 s1]|] eqn:Hb; [|done].
    simpl in Hrun. destruct (IH _ _ Hrun) as [-> ->].
    by apply Hbody in Hb.
Qed.

Lemma tiles_count_prefix (a b : list cell) :
  arraysEqual a b = true → (length (tiles a) ≤ length (tiles b))%nat.
Proof.
  intros [b2 ->]%arraysEqual_prefix. rewrite tiles_app, length_app. lia.
Qed.

Lemma tiles_count_reverse (a : list cell) :
  length (tiles (reverse a)) = length (tiles a).
Proof. by rewrite tiles_reverse, length_reverse. Qed.

Lemma moveLeftRow_frame r ch s ch' s' :
  moveLeftRow r ch s = Some (ch', s') → moveFrame s s'.
Proof.
  unfold moveLeftRow. destruct (board s !! r) as [row|]; [|done]. simpl.
  pose proof (moveFrame_slideAndCombine row s) as Hf.
  pose proof (board_slideAndCombine row s) as Hb.
  destruct (slideAndCombine row s) as [newRow st1]. cbn [snd] in Hf, Hb.
  destruct (arraysEqual row newRow); intros [= <- <-]; [done|].
  eapply moveFrame_trans; [done|].
  apply moveFrame_set_board. apply length_insert.
Qed.

Lemma moveLeftRow_unchanged r ch s s' :
  moveLeftRow r ch s = Some (false, s') → ch = false ∧ s' = s.
Proof.
  unfold moveLeftRow. destruct (board s !! r) as [row|]; [|done]. simpl.
  pose proof (slideAndCombine_same_count row s) as Hsame.
  destruct (slideAndCombine row s) as [newRow st1]. cbn [fst snd] in Hsame.
  destruct (arraysEqual row newRow) eqn:Heq; intros [= -> <-].
  split; [done|]. by apply Hsame, tiles_count_prefix.
Qed.

Lemma moveRightRow_frame r ch s ch' s' :
  moveRightRow r ch s = Some (ch', s') → moveFrame s s'.
Proof.
  unfold moveRightRow. destruct (board s !! r) as [row|]; [|done]. simpl.
  pose proof (moveFrame_slideAndCombine (reverse row) s) as Hf.
  pose proof (board_slideAndCombine (reverse row) s) as Hb.
  destruct (slideAndCombine (reverse row) s) as [newRow st1].
  cbn [snd] in Hf, Hb.
  destruct (arraysEqual row (reverse newRow)); intros [= <- <-]; [done|].
  eapply moveFrame_trans; [done|].
  apply moveFrame_set_board. apply length_insert.
Qed.

Lemma moveRightRow_unchanged r ch s s' :
  moveRightRow r ch s = Some (false, s') → ch = false ∧ s' = s.
Proof.
  unfold moveRightRow. destruct (board s !! r) as [row|]; [|done]. simpl.
  pose proof (slideAndCombine_same_count (reverse row) s) as Hsame.
  destruct (slideAndCombine (reverse row) s) as [newRow st1].
  cbn [fst snd] in Hsame.
  destruct (arraysEqual row (reverse newRow)) eqn:Heq; intros [= -> <-].
  split; [done|]. apply Hsame.
  apply tiles_count_prefix in Heq.
  by rewrite !tiles_count_reverse in *.
Qed.

Lemma setCell_length r c v b : length (setCell r c v b) = length b.
Proof. unfold setCell. apply length_alter. Qed.

Lemma writeColumn_length c nc rs ch b ch' b' :
  writeColumn c nc rs ch b = Some (ch', b') → length b' = length b.
Proof.
  revert ch b. induction rs as [|r rs IH]; intros ch b; simpl.
  { by intros [= _ <-]. }
  destruct (cellAt b r c) as [old|]; [|done]. simpl.
  destruct (nc !! r) as [new|]; [|done]. simpl.
  destruct (decide (old = new)); intros Hw; apply IH in Hw; [done|].
  by rewrite Hw, setCell_length.
Qed.

Lemma writeColumn_changed c nc rs b ch' b' :
  writeColumn c nc rs true b = Some (ch', b') → ch' = true.
Proof.
  revert b. induction rs as [|r rs IH]; intros b; simpl.
  { by intros [= <- _]. }
  destruct (cellAt b r c) as [old|]; [|done]. simpl.
  destruct (nc !! r) as [new|]; [|done]. simpl.
  destruct (decide (old = new)); apply IH.
Qed.

(** A column written back without any change is the one that was read. *)
Lemma writeColumn_unchanged c nc rs ch b b' :
  writeColumn c nc rs ch b = Some (false, b') →
  ch = false ∧ b' = b
  ∧ Forall (λ r, ∃ x, cellAt b r c = Some x ∧ nc !! r = Some x) rs.
Proof.
  revert ch b. induction rs as [|r rs IH]; intros ch b; simpl.
  { by intros [= -> <-]. }
  destruct (cellAt b r c) as [old|] eqn:Hold; [|done]. simpl.
  destruct (nc !! r) as [new|] eqn:Hnew; [|done]. simpl.
  destruct (decide (old = new)) as [->|Hne]; intros Hw.
  - destruct (IH _ _ Hw) as (-> & -> & Hall). repeat split; [].
    constructor; [by exists new | done].
  - by apply writeColumn_changed in Hw.
Qed.

Lemma column_unchanged b c column nc ch b' :
  readColumn b c indices = Some column →
  writeColumn c nc indices ch b = Some (false, b') →
  ch = false ∧ b' = b ∧ arraysEqual column nc = true.
Proof.
  intros Hread (-> & -> & Hall)%writeColumn_unchanged.
  split; [done|]. split; [done|].
  unfold indices, SIZE in *. cbn [seq] in *.
  repeat match goal with
         | H : Forall _ (_ :: _) |- _ =>
             apply Forall_cons_1 in H; destruct H as [(? & ? & ?) H]
         end.
  cbn [readColumn] in Hread.
  repeat match goal with
         | H : cellAt b _ c = Some _ |- _ => rewrite H in Hread; clear H
         end.
  simpl in Hread. injection Hread as <-.
  destruct nc as [|y0 [|y1 [|y2 [|y3 rest]]]]; simplify_eq/=.
  by rewrite !decide_True.
Qed.

Lemma moveUpColumn_frame c ch s ch' s' :
  moveUpColumn c ch s = Some (ch', s') → moveFrame s s'.
Proof.
  unfold moveUpColumn.
  destruct (readColumn (board s) c indices) as [column|]; [|done].
  cbn [mbind option_bind].
  pose proof (moveFrame_slideAndCombine column s) as Hf.
  pose proof (board_slideAndCombine column s) as Hb.
  destruct (slideAndCombine column s) as [nc st1]. cbn [snd] in Hf, Hb.
  destruct (writeColumn c nc indices ch (board st1)) as [[ch1 b1]|] eqn:Hw;
    [|done].
  cbn [mbind option_bind]. intros [= <- <-]. eapply moveFrame_trans; [done|].
  apply moveFrame_set_board. by apply writeColumn_length in Hw.
Qed.

Lemma set_board_same st : set_board (board st) st = st.
Proof. by destruct st. Qed.

Lemma moveUpColumn_unchanged c ch s s' :
  moveUpColumn c ch s = Some (false, s') → ch = false ∧ s' = s.
Proof.
  unfold moveUpColumn.
  destruct (readColumn (board s) c indices) as [column|] eqn:Hr; [|done].
  cbn [mbind option_bind].
  pose proof (slideAndCombine_same_count column s) as Hsame.
  pose proof (board_slideAndCombine column s) as Hb.
  destruct (slideAndCombine column s) as [nc st1]. cbn [fst snd] in Hsame, Hb.
  destruct (writeColumn c nc indices ch (board st1)) as [[ch1 b1]|] eqn:Hw;
    [|done].
  cbn [mbind option_bind]. intros [= -> <-]. rewrite Hb in Hw.
  destruct (column_unchanged _ _ _ _ _ _ Hr Hw) as (-> & -> & Heq).
  split; [done|].
  rewrite (Hsame (tiles_count_prefix _ _ Heq)). apply set_board_same.
Qed.

Lemma moveDownColumn_frame c ch s ch' s' :
  moveDownColumn c ch s = Some (ch', s') → moveFrame s s'.
Proof.
  unfold moveDownColumn.
  destruct (readColumn (board s) c indices) as [column|]; [|done].
  cbn [mbind option_bind].
  pose proof (moveFrame_slideAndCombine (reverse column) s) as Hf.
  pose proof (board_slideAndCombine (reverse column) s) as Hb.
  destruct (slideAndCombine (reverse column) s) as [nc st1].
  cbn [snd] in Hf, Hb.
  destruct (writeColumn c (reverse nc) indices ch (board st1))
    as [[ch1 b1]|] eqn:Hw; [|done].
  cbn [mbind option_bind]. intros [= <- <-]. eapply moveFrame_trans; [done|].
  apply moveFrame_set_board. by apply writeColumn_length in Hw.
Qed.

Lemma moveDownColumn_unchanged c ch s s' :
  moveDownColumn c ch s = Some (false, s') → ch = false ∧ s' = s.
Proof.
  unfold moveDownColumn.
  destruct (readColumn (board s) c indices) as [column|] eqn:Hr; [|done].
  cbn [mbind option_bind].
  pose proof (slideAndCombine_same_count (reverse column) s) as Hsame.
  pose proof (board_slideAndCombine (reverse column) s) as Hb.
  destruct (slideAndCombine (reverse column) s) as [nc st1].
  cbn [fst snd] in Hsame, Hb.
  destruct (writeColumn c (reverse nc) indices ch (board st1))
    as [[ch1 b1]|] eqn:Hw; [|done].
  cbn [mbind option_bind]. intros [= -> <-]. rewrite Hb in Hw.
  destruct (column_unchanged _ _ _ _ _ _ Hr Hw) as (-> & -> & Heq).
  split; [done|].
  apply tiles_count_prefix in Heq. rewrite tiles_count_reverse in Heq.
  rewrite Hsame by (by rewrite tiles_count_reverse).
  apply set_board_same.
Qed.

Lemma dispatchKey_frame k st moved st' :
  dispatchKey k st = Some (moved, st') → moveFrame st st'.
Proof.
  destruct k; simpl.
  - apply forEach_moveFrame, moveLeftRow_frame.
  - apply forEach_moveFrame, moveRightRow_frame.
  - apply forEach_moveFrame, moveUpColumn_frame.
  - apply forEach_moveFrame, moveDownColumn_frame.
  - intros [= _ <-]. apply moveFrame_refl.
Qed.

Lemma dispatchKey_unchanged k st st' :
  dispatchKey k st = Some (false, st') → st' = st.
Proof.
  destruct k; simpl; intros Hm.
  - by eapply forEach_unchanged, Hm; apply moveLeftRow_unchanged.
  - by eapply forEach_unchanged, Hm; apply moveRightRow_unchanged.
  - by eapply forEach_unchanged, Hm; apply moveUpColumn_unchanged.
  - by eapply forEach_unchanged, Hm; apply moveDownColumn_unchanged.
  - by injection Hm.
Qed.

Lemma dispatchSwipe_frame dx dy st moved st' :
  dispatchSwipe dx dy st = Some (moved, st') → moveFrame st st'.
Proof.
  unfold dispatchSwipe. repeat case_decide.
  - apply (dispatchKey_frame ArrowRight).
  - apply (dispatchKey_frame ArrowLeft).
  - apply (dispatchKey_frame ArrowDown).
  - apply (dispatchKey_frame ArrowUp).
Qed.

Lemma dispatchSwipe_unchanged dx dy st st' :
  dispatchSwipe dx dy st = Some (false, st') → st' = st.
Proof.
  unfold dispatchSwipe. repeat case_decide.
  - apply (dispatchKey_unchanged ArrowRight).
  - apply (dispatchKey_unchanged ArrowLeft).
  - apply (dispatchKey_unchanged ArrowDown).
  - apply (dispatchKey_unchanged ArrowUp).
Qed.

End Frame.

(** ** A move that changes nothing *)

(** C3. When the move function called for the key returns [false] (no
    cell slid, no merge), [handleKey] returns with every global as it was:
    the board, the score and the history stack are unchanged, no snapshot
    is pushed, no tile is spawned, and [localStorage] is not written (its
    items and its count of calls are the same). *)
Theorem handleKey_no_change (k : Key) (rnd : Rnd) (st st1 : State) :
  dispatchKey k st = Some (false, st1) →
  st1 = st ∧ handleKey k rnd st = Some st.
Proof.
  intros Hm. pose proof (dispatchKey_unchanged _ _ _ Hm) as ->.
  split; [done|]. unfold handleKey.
  destruct (messageShown st); [done|]. by rewrite Hm.
Qed.

Lemma handleKey_no_change_witness :
  dispatchKey ArrowLeft packedState = Some (false, packedState)
  ∧ handleKey ArrowLeft (mkRnd 5 true) packedState = Some packedState.
Proof.
  split; [reflexivity|].
  apply (handleKey_no_change ArrowLeft (mkRnd 5 true) packedState packedState).
  reflexivity.
Defined.

(** The same for a swipe. *)
Lemma handleTouchEnd_no_change dx dy rnd st st1 :
  dispatchSwipe dx dy st = Some (false, st1) →
  handleTouchEnd dx dy rnd st = Some st.
Proof.
  intros Hm. pose proof (dispatchSwipe_unchanged _ _ _ _ Hm) as ->.
  unfold handleTouchEnd.
  destruct (messageShown st); [done|]. case_decide; [|done]. by rewrite Hm.
Qed.

(** ** Saving and resuming *)

Section Persistence.

Lemma cellOfJson_jsonOfCell x : cellOfJson (jsonOfCell x) = Some x.
Proof. by destruct x. Qed.

Lemma cellsOfJson_map row : cellsOfJson (map jsonOfCell row) = Some row.
Proof.
  induction row as [|x row IH]; [done|].
  cbn [map cellsOfJson]. by rewrite cellOfJson_jsonOfCell, IH.
Qed.

Lemma boardOfJson_map b :
  boardOfJson (map (λ row, JArr (map jsonOfCell row)) b) = Some b.
Proof.
  induction b as [|row b IH]; [done|].
  cbn [map boardOfJson]. by rewrite cellsOfJson_map, IH.
Qed.

Lemma snapshotOfJson_jsonOfSnapshot item :
  snapshotOfJson (jsonOfSnapshot item) = Some item.
Proof.
  destruct item as [b sc tr timed]. unfold snapshotOfJson, jsonOfSnapshot.
  cbn -[boardOfJson cellOfJson jsonOfCell].
  unfold jsonOfBoard. rewrite boardOfJson_map. cbn -[cellOfJson jsonOfCell].
  by rewrite cellOfJson_jsonOfCell.
Qed.

Lemma historyOfJson_map h :
  historyOfJson (map jsonOfSnapshot h) = Some h.
Proof.
  induction h as [|item h IH]; [done|].
  cbn [map historyOfJson]. by rewrite snapshotOfJson_jsonOfSnapshot, IH.
Qed.

(** The properties of the object [saveGameState] writes. *)
Lemma getProp_jsonOfState s :
  getProp "board" (jsonOfState s) = Some (Some (jsonOfBoard (board s)))
  ∧ getProp "score" (jsonOfState s) = Some (Some (JNum (score s)))
  ∧ getProp "bestScore" (jsonOfState s) = Some (Some (JNum (bestScore s)))
  ∧ getProp "isTimedGame" (jsonOfState s)
    = Some (Some (JBool (isTimedGame s)))
  ∧ getProp "timeRemaining" (jsonOfState s)
    = Some (Some (JNum (timeRemaining s)))
  ∧ getProp "won" (jsonOfState s) = Some (Some (JBool (won s)))
  ∧ getProp "historyStack" (jsonOfState s)
    = Some (Some (JArr (map jsonOfSnapshot (historyStack s))))
  ∧ getProp "undosRemaining" (jsonOfState s)
    = Some (Some (JNum (undosRemaining s))).
Proof. repeat split. Qed.

Lemma restored_assignments st s :
  set_undosRemaining (undosRemaining s)
    (set_historyStack (historyStack s)
       (set_won (won s)
          (set_timeRemaining (timeRemaining s)
             (set_isTimedGame (isTimedGame s)
                (set_bestScore (bestScore s)
                   (set_score (score s) (set_board (board s) st)))))))
  = restored st s.
Proof. reflexivity. Qed.

(** [resumeGame] on what [saveGameState] stored for [s]. *)
Lemma resumeGame_stored st s :
  gameStateItem (storage st) = Some (jsonOfState s) →
  resumeGame st = Some (resumed st s).
Proof.
  intros Hitem. unfold resumeGame. rewrite Hitem.
  destruct (getProp_jsonOfState s)
    as (-> & -> & -> & -> & -> & -> & -> & ->).
  cbn [mbind option_bind]. unfold jsonOfBoard at 1.
  rewrite boardOfJson_map. cbn [mbind option_bind].
  rewrite historyOfJson_map. cbn [mbind option_bind].
  cbn [numberOr truthy]. cbv zeta.
  change (bestScore (set_score (score s) (set_board (board s) st)))
    with (bestScore st).
  rewrite restored_assignments.
  unfold resumed, finishResume. cbv zeta.
  by destruct (renderBoard (restored st s)).
Qed.

(** What [resumeGame] restores of the stored state. *)
Lemma resumed_fields st s :
  board (resumed st s) = board s
  ∧ score (resumed st s) = score s
  ∧ historyStack (resumed st s) = historyStack s
  ∧ undosRemaining (resumed st s) = undosRemaining s
  ∧ won (resumed st s) = won s
  ∧ isTimedGame (resumed st s) = isTimedGame s
  ∧ timeRemaining (resumed st s) = timeRemaining s
  ∧ gameStateItem (storage (resumed st s)) = gameStateItem (storage st).
Proof.
  unfold resumed, finishResume. cbv zeta. destruct (renderBoard _); [|done].
  unfold hideMessage, updateScoreDisplay.
  case_decide; cbn; destruct (isTimedGame s) eqn:Ht; cbn; by rewrite ?Ht.
Qed.

End Persistence.

(** C8. Saving a game and resuming it gives back the same game, whatever
    the globals hold when [resumeGame] runs (after a reload of the page
    they are those of the declarations): from the stored record alone
    [resumeGame] brings back the board, the score, the history stack, the
    undo counter, the win flag, the timed flag and the remaining time of
    the state that was saved. *)
Theorem save_then_resume (st st0 : State) :
  gameStateItem (storage st0) = gameStateItem (storage (saveGameState st)) →
  ∃ st', resumeGame st0 = Some st'
    ∧ board st' = board st
    ∧ score st' = score st
    ∧ historyStack st' = historyStack st
    ∧ undosRemaining st' = undosRemaining st
    ∧ won st' = won st
    ∧ isTimedGame st' = isTimedGame st
    ∧ timeRemaining st' = timeRemaining st.
Proof.
  intros Hstored. exists (resumed st0 st). split.
  - apply resumeGame_stored. by rewrite Hstored.
  - pose proof (resumed_fields st0 st) as H. tauto.
Qed.

(** C8 on a game three moves in, saved, with the page loaded again before
    the game is resumed. *)
Lemma save_then_resume_witness :
  ∃ st', resumeGame
           (pageLoad false (storage (saveGameState (afterMoves 3))))
         = Some st'
    ∧ board st' = board (afterMoves 3)
    ∧ score st' = score (afterMoves 3)
    ∧ historyStack st' = historyStack (afterMoves 3)
    ∧ undosRemaining st' = undosRemaining (afterMoves 3)
    ∧ won st' = won (afterMoves 3)
    ∧ isTimedGame st' = isTimedGame (afterMoves 3)
    ∧ timeRemaining st' = timeRemaining (afterMoves 3).
Proof.
  apply (save_then_resume (afterMoves 3)
           (pageLoad false (storage (saveGameState (afterMoves 3))))).
  vm_compute. reflexivity.
Defined.

(** ** Boards with all their cells *)

Section WellFormed.

Lemma wfBoard_createEmptyBoard : wfBoard createEmptyBoard.
Proof. split; [done|]. by repeat constructor. Qed.

Lemma cellAt_wf b r c :
  wfBoard b → (r < SIZE)%nat → (c < SIZE)%nat → is_Some (cellAt b r c).
Proof.
  intros [Hlen Hrows] Hr Hc. unfold cellAt.
  destruct (lookup_lt_is_Some_2 b r) as [row Hrow]; [lia|].
  rewrite Hrow. simpl. apply lookup_lt_is_Some_2.
  by rewrite (Forall_lookup_1 _ _ _ _ Hrows Hrow).
Qed.

Lemma wfBoard_setCell r c v b : wfBoard b → wfBoard (setCell r c v b).
Proof.
  intros [Hlen Hrows]. split.
  - by rewrite setCell_length.
  - unfold setCell. apply Forall_alter; [done|].
    intros row _ Hrow. by rewrite length_insert.
Qed.

Lemma wfBoard_insert_row r row b :
  wfBoard b → length row = SIZE → wfBoard (<[r := row]> b).
Proof.
  intros [Hlen Hrows] Hrow. split.
  - by rewrite length_insert.
  - by apply Forall_insert.
Qed.

Lemma positions_valid : Forall validPosition positions.
Proof. repeat constructor. Qed.

Lemma emptyCellsIn_wf b ps :
  wfBoard b → Forall validPosition ps →
  ∃ l, emptyCellsIn b ps = Some l ∧ Forall validPosition l.
Proof.
  intros Hwf. induction 1 as [|[r c] ps [Hr Hc] Hps (l & Hl & Hvalid)].
  { by exists []. }
  destruct (cellAt_wf b r c Hwf Hr Hc) as [x Hx].
  cbn [emptyCellsIn]. rewrite Hx, Hl. cbn [mbind option_bind].
  destruct (notNull x); eexists; (split; [done|]); auto.
  by constructor.
Qed.

(** [spawnTile] on a board with all its cells: it returns, and only the
    board can differ. *)
Lemma spawnTile_wf rnd st :
  wfBoard (board st) →
  ∃ b, spawnTile rnd st = Some (set_board b st) ∧ wfBoard b.
Proof.
  intros Hwf. unfold spawnTile.
  destruct (emptyCellsIn_wf (board st) positions Hwf positions_valid)
    as (l & -> & Hvalid).
  cbn [mbind option_bind]. destruct l as [|p l].
  { exists (board st). by rewrite set_board_same. }
  set (cells := p :: l).
  destruct (lookup_lt_is_Some_2 cells (pick rnd `mod` length cells)%nat)
    as [[r c] Hrc].
  { apply Nat.mod_upper_bound. done. }
  rewrite Hrc. cbn [mbind option_bind]. eexists. split; [done|].
  by apply wfBoard_setCell.
Qed.

Lemma spawnTile_inv rnd st st' :
  spawnTile rnd st = Some st' →
  ∃ b, st' = set_board b st ∧ length b = length (board st).
Proof.
  unfold spawnTile.
  destruct (emptyCellsIn (board st) positions) as [l|]; [|done].
  cbn [mbind option_bind]. destruct l as [|p l].
  { intros [= <-]. exists (board st). by rewrite set_board_same. }
  destruct ((p :: l) !! _) as [[r c]|]; [|done].
  cbn [mbind option_bind]. intros [= <-]. eexists. split; [done|].
  apply setCell_length.
Qed.

Lemma renderBoard_wf st : wfBoard (board st) → renderBoard st = Some ().
Proof.
  intros [Hlen _]. unfold renderBoard. rewrite decide_True; [done | lia].
Qed.

Lemma initGame_total rnd1 rnd2 st :
  ∃ b, wfBoard b ∧
    initGame rnd1 rnd2 st
    = Some (set_undosRemaining 3 (set_historyStack []
              (saveGameState (updateScoreDisplay (hideMessage
                 (set_board b (set_won false (set_score 0 st)))))))).
Proof.
  unfold initGame. cbv zeta.
  destruct (spawnTile_wf rnd1
              (set_won false (set_score 0 (set_board createEmptyBoard st)))
              wfBoard_createEmptyBoard) as (b1 & -> & Hb1).
  cbn [mbind option_bind].
  destruct (spawnTile_wf rnd2
              (set_board b1
                 (set_won false (set_score 0 (set_board createEmptyBoard st))))
              Hb1) as (b2 & -> & Hb2).
  cbn [mbind option_bind]. rewrite renderBoard_wf by done.
  cbn [mbind option_bind]. exists b2. split; [done|]. done.
Qed.

(** [initGame] saves the new board with the history stack and the undo
    counter it finds, and resets these two afterwards. *)
Lemma initGame_inv rnd1 rnd2 st st' :
  initGame rnd1 rnd2 st = Some st' →
  ∃ s, st' = set_undosRemaining 3 (set_historyStack [] (saveGameState s))
       ∧ wfBoard (board s) ∧ score s = 0 ∧ won s = false
       ∧ historyStack s = historyStack st
       ∧ undosRemaining s = undosRemaining st
       ∧ isTimedGame s = isTimedGame st.
Proof.
  destruct (initGame_total rnd1 rnd2 st) as (b & Hb & ->). intros [= <-].
  eexists. split; [reflexivity|].
  unfold updateScoreDisplay. case_decide; done.
Qed.

Lemma startGame_inv timed seconds rnd1 rnd2 st0 st :
  startGame timed seconds rnd1 rnd2 st0 = Some st →
  historyStack st = [] ∧ undosRemaining st = 3 ∧ won st = false
  ∧ ∃ s, gameStateItem (storage st) = Some (jsonOfState s)
         ∧ historyStack s = historyStack st0
         ∧ undosRemaining s = undosRemaining st0
         ∧ won s = false.
Proof.
  unfold startGame. cbv zeta.
  destruct (initGame _ _ _) as [st1|] eqn:Hinit; [|done].
  apply initGame_inv in Hinit as (s & -> & _ & _ & Hw & Hh & Hu & _).
  cbn [mbind option_bind]. intros [= <-].
  assert (Hfields : ∀ st2,
            st2 = set_undosRemaining 3 (set_historyStack [] (saveGameState s)) →
            ∀ st3, (st3 = startTimer seconds st2 ∨ st3 = stopTimer st2) →
            historyStack st3 = [] ∧ undosRemaining st3 = 3
            ∧ won st3 = won s
            ∧ gameStateItem (storage st3) = Some (jsonOfState s)).
  { intros st2 -> st3 [->| ->]; done. }
  edestruct (Hfields _ eq_refl) as (-> & -> & -> & ->);
    [destruct (isTimedGame _); [by left | by right]|].
  repeat split; [done|]. by exists s.
Qed.

End WellFormed.

(** Unfolding the small operations on the globals, and case analysis on
    the tests they make. *)
Ltac unfold_ops :=
  unfold showMessage, clearGameState, stopTimer, startTimer, hideMessage,
    saveGameState, updateScoreDisplay, undone, tick, homeButton,
    keepPlaying.

Ltac split_ifs :=
  repeat match goal with
         | |- context [if ?b then _ else _] => destruct b eqn:?
         | |- context [match ?x with _ => _ end] => destruct x eqn:?
         end.

Section Session.

Lemma sessionEffect_refl st : sessionEffect st st.
Proof. unfold sessionEffect. naive_solver. Qed.

(** The end of a successful move: the snapshot is pushed, a tile may be
    added, the game is saved, and the overlay is shown if the game is
    over. *)
Lemma afterMove_inv snapshot rnd st st' :
  afterMove snapshot rnd st = Some st' →
  ∃ b (over : bool),
    length b = length (board st) ∧
    let saved :=
      saveGameState (updateScoreDisplay (set_board b
        (set_historyStack (pushHistory snapshot (historyStack st)) st))) in
    st' = if over then showMessage GameOver saved else saved.
Proof.
  unfold afterMove. cbv zeta.
  destruct (spawnTile rnd _) as [st2|] eqn:Hspawn; [|done].
  apply spawnTile_inv in Hspawn as (b & -> & Hlen).
  cbn [mbind option_bind]. destruct (renderBoard _); [|done].
  cbn [mbind option_bind]. destruct (isGameOver _) as [over|]; [|done].
  cbn [mbind option_bind]. intros [= <-]. by exists b, over.
Qed.

Lemma handleKey_inv k rnd st st' :
  handleKey k rnd st = Some st' →
  st' = st
  ∨ (messageShown st = false
     ∧ ∃ st1, dispatchKey k st = Some (true, st1)
              ∧ afterMove (takeSnapshot st) rnd st1 = Some st').
Proof.
  unfold handleKey. destruct (messageShown st); [naive_solver|].
  destruct (dispatchKey k st) as [[[] st1]|] eqn:Hm; [| |done].
  - cbn [mbind option_bind]. naive_solver.
  - cbn [mbind option_bind]. intros [= <-]. left.
    by apply dispatchKey_unchanged in Hm.
Qed.

Lemma handleTouchEnd_inv dx dy rnd st st' :
  handleTouchEnd dx dy rnd st = Some st' →
  st' = st
  ∨ (messageShown st = false
     ∧ ∃ st1, dispatchSwipe dx dy st = Some (true, st1)
              ∧ afterMove (takeSnapshot st) rnd st1 = Some st').
Proof.
  unfold handleTouchEnd. destruct (messageShown st); [naive_solver|].
  case_decide; [|naive_solver].
  destruct (dispatchSwipe dx dy st) as [[[] st1]|] eqn:Hm; [| |done].
  - cbn [mbind option_bind]. naive_solver.
  - cbn [mbind option_bind]. intros [= <-]. left.
    by apply dispatchSwipe_unchanged in Hm.
Qed.

Lemma undoMove_inv st st' :
  undoMove st = Some st' →
  (st' = st ∧ (historyStack st = [] ∨ undosRemaining st <= 0))
  ∨ (0 < undosRemaining st
     ∧ ∃ rest lastState,
         historyStack st = rest ++ [lastState]
         ∧ st' = undone lastState rest st).
Proof.
  unfold undoMove.
  destruct (bool_decide (historyStack st = [])) eqn:Hh.
  { apply bool_decide_eq_true in Hh. cbn. naive_solver. }
  destruct (bool_decide (undosRemaining st <= 0)) eqn:Hu.
  { apply bool_decide_eq_true in Hu. cbn. naive_solver. }
  apply bool_decide_eq_false in Hh, Hu. cbn [orb].
  destruct (historyStack st) as [|x h _] eqn:Hst
    using rev_ind; [done|].
  unfold popHistory. rewrite last_snoc, removelast_last.
  cbn [mbind option_bind]. cbv zeta.
  destruct (renderBoard _) eqn:Hr; [|done].
  cbn [mbind option_bind]. intros [= <-]. right. split; [lia|].
  exists h, x. split; [done|]. unfold undone. cbv zeta.
  by destruct (snap_isTimedGame x).
Qed.


Lemma afterMove_effect snapshot rnd st st' :
  afterMove snapshot rnd st = Some st' →
  historyStack st' = pushHistory snapshot (historyStack st)
  ∧ undosRemaining st' = undosRemaining st
  ∧ won st' = won st
  ∧ (gameStateItem (storage st') = None
     ∨ ∃ s, gameStateItem (storage st') = Some (jsonOfState s)
            ∧ won s = won st'
            ∧ historyStack s = historyStack st'
            ∧ undosRemaining s = undosRemaining st').
Proof.
  intros (b & over & _ & ->)%afterMove_inv. cbv zeta.
  destruct over.
  - unfold_ops. cbn. split_ifs; cbn; repeat split; by left.
  - repeat split; try (unfold_ops; split_ifs; done).
    right. eexists. split; [reflexivity|].
    unfold_ops; split_ifs; done.
Qed.

Lemma handleKey_effect k rnd st st' :
  handleKey k rnd st = Some st' → sessionEffect st st'.
Proof.
  intros [->|(_ & st1 & Hm & Ha)]%handleKey_inv.
  { apply sessionEffect_refl. }
  apply dispatchKey_frame in Hm.
  destruct Hm as (_ & Hh & Hu & _ & _ & _ & _ & Hw & _).
  apply afterMove_effect in Ha as (Hh' & Hu' & Hw' & Hs).
  unfold sessionEffect. repeat split.
  - destruct Hs as [Hs|Hs]; [by left | by right; right].
  - rewrite Hw'. exact Hw.
  - right. left. exists (takeSnapshot st). by rewrite Hh', Hh.
  - left. by rewrite Hu', Hu.
Qed.

Lemma handleTouchEnd_effect dx dy rnd st st' :
  handleTouchEnd dx dy rnd st = Some st' → sessionEffect st st'.
Proof.
  intros [->|(_ & st1 & Hm & Ha)]%handleTouchEnd_inv.
  { apply sessionEffect_refl. }
  apply dispatchSwipe_frame in Hm.
  destruct Hm as (_ & Hh & Hu & _ & _ & _ & _ & Hw & _).
  apply afterMove_effect in Ha as (Hh' & Hu' & Hw' & Hs).
  unfold sessionEffect. repeat split.
  - destruct Hs as [Hs|Hs]; [by left | by right; right].
  - rewrite Hw'. exact Hw.
  - right. left. exists (takeSnapshot st). by rewrite Hh', Hh.
  - left. by rewrite Hu', Hu.
Qed.

Lemma undone_fields lastState rest st :
  historyStack (undone lastState rest st) = rest
  ∧ undosRemaining (undone lastState rest st) = undosRemaining st - 1
  ∧ won (undone lastState rest st) = won st
  ∧ board (undone lastState rest st) = snap_board lastState
  ∧ score (undone lastState rest st) = snap_score lastState
  ∧ messageShown (undone lastState rest st) = messageShown st
  ∧ messageText (undone lastState rest st) = messageText st
  ∧ ∃ s, gameStateItem (storage (undone lastState rest st))
         = Some (jsonOfState s)
         ∧ won s = won st
         ∧ historyStack s = rest
         ∧ undosRemaining s = undosRemaining st - 1
         ∧ board s = snap_board lastState
         ∧ score s = snap_score lastState.
Proof.
  unfold undone. cbv zeta.
  repeat split; try (unfold_ops; split_ifs; done).
  eexists. split; [reflexivity|].
  unfold_ops; split_ifs; done.
Qed.

Lemma undoMove_effect st st' :
  undoMove st = Some st' → sessionEffect st st'.
Proof.
  intros [[-> _]|(Hu & rest & lastState & Hh & ->)]%undoMove_inv.
  { apply sessionEffect_refl. }
  destruct (undone_fields lastState rest st)
    as (Hh' & Hu' & Hw' & _ & _ & _ & _ & s & Hs & Hws & Hhs & Hus & _).
  unfold sessionEffect. rewrite Hh', Hu', Hw', Hh, removelast_last.
  repeat split; [| done | by right; right | by right].
  right. right. exists s. by rewrite Hs, Hws, Hhs, Hus.
Qed.

Lemma tick_effect st : sessionEffect st (tick st).
Proof.
  unfold sessionEffect, tick.
  destruct (timerInterval st) as [[]|]; [| |naive_solver].
  - case_decide.
    + unfold_ops. cbn. split_ifs; cbn; naive_solver.
    + cbn. repeat split; [|done|by left|by left].
      right. right. by eexists.
  - case_decide.
    + unfold_ops. cbn. split_ifs; cbn; naive_solver.
    + cbn. naive_solver.
Qed.

Lemma homeButton_effect st : sessionEffect st (homeButton st).
Proof.
  unfold sessionEffect, homeButton. cbv zeta.
  destruct (isTimedGame (saveGameState st));
    (repeat split; [right; right; by exists st | done | by left | by left]).
Qed.

Lemma keepPlaying_effect st : sessionEffect st (keepPlaying st).
Proof.
  unfold sessionEffect, keepPlaying. cbv zeta.
  destruct (_ && _); cbn; naive_solver.
Qed.

End Session.
Section Resume.

Lemma finishResume_fields st8 :
  board (finishResume st8) = board st8
  ∧ score (finishResume st8) = score st8
  ∧ historyStack (finishResume st8) = historyStack st8
  ∧ undosRemaining (finishResume st8) = undosRemaining st8
  ∧ won (finishResume st8) = won st8
  ∧ isTimedGame (finishResume st8) = isTimedGame st8
  ∧ timeRemaining (finishResume st8) = timeRemaining st8
  ∧ gameStateItem (storage (finishResume st8)) = gameStateItem (storage st8).
Proof.
  unfold finishResume. cbv zeta. destruct (renderBoard _); [|done].
  unfold hideMessage, updateScoreDisplay.
  case_decide; cbn; destruct (isTimedGame st8) eqn:Ht; cbn; by rewrite ?Ht.
Qed.

(** What [resumeGame] does with any stored value it can read: the stored
    win flag, undo counter and history replace the globals. *)
Lemma resumeGame_inv st st' :
  resumeGame st = Some st' →
  (gameStateItem (storage st) = None ∧ st' = st)
  ∨ ∃ j pWon pUndos pBest st8,
      gameStateItem (storage st) = Some j
      ∧ getProp "won" j = Some pWon
      ∧ getProp "undosRemaining" j = Some pUndos
      ∧ getProp "bestScore" j = Some pBest
      ∧ won st8 = truthy pWon
      ∧ undosRemaining st8 = numberOr 3 pUndos
      ∧ bestScore st8 = numberOr (bestScore st) pBest
      ∧ storage st8 = storage st
      ∧ st' = finishResume st8.
Proof.
  unfold resumeGame. destruct (gameStateItem (storage st)) as [j|] eqn:Hj;
    [|intros [= <-]; by left].
  destruct (getProp "board" j) as [pBoard|]; [|done]. cbn [mbind option_bind].
  match goal with |- context [mbind _ ?m] =>
    destruct m as [b|] eqn:Hb; [|done] end.
  cbn [mbind option_bind]. cbv zeta.
  destruct (getProp "score" j) as [pScore|]; [|done]. cbn [mbind option_bind].
  destruct (getProp "bestScore" j) as [pBest|] eqn:HpBest; [|done]. cbn [mbind option_bind].
  destruct (getProp "isTimedGame" j) as [pTimed|]; [|done]. cbn [mbind option_bind].
  destruct (getProp "timeRemaining" j) as [pTime|]; [|done]. cbn [mbind option_bind].
  destruct (getProp "won" j) as [pWon|] eqn:HpWon; [|done]. cbn [mbind option_bind].
  destruct (getProp "historyStack" j) as [pHist|]; [|done]. cbn [mbind option_bind].
  match goal with |- context [mbind _ ?m] =>
    destruct m as [h|] eqn:Hh; [|done] end.
  cbn [mbind option_bind].
  destruct (getProp "undosRemaining" j) as [pUndos|] eqn:HpUndos; [|done]. cbn [mbind option_bind].
  match goal with |- context [renderBoard ?s] => set (st8 := s) end.
  intros Hres. right. exists j, pWon, pUndos, pBest, st8.
  repeat (split; [done|]).
  unfold finishResume. cbv zeta in *.
  destruct (renderBoard st8); injection Hres as <-; reflexivity.
Qed.

End Resume.

(** ** The win flag *)

Section Won.

Lemma won_recordMerge st v :
  won (recordMerge st v) = won st || (v =? 2048).
Proof.
  unfold recordMerge. cbv zeta. rewrite showMessage_YouWin.
  destruct (v =? 2048), (won st) eqn:Hw; cbn; by rewrite ?Hw.
Qed.

Lemma won_foldl_recordMerge rs st :
  won (foldl recordMerge st rs) = won st || bool_decide (2048 ∈ rs).
Proof.
  revert st. induction rs as [|v rs IH]; intros st; cbn [foldl].
  { rewrite bool_decide_eq_false_2; [by rewrite orb_false_r|].
    apply not_elem_of_nil. }
  rewrite IH, won_recordMerge, <- orb_assoc. f_equal.
  destruct (Z.eqb_spec v 2048) as [->|Hne]; cbn.
  - rewrite bool_decide_eq_true_2; [done|]. apply elem_of_cons. by left.
  - apply bool_decide_ext. rewrite elem_of_cons.
    split; [by right | by intros [?|?]].
Qed.

Lemma sessionEffect_wonKept st st' :
  sessionEffect st st' → wonKept st → wonKept st'.
Proof.
  intros ([Hnone|[(Hsame & Hw & _)|(s & Hs & Hw & _)]] & _) Hkept j pWon Hj Hp.
  - congruence.
  - rewrite Hw. apply (Hkept j pWon); congruence.
  - rewrite Hs in Hj. injection Hj as <-. injection Hp as <-.
    cbn. congruence.
Qed.

Lemma resumeGame_won st st' :
  resumeGame st = Some st' →
  wonKept st' ∧ (wonKept st → won st = true → won st' = true).
Proof.
  intros [[Hnone ->]|(j & pWon & pUndos & pBest & st8 & Hj & Hp & _ & _ &
                      Hw & _ & _ & Hst & ->)]%resumeGame_inv.
  { split; [|done]. intros j pWon Hj. congruence. }
  destruct (finishResume_fields st8) as (_ & _ & _ & _ & Hw' & _ & _ & Hitem).
  split.
  - intros j' pWon' Hj' Hp'. rewrite Hitem, Hst, Hj in Hj'.
    injection Hj' as <-. rewrite Hp in Hp'. injection Hp' as <-.
    by rewrite Hw', Hw.
  - intros Hkept Hwon. rewrite Hw', Hw. by apply (Hkept j pWon).
Qed.

Lemma startGame_won timed seconds rnd1 rnd2 st0 st :
  startGame timed seconds rnd1 rnd2 st0 = Some st → won st = false.
Proof. by intros (_ & _ & ? & _)%startGame_inv. Qed.

Lemma sessionStart_wonKept st0 st : sessionStart st0 st → wonKept st.
Proof.
  intros [(timed & seconds & rnd1 & rnd2 & Hs)|[_ Hr]].
  - apply startGame_won in Hs. intros j pWon _ _. congruence.
  - by apply resumeGame_won in Hr as [? _].
Qed.

Lemma sessionStep_won ev st st' :
  sessionEvent ev = true → step ev st = Some st' →
  wonKept st → wonKept st' ∧ (won st = true → won st' = true).
Proof.
  intros Hev Hstep Hkept.
  assert (Heff : sessionEffect st st' →
                 wonKept st' ∧ (won st = true → won st' = true)).
  { intros Heff. split; [by eapply sessionEffect_wonKept|].
    by destruct Heff as (_ & ? & _). }
  destruct ev; try done; cbn [step] in Hstep.
  - by apply Heff, (handleKey_effect k rnd).
  - by apply Heff, (handleTouchEnd_effect dx dy rnd).
  - by apply Heff, undoMove_effect.
  - injection Hstep as <-. apply Heff, tick_effect.
  - injection Hstep as <-. apply Heff, homeButton_effect.
  - injection Hstep as <-. apply Heff, keepPlaying_effect.
  - apply resumeGame_won in Hstep as [? ?]. auto.
Qed.

Lemma sessionRun_won evs st st' :
  forallb sessionEvent evs = true → run evs st = Some st' →
  wonKept st → wonKept st' ∧ (won st = true → won st' = true).
Proof.
  revert st. induction evs as [|ev evs IH]; intros st Hall Hrun Hkept.
  { injection Hrun as <-. done. }
  cbn [forallb] in Hall. apply andb_prop in Hall as [Hev Hall].
  cbn [run] in Hrun. destruct (step ev st) as [st1|] eqn:Hstep; [|done].
  cbn [mbind option_bind] in Hrun.
  destruct (sessionStep_won _ _ _ Hev Hstep Hkept) as [Hk1 Hw1].
  destruct (IH _ Hall Hrun Hk1) as [Hk2 Hw2]. auto.
Qed.

End Won.

(** C5. The win flag is set by the merge that produces 2048 and by nothing
    else in [slideAndCombine]; an undo leaves it as it is; and in a game
    begun by [startGame] or [resumeGame], once the flag is set, no later
    move, swipe, undo, timer tick, click on the home or keep-playing
    button or resume of this game resets it. *)
Theorem won_is_sticky :
  (∀ line st,
     won (slideAndCombine line st).2
     = won st || bool_decide (2048 ∈ mergeResults (tiles line)))
  ∧ (∀ st st', undoMove st = Some st' → won st' = won st)
  ∧ (∀ st0 st evs1 st1 evs2 st2,
       sessionStart st0 st →
       forallb sessionEvent evs1 = true → run evs1 st = Some st1 →
       forallb sessionEvent evs2 = true → run evs2 st1 = Some st2 →
       won st1 = true → won st2 = true).
Proof.
  split; [|split].
  - intros line st. rewrite slideAndCombine_eq. apply won_foldl_recordMerge.
  - intros st st' [[-> _]|(_ & rest & lastState & _ & ->)]%undoMove_inv;
      [done|].
    by destruct (undone_fields lastState rest st) as (_ & _ & ? & _).
  - intros st0 st evs1 st1 evs2 st2 Hstart Hev1 Hrun1 Hev2 Hrun2.
    apply sessionStart_wonKept in Hstart.
    destruct (sessionRun_won _ _ _ Hev1 Hrun1 Hstart) as [Hk1 _].
    by destruct (sessionRun_won _ _ _ Hev2 Hrun2 Hk1) as [_ ?].
Qed.

(** ** The bounded history and the undo counter *)

Section Invariant.

Lemma pushHistory_room snapshot h :
  (length h < 3)%nat → pushHistory snapshot h = h ++ [snapshot].
Proof.
  intros Hlen. unfold pushHistory. cbv zeta.
  rewrite decide_False; [done|]. rewrite length_app. simpl. lia.
Qed.

Lemma pushHistory_full snapshot h :
  (3 ≤ length h)%nat → pushHistory snapshot h = tail h ++ [snapshot].
Proof.
  intros Hlen. unfold pushHistory. cbv zeta.
  rewrite decide_True by (rewrite length_app; simpl; lia).
  destruct h; [simpl in Hlen; lia | done].
Qed.

Lemma pushHistory_length snapshot h :
  (length h ≤ 3)%nat → (length (pushHistory snapshot h) ≤ 3)%nat.
Proof.
  intros Hlen. destruct (decide (length h < 3)%nat).
  - rewrite pushHistory_room by done. rewrite length_app. simpl. lia.
  - rewrite pushHistory_full by lia. rewrite length_app.
    destruct h; simpl in *; lia.
Qed.

Lemma removelast_length {A} (l : list A) :
  (length (removelast l) ≤ length l)%nat.
Proof.
  destruct l as [|x l _] using rev_ind; [done|].
  rewrite removelast_last, length_app. lia.
Qed.

Lemma sessionEffect_consistent st st' :
  sessionEffect st st' → consistent st → consistent st'.
Proof.
  intros (Hstore & _ & Hhist & Hundo) (Hlen & Hu & Hstored).
  assert (Hlen' : (length (historyStack st') ≤ 3)%nat).
  { destruct Hhist as [->|[[snapshot ->]| ->]]; [done | |].
    - by apply pushHistory_length.
    - pose proof (removelast_length (historyStack st)). lia. }
  assert (Hu' : 0 <= undosRemaining st' <= 3).
  { destruct Hundo as [->|[? ->]]; lia. }
  split; [done|]. split; [done|]. intros j Hj.
  destruct Hstore as [Hnone|[(Hsame & Hw & Hus)|(s & Hs & Hw & Hh & Hus)]].
  - congruence.
  - rewrite Hsame in Hj. destruct (Hstored j Hj) as (s & -> & Hl & Hb & Hws).
    exists s. split; [done|]. unfold storedBy. rewrite Hus, Hw. done.
  - rewrite Hs in Hj. injection Hj as <-. exists s. split; [done|].
    unfold storedBy. rewrite Hh, Hus, Hw. repeat split; (done || lia).
Qed.

Lemma resumeGame_consistent st st' :
  consistent st → resumeGame st = Some st' →
  consistent st' ∧ undosRemaining st' <= undosRemaining st.
Proof.
  intros (Hlen & Hu & Hstored) Hres.
  destruct (gameStateItem (storage st)) as [j|] eqn:Hj.
  - destruct (Hstored j eq_refl) as (s & -> & Hl & Hb & Hws).
    rewrite (resumeGame_stored st s Hj) in Hres. injection Hres as <-.
    destruct (resumed_fields st s)
      as (_ & _ & Hh' & Hu' & Hw' & _ & _ & Hitem).
    split; [|lia]. unfold consistent. rewrite Hh', Hu', Hitem, Hj.
    split; [done|]. split; [lia|]. intros j' [= <-]. exists s.
    split; [done|]. unfold storedBy. rewrite Hu', Hw'.
    repeat split; (done || lia).
  - unfold resumeGame in Hres. rewrite Hj in Hres. injection Hres as <-.
    split; [|lia]. split; [done|]. split; [done|]. intros j. congruence.
Qed.

Lemma startGame_consistent timed seconds rnd1 rnd2 st0 st :
  consistent st0 → startGame timed seconds rnd1 rnd2 st0 = Some st →
  consistent st.
Proof.
  intros (Hlen & Hu & _) (Hh & Hus & Hw & s & Hs & Hhs & Hsu & Hsw)%startGame_inv.
  unfold consistent. rewrite Hh, Hus, Hs. split; [simpl; lia|].
  split; [lia|]. intros j [= <-]. exists s. split; [done|].
  unfold storedBy. rewrite Hhs, Hsu, Hus, Hw. repeat split; (done || lia).
Qed.

Lemma pageLoad_fields overlay stored :
  historyStack (pageLoad overlay stored) = []
  ∧ undosRemaining (pageLoad overlay stored) = 3
  ∧ won (pageLoad overlay stored) = false
  ∧ gameStateItem (storage (pageLoad overlay stored)) = gameStateItem stored.
Proof.
  unfold pageLoad, initStorage. cbv zeta. unfold_ops. split_ifs; done.
Qed.

Lemma pageLoad_consistent overlay st :
  consistent st → consistent (pageLoad overlay (storage st)).
Proof.
  intros (Hlen & Hu & Hstored).
  destruct (pageLoad_fields overlay (storage st)) as (Hh & Hus & Hw & Hitem).
  unfold consistent. rewrite Hh, Hus, Hitem. split; [simpl; lia|].
  split; [lia|]. intros j Hj.
  destruct (Hstored j Hj) as (s & -> & Hl & Hb & Hws).
  exists s. split; [done|]. unfold storedBy. rewrite Hus, Hw.
  repeat split; (done || lia).
Qed.

Lemma step_consistent ev st st' :
  consistent st → step ev st = Some st' → consistent st'.
Proof.
  intros Hc Hstep. destruct ev; cbn [step] in Hstep.
  - eapply sessionEffect_consistent; [by eapply handleKey_effect | done].
  - eapply sessionEffect_consistent; [by eapply handleTouchEnd_effect | done].
  - eapply sessionEffect_consistent; [by eapply undoMove_effect | done].
  - injection Hstep as <-.
    eapply sessionEffect_consistent; [apply tick_effect | done].
  - injection Hstep as <-.
    eapply sessionEffect_consistent; [apply homeButton_effect | done].
  - injection Hstep as <-.
    eapply sessionEffect_consistent; [apply keepPlaying_effect | done].
  - by eapply resumeGame_consistent.
  - by eapply startGame_consistent.
  - injection Hstep as <-. destruct Hc as (Hlen & Hu & _).
    split; [done|]. split; [done|]. intros j. cbn. congruence.
  - injection Hstep as <-. by apply pageLoad_consistent.
Qed.

Lemma reachable_consistent st : reachable st → consistent st.
Proof.
  induction 1 as [overlay|ev st st' _ IH Hstep].
  - destruct (pageLoad_fields overlay emptyStorage) as (Hh & Hus & Hw & Hitem).
    unfold consistent. rewrite Hh, Hus, Hitem. split; [simpl; lia|].
    split; [lia|]. intros j. cbn. congruence.
  - by eapply step_consistent.
Qed.

(** A game in progress never gets undos back. *)
Lemma sessionStep_undos ev st st' :
  consistent st → sessionEvent ev = true → step ev st = Some st' →
  undosRemaining st' <= undosRemaining st.
Proof.
  intros Hc Hev Hstep.
  assert (Heff : sessionEffect st st' →
                 undosRemaining st' <= undosRemaining st).
  { intros (_ & _ & _ & [->|[? ->]]); lia. }
  destruct ev; try done; cbn [step] in Hstep.
  - by apply Heff, (handleKey_effect k rnd).
  - by apply Heff, (handleTouchEnd_effect dx dy rnd).
  - by apply Heff, undoMove_effect.
  - injection Hstep as <-. apply Heff, tick_effect.
  - injection Hstep as <-. apply Heff, homeButton_effect.
  - injection Hstep as <-. apply Heff, keepPlaying_effect.
  - by eapply resumeGame_consistent.
Qed.

End Invariant.

Section Undo.

Lemma lastN_app {A} n (l1 l2 : list A) :
  (n ≤ length l2)%nat → lastN n (l1 ++ l2) = lastN n l2.
Proof.
  intros Hn. unfold lastN. rewrite length_app.
  replace (length l1 + length l2 - n)%nat
    with (length l1 + (length l2 - n))%nat by lia.
  by rewrite drop_app_add.
Qed.

Lemma lastN_all {A} n (l : list A) : (length l ≤ n)%nat → lastN n l = l.
Proof.
  intros Hn. unfold lastN.
  by replace (length l - n)%nat with 0%nat by lia.
Qed.

Lemma lastN_map {A B} (f : A → B) n l : lastN n (map f l) = map f (lastN n l).
Proof. unfold lastN. by rewrite length_map, <- !fmap_drop. Qed.

Lemma pushHistory_lastN snapshot h :
  (length h ≤ 3)%nat → pushHistory snapshot h = lastN 3 (h ++ [snapshot]).
Proof.
  intros Hlen. destruct (decide (length h < 3)%nat).
  - rewrite pushHistory_room by done. rewrite lastN_all; [done|].
    rewrite length_app. simpl. lia.
  - rewrite pushHistory_full by lia.
    destruct h as [|x h]; [simpl in *; lia|]. cbn [tail].
    change ((x :: h) ++ [snapshot]) with ([x] ++ (h ++ [snapshot])).
    rewrite lastN_app by (rewrite length_app; simpl in *; lia).
    rewrite lastN_all; [done|]. rewrite length_app. simpl in *. lia.
Qed.

Lemma lastN_lastN_app {A} n (l1 l2 : list A) :
  lastN n (lastN n l1 ++ l2) = lastN n (l1 ++ l2).
Proof.
  destruct (decide (n ≤ length l2)%nat).
  { by rewrite !lastN_app. }
  destruct (decide (length l1 ≤ n)%nat).
  { by rewrite (lastN_all n l1). }
  unfold lastN. rewrite !length_app, !length_drop.
  rewrite !drop_app_le by (rewrite ?length_drop; lia).
  rewrite drop_drop. do 2 f_equal. lia.
Qed.

(** The history stack after a run of pushes holds the last three of all
    the snapshots. *)
Lemma foldl_pushHistory snaps h :
  (length h ≤ 3)%nat →
  foldl (λ h s, pushHistory s h) h snaps = lastN 3 (h ++ snaps).
Proof.
  revert h. induction snaps as [|s snaps IH]; intros h Hlen; cbn [foldl].
  { rewrite app_nil_r. by rewrite lastN_all. }
  rewrite IH by (by apply pushHistory_length).
  rewrite pushHistory_lastN by done.
  rewrite lastN_lastN_app. by rewrite <- (assoc_L (++)).
Qed.


Lemma forEach_indices_inv body ch st r :
  forEach body indices ch st = Some r →
  ∃ c1 s1 c2 s2 c3 s3,
    body 0%nat ch st = Some (c1, s1) ∧ body 1%nat c1 s1 = Some (c2, s2)
    ∧ body 2%nat c2 s2 = Some (c3, s3) ∧ body 3%nat c3 s3 = Some r.
Proof.
  unfold indices, SIZE. cbn [seq forEach].
  destruct (body 0%nat ch st) as [[c1 s1]|] eqn:H0; [|done].
  cbn [mbind option_bind].
  destruct (body 1%nat c1 s1) as [[c2 s2]|] eqn:H1; [|done].
  cbn [mbind option_bind].
  destruct (body 2%nat c2 s2) as [[c3 s3]|] eqn:H2; [|done].
  cbn [mbind option_bind].
  destruct (body 3%nat c3 s3) as [[c4 s4]|] eqn:H3; [|done].
  cbn [mbind option_bind].
  intros [= <-]. by exists c1, s1, c2, s2, c3, s3.
Qed.

Lemma cellAt_rows b r c x : cellAt b r c = Some x → (r < length b)%nat.
Proof.
  unfold cellAt. destruct (b !! r) as [row|] eqn:Hrow; [|done].
  intros _. by eapply lookup_lt_Some.
Qed.

Lemma readColumn_rows b c column :
  readColumn b c indices = Some column → (SIZE ≤ length b)%nat.
Proof.
  unfold indices, SIZE. cbn [seq readColumn].
  destruct (cellAt b 0 c); [|done]. cbn [mbind option_bind].
  destruct (cellAt b 1 c); [|done]. cbn [mbind option_bind].
  destruct (cellAt b 2 c); [|done]. cbn [mbind option_bind].
  destruct (cellAt b 3 c) eqn:H3; [|done]. intros _.
  apply cellAt_rows in H3. lia.
Qed.

(** A move function that returns has found the SIZE rows of the board. *)
Lemma dispatchKey_rows k st st1 :
  dispatchKey k st = Some (true, st1) → (SIZE ≤ length (board st))%nat.
Proof.
  destruct k; cbn [dispatchKey]; [| | | |done].
  - intros (c1 & s1 & c2 & s2 & c3 & s3 & H0 & H1 & H2 & H3)%forEach_indices_inv.
    apply moveLeftRow_frame in H0, H1, H2.
    destruct H0 as (_&_&_&_&_&_&_&_&L0), H1 as (_&_&_&_&_&_&_&_&L1),
      H2 as (_&_&_&_&_&_&_&_&L2).
    unfold moveLeftRow in H3.
    destruct (board s3 !! 3%nat) eqn:Hrow; [|done].
    apply lookup_lt_Some in Hrow. unfold SIZE. lia.
  - intros (c1 & s1 & c2 & s2 & c3 & s3 & H0 & H1 & H2 & H3)%forEach_indices_inv.
    apply moveRightRow_frame in H0, H1, H2.
    destruct H0 as (_&_&_&_&_&_&_&_&L0), H1 as (_&_&_&_&_&_&_&_&L1),
      H2 as (_&_&_&_&_&_&_&_&L2).
    unfold moveRightRow in H3.
    destruct (board s3 !! 3%nat) eqn:Hrow; [|done].
    apply lookup_lt_Some in Hrow. unfold SIZE. lia.
  - intros (c1 & s1 & _ & _ & _ & _ & H0 & _)%forEach_indices_inv.
    unfold moveUpColumn in H0.
    destruct (readColumn (board st) 0 indices) eqn:Hr; [|done].
    by apply readColumn_rows in Hr.
  - intros (c1 & s1 & _ & _ & _ & _ & H0 & _)%forEach_indices_inv.
    unfold moveDownColumn in H0.
    destruct (readColumn (board st) 0 indices) eqn:Hr; [|done].
    by apply readColumn_rows in Hr.
Qed.

(** A successful move pushes the snapshot of the state it started from
    and leaves the undo counter alone. *)
Lemma handleKey_moved k rnd st st' :
  movedBy k st = true → handleKey k rnd st = Some st' →
  historyStack st' = pushHistory (takeSnapshot st) (historyStack st)
  ∧ undosRemaining st' = undosRemaining st
  ∧ (SIZE ≤ length (board st))%nat.
Proof.
  unfold movedBy, handleKey. destruct (messageShown st); [done|].
  destruct (dispatchKey k st) as [[[] st1]|] eqn:Hm; [|done|done].
  intros _. cbn [mbind option_bind]. intros Ha.
  apply afterMove_effect in Ha as (Hh & Hu & _).
  pose proof (dispatchKey_rows _ _ _ Hm) as Hrows.
  apply dispatchKey_frame in Hm as (_ & Hh1 & Hu1 & _).
  by rewrite Hh, Hu, Hh1, Hu1.
Qed.

Lemma playMoves_inv ms st before st' :
  playMoves ms st = Some (before, st') →
  historyStack st'
  = foldl (λ h s, pushHistory s h) (historyStack st) (map takeSnapshot before)
  ∧ undosRemaining st' = undosRemaining st
  ∧ length before = length ms
  ∧ Forall (λ p, SIZE ≤ length (board p))%nat before.
Proof.
  revert st before. induction ms as [|[k rnd] ms IH]; intros st before.
  { intros [= <- <-]. by repeat split. }
  cbn [playMoves]. destruct (movedBy k st) eqn:Hmoved; [|done].
  destruct (handleKey k rnd st) as [st1|] eqn:Hk; [|done].
  cbn [mbind option_bind].
  destruct (playMoves ms st1) as [[before1 st2]|] eqn:Hp; [|done].
  cbn [mbind option_bind]. intros [= <- <-].
  destruct (handleKey_moved _ _ _ _ Hmoved Hk) as (Hh & Hu & Hrows).
  destruct (IH _ _ Hp) as (Hh' & Hu' & Hlen & Hall).
  cbn [map foldl length]. rewrite Hh', Hh, Hu', Hu, Hlen.
  repeat split. by constructor.
Qed.

Lemma undoMove_success st rest lastState :
  historyStack st = rest ++ [lastState] → 0 < undosRemaining st →
  (SIZE ≤ length (snap_board lastState))%nat →
  undoMove st = Some (undone lastState rest st).
Proof.
  intros Hh Hu Hrows. unfold undoMove. rewrite Hh.
  rewrite bool_decide_eq_false_2 by (by destruct rest).
  rewrite bool_decide_eq_false_2 by lia. cbn [orb].
  unfold popHistory. rewrite last_snoc, removelast_last.
  cbn [mbind option_bind]. cbv zeta.
  unfold renderBoard.
  rewrite decide_True by (by destruct (snap_isTimedGame lastState)).
  cbn [mbind option_bind]. unfold undone. cbv zeta.
  by destruct (snap_isTimedGame lastState).
Qed.

Lemma updateScoreDisplay_time st :
  isTimedGame (updateScoreDisplay st) = isTimedGame st
  ∧ timeRemaining (updateScoreDisplay st) = timeRemaining st.
Proof. unfold updateScoreDisplay. by case_decide. Qed.

Lemma saveGameState_time st :
  isTimedGame (saveGameState st) = isTimedGame st
  ∧ timeRemaining (saveGameState st) = timeRemaining st.
Proof. done. Qed.

Lemma startTimer_time t st :
  isTimedGame (startTimer (Some t) st) = isTimedGame st
  ∧ timeRemaining (startTimer (Some t) st) = t.
Proof. done. Qed.

Lemma undone_restoredFrom p rest st :
  restoredFrom p (undone (takeSnapshot p) rest st).
Proof.
  unfold restoredFrom.
  destruct (undone_fields (takeSnapshot p) rest st)
    as (_ & _ & _ & -> & -> & _).
  split; [done|]. split; [done|]. intros Ht.
  unfold undone. cbv zeta.
  replace (snap_isTimedGame (takeSnapshot p)) with true by done.
  replace (snap_timeRemaining (takeSnapshot p)) with (Some (timeRemaining p))
    by (unfold takeSnapshot; by rewrite Ht).
  cbn [default].
  match goal with
  | |- context [saveGameState ?x] =>
      destruct (saveGameState_time x) as [-> ->]
  end.
  match goal with
  | |- context [updateScoreDisplay ?x] =>
      destruct (updateScoreDisplay_time x) as [-> ->]
  end.
  match goal with
  | |- context [startTimer (Some ?t) ?x] =>
      destruct (startTimer_time t x) as [-> ->]
  end.
  done.
Qed.

Lemma undoTimes_noop n st :
  historyStack st = [] ∨ undosRemaining st <= 0 → undoTimes n st = Some st.
Proof.
  intros Hstop. induction n as [|n IH]; [done|]. cbn [undoTimes].
  replace (undoMove st) with (Some st); [done|].
  unfold undoMove. destruct Hstop as [->|Hu].
  - by rewrite bool_decide_eq_true_2.
  - rewrite (bool_decide_eq_true_2 (undosRemaining st <= 0)) by done.
    by rewrite orb_true_r.
Qed.

Lemma undoTimes_add m n st :
  undoTimes (m + n) st = undoTimes m st ≫= undoTimes n.
Proof.
  revert st. induction m as [|m IH]; intros st; [done|].
  cbn [Nat.add undoTimes]. destruct (undoMove st); [|done].
  cbn [mbind option_bind]. apply IH.
Qed.

(** Undoing as many times as there are snapshots of [snaps] on top of the
    stack, with undos to spare, shows the oldest of them. *)
Lemma undoTimes_restores snaps :
  ∀ st rest p older,
    snaps = p :: older →
    historyStack st = rest ++ map takeSnapshot snaps →
    Z.of_nat (length snaps) <= undosRemaining st →
    Forall (λ p, SIZE ≤ length (board p))%nat snaps →
    ∃ u, undoTimes (length snaps) st = Some u
         ∧ historyStack u = rest
         ∧ undosRemaining u = undosRemaining st - Z.of_nat (length snaps)
         ∧ restoredFrom p u.
Proof.
  induction snaps as [|x front IH] using rev_ind;
    intros st rest p older Hsnaps Hh Hu Hall.
  { done. }
  rewrite length_app in *. cbn [length] in *.
  rewrite Nat.add_1_r. cbn [undoTimes].
  rewrite map_app, (assoc_L (++)) in Hh. cbn [map] in Hh.
  apply Forall_app in Hall as [Hfront Hx].
  rewrite Forall_singleton in Hx.
  rewrite (undoMove_success _ _ _ Hh); [|lia|exact Hx].
  cbn [mbind option_bind].
  destruct (undone_fields (takeSnapshot x) (rest ++ map takeSnapshot front) st)
    as (Hh1 & Hu1 & _).
  destruct front as [|q front'].
  - cbn [app map] in *. injection Hsnaps as <- <-.
    eexists. split; [reflexivity|]. rewrite Hh1, Hu1, app_nil_r.
    split; [done|]. split; [simpl; lia|]. apply undone_restoredFrom.
  - injection Hsnaps as <- Holder.
    edestruct (IH (undone (takeSnapshot x)
                     (rest ++ map takeSnapshot (q :: front')) st)
                 rest q front' eq_refl) as (u & Hrun & Hhu & Huu & Hres);
      [done | simpl in *; lia | done |].
    exists u. split; [done|]. split; [done|]. split; [simpl in *; lia | done].
Qed.

End Undo.

Lemma reachable_run evs st st' :
  reachable st → run evs st = Some st' → reachable st'.
Proof.
  revert st. induction evs as [|ev evs IH]; intros st Hr Hrun.
  { by injection Hrun as <-. }
  cbn [run] in Hrun. destruct (step ev st) as [st1|] eqn:Hstep; [|done].
  cbn [mbind option_bind] in Hrun.
  eapply IH; [|done]. by eapply reachable_step.
Qed.

(** C6, amended.  In every state the page reaches the history stack holds
    at most 3 snapshots; a push onto 3 snapshots drops the oldest.  After
    three or more consecutive successful moves the stack holds the
    snapshots of the states before the last three moves, oldest first,
    and successive undos show these states again, the most recent first,
    as far as the undo counter allows: the first undo needs
    [undosRemaining] to be at least 1, the second at least 2, the third at
    least 3.  Undos beyond the smaller of 3 and [undosRemaining] change
    nothing. *)
Theorem history_keeps_last_three :
  (∀ st, reachable st → (length (historyStack st) ≤ 3)%nat)
  ∧ (∀ snapshot h,
       length h = 3%nat → pushHistory snapshot h = tail h ++ [snapshot])
  ∧ (∀ ms st older p3 p2 p1 st',
       (length (historyStack st) ≤ 3)%nat →
       playMoves ms st = Some (older ++ [p3; p2; p1], st') →
       historyStack st' = [takeSnapshot p3; takeSnapshot p2; takeSnapshot p1]
       ∧ (1 <= undosRemaining st' →
          ∃ u, undoTimes 1 st' = Some u ∧ restoredFrom p1 u)
       ∧ (2 <= undosRemaining st' →
          ∃ u, undoTimes 2 st' = Some u ∧ restoredFrom p2 u)
       ∧ (3 <= undosRemaining st' →
          ∃ u, undoTimes 3 st' = Some u ∧ restoredFrom p3 u)
       ∧ (∀ n, is_Some (undoTimes (Z.to_nat (Z.min 3 (undosRemaining st'))) st')
               ∧ undoTimes (Z.to_nat (Z.min 3 (undosRemaining st')) + n) st'
                 = undoTimes (Z.to_nat (Z.min 3 (undosRemaining st'))) st')).
Proof.
  split; [|split].
  - intros st Hr. by destruct (reachable_consistent st Hr) as [? _].
  - intros snapshot h Hlen. apply pushHistory_full. lia.
  - intros ms st older p3 p2 p1 st' Hlen Hplay.
    apply playMoves_inv in Hplay as (Hh & _ & _ & Hall).
    rewrite foldl_pushHistory in Hh by done.
    rewrite map_app, (assoc_L (++)) in Hh.
    rewrite lastN_app in Hh by (simpl; lia).
    rewrite lastN_all in Hh by (simpl; lia). cbn [map] in Hh.
    apply Forall_app in Hall as [_ Hall].
    rewrite !Forall_cons in Hall. destruct Hall as (Hp3 & Hp2 & Hp1 & _).
    assert (H1 : 1 <= undosRemaining st' →
      ∃ u, undoTimes 1 st' = Some u ∧ historyStack u = [takeSnapshot p3; takeSnapshot p2]
           ∧ undosRemaining u = undosRemaining st' - 1 ∧ restoredFrom p1 u).
    { intros Hu.
      destruct (undoTimes_restores [p1] st' [takeSnapshot p3; takeSnapshot p2]
                  p1 [] eq_refl) as (u & ? & ? & ? & ?);
        [done | simpl; lia | by repeat constructor |].
      exists u. split; [done|]. split; [done|].
      split; [simpl in *; lia | done]. }
    assert (H2 : 2 <= undosRemaining st' →
      ∃ u, undoTimes 2 st' = Some u ∧ historyStack u = [takeSnapshot p3]
           ∧ undosRemaining u = undosRemaining st' - 2 ∧ restoredFrom p2 u).
    { intros Hu.
      destruct (undoTimes_restores [p2; p1] st' [takeSnapshot p3]
                  p2 [p1] eq_refl) as (u & ? & ? & ? & ?);
        [done | simpl; lia | by repeat constructor |].
      exists u. split; [done|]. split; [done|].
      split; [simpl in *; lia | done]. }
    assert (H3 : 3 <= undosRemaining st' →
      ∃ u, undoTimes 3 st' = Some u ∧ historyStack u = []
           ∧ undosRemaining u = undosRemaining st' - 3 ∧ restoredFrom p3 u).
    { intros Hu.
      destruct (undoTimes_restores [p3; p2; p1] st' []
                  p3 [p2; p1] eq_refl) as (u & ? & ? & ? & ?);
        [done | simpl; lia | by repeat constructor |].
      exists u. split; [done|]. split; [done|].
      split; [simpl in *; lia | done]. }
    split; [done|].
    split; [intros Hu; destruct (H1 Hu) as (u & ? & _ & _ & ?); by exists u|].
    split; [intros Hu; destruct (H2 Hu) as (u & ? & _ & _ & ?); by exists u|].
    split; [intros Hu; destruct (H3 Hu) as (u & ? & _ & _ & ?); by exists u|].
    intros n. rewrite undoTimes_add.
    destruct (decide (undosRemaining st' <= 0)) as [Hle|Hgt].
    { replace (Z.to_nat (Z.min 3 (undosRemaining st'))) with 0%nat by lia.
      cbn [undoTimes mbind option_bind]. split; [done|].
      apply undoTimes_noop. by right. }
    destruct (decide (undosRemaining st' = 1)) as [Heq|Hne1].
    { rewrite Heq. change (Z.to_nat (Z.min 3 1)) with 1%nat.
      destruct H1 as (u & -> & _ & Hu & _); [lia|].
      cbn [mbind option_bind]. split; [done|].
      apply undoTimes_noop. right. lia. }
    destruct (decide (undosRemaining st' = 2)) as [Heq|Hne2].
    { rewrite Heq. change (Z.to_nat (Z.min 3 2)) with 2%nat.
      destruct H2 as (u & -> & _ & Hu & _); [lia|].
      cbn [mbind option_bind]. split; [done|].
      apply undoTimes_noop. right. lia. }
    replace (Z.to_nat (Z.min 3 (undosRemaining st'))) with 3%nat by lia.
    destruct H3 as (u & -> & Hu & _); [lia|].
    cbn [mbind option_bind]. split; [done|].
    apply undoTimes_noop. by left.
Qed.

(** C7. [initGame] always returns, with [undosRemaining] at 3.  An undo
    requested with an empty history stack or with no undo left returns
    without changing any global.  An undo with a snapshot to restore and
    an undo left takes exactly 1 from the counter, and no undo does
    anything else to it.  In every state the page reaches the counter is
    between 0 and 3, and no event of the game in progress raises it. *)
Theorem undo_budget :
  (∀ rnd1 rnd2 st0,
     ∃ st, initGame rnd1 rnd2 st0 = Some st ∧ undosRemaining st = 3)
  ∧ (∀ st, historyStack st = [] ∨ undosRemaining st <= 0 →
           undoMove st = Some st)
  ∧ (∀ st rest lastState,
       historyStack st = rest ++ [lastState] → 0 < undosRemaining st →
       (SIZE ≤ length (snap_board lastState))%nat →
       ∃ st', undoMove st = Some st'
              ∧ undosRemaining st' = undosRemaining st - 1)
  ∧ (∀ st st', undoMove st = Some st' →
               st' = st ∨ undosRemaining st' = undosRemaining st - 1)
  ∧ (∀ st, reachable st → 0 <= undosRemaining st <= 3)
  ∧ (∀ st ev st',
       reachable st → sessionEvent ev = true → step ev st = Some st' →
       undosRemaining st' <= undosRemaining st).
Proof.
  split; [|split; [|split; [|split; [|split]]]].
  - intros rnd1 rnd2 st0.
    destruct (initGame_total rnd1 rnd2 st0) as (b & _ & ->). by eexists.
  - intros st Hstop. apply (undoTimes_noop 1 st) in Hstop.
    cbn [undoTimes] in Hstop.
    destruct (undoMove st) as [st1|]; [|done].
    cbn [mbind option_bind] in Hstop. congruence.
  - intros st rest lastState Hh Hu Hrows.
    rewrite (undoMove_success _ _ _ Hh Hu Hrows). eexists. split; [done|].
    by destruct (undone_fields lastState rest st) as (_ & ? & _).
  - intros st st' [[-> _]|(_ & rest & lastState & _ & ->)]%undoMove_inv;
      [by left | right].
    by destruct (undone_fields lastState rest st) as (_ & ? & _).
  - intros st Hr. by destruct (reachable_consistent st Hr) as (_ & ? & _).
  - intros st ev st' Hr. apply sessionStep_undos.
    by apply reachable_consistent.
Qed.

(** ** The game saved by [initGame] *)

(** C10. [initGame] saves the game before it clears the history stack and
    resets the undo counter: the stored game has the new board and score 0
    together with the history stack and the undo counter of the game
    before, while the globals have an empty stack and 3 undos.  A
    [resumeGame] before the first move brings that history stack and that
    counter back. *)
Theorem initGame_saves_old_history (rnd1 rnd2 : Rnd) (st : State) :
  ∃ st1 saved st2,
    initGame rnd1 rnd2 st = Some st1
    ∧ historyStack st1 = [] ∧ undosRemaining st1 = 3 ∧ score st1 = 0
    ∧ gameStateItem (storage st1) = Some saved
    ∧ getProp "board" saved = Some (Some (jsonOfBoard (board st1)))
    ∧ getProp "score" saved = Some (Some (JNum 0))
    ∧ getProp "historyStack" saved
      = Some (Some (JArr (map jsonOfSnapshot (historyStack st))))
    ∧ getProp "undosRemaining" saved
      = Some (Some (JNum (undosRemaining st)))
    ∧ resumeGame st1 = Some st2
    ∧ board st2 = board st1 ∧ score st2 = 0
    ∧ historyStack st2 = historyStack st
    ∧ undosRemaining st2 = undosRemaining st.
Proof.
  destruct (initGame_total rnd1 rnd2 st) as (b & Hb & Hinit).
  pose proof Hinit as (s & Hst1 & _ & Hscore & _ & Hh & Hu & _)%initGame_inv.
  rewrite Hinit, Hst1.
  set (st1 := set_undosRemaining 3 (set_historyStack [] (saveGameState s))).
  exists st1, (jsonOfState s), (resumed st1 s).
  destruct (getProp_jsonOfState s) as (-> & -> & _ & _ & _ & _ & -> & ->).
  destruct (resumed_fields st1 s) as (-> & -> & -> & -> & _).
  rewrite Hscore, Hh, Hu.
  repeat split; first [done | exact Hscore | by apply resumeGame_stored].
Qed.

(** ** The best score on resume *)

(** C4 fails in [resumeGame]: the stored best score replaces the one in
    memory even when it is smaller.  With 100 in memory and a game stored
    with 40, the best score after [resumeGame] is 40. *)
Theorem resumeGame_lowers_bestScore :
  bestScore staleBest = 100
  ∧ ∃ st', resumeGame staleBest = Some st' ∧ bestScore st' = 40.
Proof.
  split; [reflexivity|]. eexists. split; [vm_compute; reflexivity|].
  reflexivity.
Qed.

(** In general [resumeGame] ends with the larger of the stored best score
    and the stored score, whatever the best score in memory was. *)
Lemma resumeGame_bestScore st s :
  gameStateItem (storage st) = Some (jsonOfState s) →
  (SIZE ≤ length (board s))%nat →
  ∃ st', resumeGame st = Some st'
         ∧ bestScore st' = Z.max (bestScore s) (score s).
Proof.
  intros Hitem Hrows. rewrite (resumeGame_stored st s Hitem).
  eexists. split; [done|]. unfold resumed, finishResume, renderBoard.
  rewrite decide_True by done. cbv zeta.
  unfold hideMessage, updateScoreDisplay.
  case_decide as Hlt; cbn in Hlt |- *;
    destruct (isTimedGame s); cbn; lia.
Qed.

(** The other operations never lower the best score. *)
Lemma updateScoreDisplay_bestScore st :
  bestScore (updateScoreDisplay st) = Z.max (bestScore st) (score st).
Proof. unfold updateScoreDisplay. case_decide; cbn; lia. Qed.

(** ** A game that has ended *)

(** While the overlay is shown the key handler returns at once. *)
Lemma handleKey_blocked k rnd st :
  messageShown st = true → handleKey k rnd st = Some st.
Proof. intros Hshown. unfold handleKey. by rewrite Hshown. Qed.

(** C9 fails for undo.  [lost] is the state after the move that ends the
    game [nearlyLost]: the board is full without equal neighbours, the
    overlay shows 'Game Over' and the stored game is removed.  Key presses
    are refused there, but [undoMove] brings back the board and the score
    of before the move and stores the game again.  [timeUp] is a timed
    game whose countdown has expired: [undoMove] changes its board and its
    score, sets the remaining time back and starts the timer again.  In
    both games the overlay stays shown after the undo. *)
Theorem undoMove_after_game_end :
  (handleKey ArrowLeft lowDraw nearlyLost = Some lost
   ∧ isGameOver (board lost) = Some true
   ∧ messageShown lost = true ∧ messageText lost = Some GameOver
   ∧ gameStateItem (storage lost) = None
   ∧ (∀ k rnd, handleKey k rnd lost = Some lost)
   ∧ ∃ st', undoMove lost = Some st'
            ∧ board st' = board nearlyLost ∧ board st' ≠ board lost
            ∧ score lost = 104 ∧ score st' = 100
            ∧ is_Some (gameStateItem (storage st'))
            ∧ messageShown st' = true)
  ∧ (run [EvKey ArrowLeft lowDraw; EvTick; EvTick] timedGame = Some timeUp
     ∧ messageShown timeUp = true ∧ messageText timeUp = Some TimesUp
     ∧ timerInterval timeUp = None ∧ timeRemaining timeUp = 0
     ∧ (∀ k rnd, handleKey k rnd timeUp = Some timeUp)
     ∧ ∃ st', undoMove timeUp = Some st'
              ∧ board st' = board timedGame ∧ board st' ≠ board timeUp
              ∧ score timeUp = 104 ∧ score st' = 100
              ∧ timerInterval st' = Some SavingTicker
              ∧ timeRemaining st' = 2
              ∧ messageShown st' = true).
Proof.
  split.
  - split; [by vm_compute|]. split; [by vm_compute|].
    split; [by vm_compute|]. split; [by vm_compute|].
    split; [by vm_compute|].
    split; [intros k rnd; apply handleKey_blocked; by vm_compute|].
    eexists. split; [vm_compute; reflexivity|]. vm_compute.
    repeat split; (done || by eexists).
  - split; [by vm_compute|]. split; [by vm_compute|].
    split; [by vm_compute|]. split; [by vm_compute|].
    split; [by vm_compute|].
    split; [intros k rnd; apply handleKey_blocked; by vm_compute|].
    eexists. split; [vm_compute; reflexivity|]. vm_compute.
    repeat split; done.
Qed.

(** ** The theorems on example games *)

Lemma played_reachable evs :
  is_Some (run evs (pageLoad false emptyStorage)) → reachable (played evs).
Proof.
  intros [st Hrun]. unfold played. rewrite Hrun. cbn [default].
  eapply reachable_run; [apply reachable_load | exact Hrun].
Qed.

(** C5 on a stored game with two 1024 tiles: resumed, it is won by a move
    to the left, and stays won through an undo, the keep-playing and home
    buttons and a resume. *)
Lemma won_is_sticky_witness :
  ∃ st st1 st2,
    resumeGame almostWonStored = Some st
    ∧ run [EvKey ArrowLeft lowDraw] st = Some st1
    ∧ run [EvUndo; EvKeepPlaying; EvHome; EvResume] st1 = Some st2
    ∧ won st = false ∧ won st1 = true ∧ board st2 = board st
    ∧ (∃ u, undoMove st1 = Some u ∧ won u = won st1)
    ∧ won st2 = true.
Proof.
  eexists _, _, _.
  split; [vm_compute; reflexivity|].
  split; [vm_compute; reflexivity|].
  split; [vm_compute; reflexivity|].
  split; [reflexivity|]. split; [reflexivity|]. split; [reflexivity|].
  split.
  { eexists. split; [vm_compute; reflexivity|].
    apply (proj1 (proj2 won_is_sticky)). vm_compute; reflexivity. }
  eapply (proj2 (proj2 won_is_sticky) almostWonStored _
            [EvKey ArrowLeft lowDraw] _
            [EvUndo; EvKeepPlaying; EvHome; EvResume] _).
  - right. split; [by eexists|]. vm_compute; reflexivity.
  - reflexivity.
  - vm_compute; reflexivity.
  - reflexivity.
  - vm_compute; reflexivity.
  - reflexivity.
Defined.

(** C6, as stated, fails: with two of the three undos used, four moves
    are played; the first undo then shows the state before the fourth
    move, and the second and third undo change nothing, so the states
    before the third and the second move are not shown again. *)
Lemma undos_after_four_moves_limited :
  reachable twoUndosSpent
  ∧ undosRemaining twoUndosSpent = 1
  ∧ playMoves fourMoves twoUndosSpent
    = Some ([afterMovesSpent 0; afterMovesSpent 1; afterMovesSpent 2;
             afterMovesSpent 3], afterMovesSpent 4)
  ∧ ∃ u, undoTimes 1 (afterMovesSpent 4) = Some u
         ∧ undoTimes 2 (afterMovesSpent 4) = Some u
         ∧ undoTimes 3 (afterMovesSpent 4) = Some u
         ∧ board u = board (afterMovesSpent 3)
         ∧ board u ≠ board (afterMovesSpent 2)
         ∧ board u ≠ board (afterMovesSpent 1).
Proof.
  split; [apply played_reachable; vm_compute; by eexists|].
  split; [by vm_compute|]. split; [by vm_compute|].
  eexists. split; [vm_compute; reflexivity|].
  split; [by vm_compute|]. split; [by vm_compute|].
  vm_compute. repeat split; congruence.
Qed.

(** The amended C6 on a new game: [twoUndosSpent] is reached by the page
    and has at most 3 snapshots; after four moves of a new game the stack
    holds the snapshots of the states before the last three, and three
    undos show these states, the most recent first. *)
Lemma history_keeps_last_three_witness :
  (length (historyStack twoUndosSpent) ≤ 3)%nat
  ∧ pushHistory (takeSnapshot (afterMoves 4)) (historyStack (afterMoves 4))
    = tail (historyStack (afterMoves 4)) ++ [takeSnapshot (afterMoves 4)]
  ∧ historyStack (afterMoves 4)
    = [takeSnapshot (afterMoves 1); takeSnapshot (afterMoves 2);
       takeSnapshot (afterMoves 3)]
  ∧ (∃ u, undoTimes 1 (afterMoves 4) = Some u
          ∧ restoredFrom (afterMoves 3) u)
  ∧ (∃ u, undoTimes 2 (afterMoves 4) = Some u
          ∧ restoredFrom (afterMoves 2) u)
  ∧ (∃ u, undoTimes 3 (afterMoves 4) = Some u
          ∧ restoredFrom (afterMoves 1) u).
Proof.
  split.
  { apply (proj1 history_keeps_last_three).
    apply played_reachable. vm_compute. by eexists. }
  split.
  { apply (proj1 (proj2 history_keeps_last_three)). by vm_compute. }
  assert (Hplay : playMoves fourMoves (afterMoves 0)
                  = Some ([afterMoves 0] ++ [afterMoves 1; afterMoves 2;
                                             afterMoves 3], afterMoves 4))
    by (by vm_compute).
  assert (Hlen : (length (historyStack (afterMoves 0)) ≤ 3)%nat)
    by (vm_compute; lia).
  destruct (proj2 (proj2 history_keeps_last_three) _ _ _ _ _ _ _ Hlen Hplay)
    as (Hh & H1 & H2 & H3 & _).
  split; [exact Hh|].
  split; [apply H1; by vm_compute|].
  split; [apply H2; by vm_compute|].
  apply H3; by vm_compute.
Defined.

(** C7 on a new game: an undo before any move changes nothing; after one
    move an undo takes 1 from the counter; the counter of a state the page
    reaches is between 0 and 3 and an undo there does not raise it. *)
Lemma undo_budget_witness :
  undoMove freshGame = Some freshGame
  ∧ (∃ st', undoMove (afterMoves 1) = Some st'
            ∧ undosRemaining st' = undosRemaining (afterMoves 1) - 1)
  ∧ (undoMove (afterMoves 2) = Some (afterMoves 2)
     ∨ ∃ st', undoMove (afterMoves 2) = Some st'
              ∧ undosRemaining st' = undosRemaining (afterMoves 2) - 1)
  ∧ 0 <= undosRemaining twoUndosSpent <= 3
  ∧ undosRemaining (afterMovesSpent 1) <= undosRemaining twoUndosSpent.
Proof.
  destruct undo_budget as (_ & Hnoop & Hdec & Hone & Hrange & Hstep).
  split; [apply Hnoop; left; by vm_compute|].
  split.
  { apply (Hdec (afterMoves 1) [] (takeSnapshot freshGame));
      [by vm_compute | by vm_compute | vm_compute; lia]. }
  split.
  { destruct (undoMove (afterMoves 2)) as [u|] eqn:Hu; [|by vm_compute in Hu].
    destruct (Hone _ _ Hu) as [->|Hdown]; [by left|].
    right. exists u. split; [reflexivity | exact Hdown]. }
  assert (Hr : reachable twoUndosSpent).
  { apply played_reachable. vm_compute. by eexists. }
  split; [by apply Hrange|].
  apply (Hstep twoUndosSpent (EvKey ArrowLeft lowDraw) (afterMovesSpent 1) Hr);
    [reflexivity | by vm_compute].
Defined.

(** ** The moves always return on a board with all its cells *)

Section Total.

Lemma slideAndCombine_length line st :
  (length line ≤ SIZE)%nat → length (slideAndCombine line st).1 = SIZE.
Proof.
  intros Hlen. rewrite slideAndCombine_eq. cbn [fst]. unfold padToSize.
  rewrite length_app, length_replicate, length_map.
  pose proof (mergeTiles_length (tiles line)) as Hm.
  assert (length (tiles line) ≤ length line)%nat.
  { clear. induction line as [|[v|] line IH]; simpl; lia. }
  lia.
Qed.

Lemma wfBoard_row b r row : wfBoard b → b !! r = Some row → length row = SIZE.
Proof. intros [_ Hrows] Hrow. by eapply (Forall_lookup_1 _ _ _ _ Hrows). Qed.

Lemma moveLeftRow_total r ch st :
  wfBoard (board st) → (r < SIZE)%nat →
  ∃ ch' st', moveLeftRow r ch st = Some (ch', st') ∧ wfBoard (board st').
Proof.
  intros Hwf Hr. unfold moveLeftRow.
  destruct (lookup_lt_is_Some_2 (board st) r) as [row Hrow];
    [destruct Hwf; lia|].
  rewrite Hrow. cbn [mbind option_bind].
  pose proof (slideAndCombine_length row st) as Hlen.
  pose proof (board_slideAndCombine row st) as Hb.
  destruct (slideAndCombine row st) as [newRow st1]. cbn [fst snd] in *.
  rewrite (wfBoard_row _ _ _ Hwf Hrow) in Hlen.
  destruct (arraysEqual row newRow); eexists _, _; (split; [done|]).
  - by rewrite Hb.
  - cbn. rewrite Hb. apply wfBoard_insert_row; [done | by apply Hlen].
Qed.

Lemma moveRightRow_total r ch st :
  wfBoard (board st) → (r < SIZE)%nat →
  ∃ ch' st', moveRightRow r ch st = Some (ch', st') ∧ wfBoard (board st').
Proof.
  intros Hwf Hr. unfold moveRightRow.
  destruct (lookup_lt_is_Some_2 (board st) r) as [row Hrow];
    [destruct Hwf; lia|].
  rewrite Hrow. cbn [mbind option_bind]. cbv zeta.
  pose proof (slideAndCombine_length (reverse row) st) as Hlen.
  pose proof (board_slideAndCombine (reverse row) st) as Hb.
  destruct (slideAndCombine (reverse row) st) as [newRow st1].
  cbn [fst snd] in *.
  rewrite length_reverse, (wfBoard_row _ _ _ Hwf Hrow) in Hlen.
  destruct (arraysEqual row (reverse newRow)); eexists _, _; (split; [done|]).
  - by rewrite Hb.
  - cbn. rewrite Hb. apply wfBoard_insert_row; [done|].
    rewrite length_reverse. by apply Hlen.
Qed.

Lemma readColumn_total b c :
  wfBoard b → (c < SIZE)%nat →
  ∃ column, readColumn b c indices = Some column ∧ length column = SIZE.
Proof.
  intros Hwf Hc. unfold indices, SIZE in *. cbn [seq readColumn].
  destruct (cellAt_wf b 0 c Hwf) as [x0 ->]; [unfold SIZE; lia.. |].
  destruct (cellAt_wf b 1 c Hwf) as [x1 ->]; [unfold SIZE; lia.. |].
  destruct (cellAt_wf b 2 c Hwf) as [x2 ->]; [unfold SIZE; lia.. |].
  destruct (cellAt_wf b 3 c Hwf) as [x3 ->]; [unfold SIZE; lia.. |].
  cbn [mbind option_bind]. by eexists.
Qed.

Lemma writeColumn_total c nc rs ch b :
  wfBoard b → (c < SIZE)%nat → length nc = SIZE →
  Forall (λ r, r < SIZE)%nat rs →
  ∃ ch' b', writeColumn c nc rs ch b = Some (ch', b') ∧ wfBoard b'.
Proof.
  intros Hwf Hc Hnc Hrs. revert ch b Hwf.
  induction Hrs as [|r rs Hr _ IH]; intros ch b Hwf; cbn [writeColumn].
  { by eexists _, _. }
  destruct (cellAt_wf b r c Hwf Hr Hc) as [old ->].
  destruct (lookup_lt_is_Some_2 nc r) as [new ->]; [lia|].
  cbn [mbind option_bind]. destruct (decide (old = new)).
  - by apply IH.
  - apply IH. by apply wfBoard_setCell.
Qed.

Lemma indices_valid : Forall (λ r, r < SIZE)%nat indices.
Proof. repeat constructor. Qed.

Lemma moveUpColumn_total c ch st :
  wfBoard (board st) → (c < SIZE)%nat →
  ∃ ch' st', moveUpColumn c ch st = Some (ch', st') ∧ wfBoard (board st').
Proof.
  intros Hwf Hc. unfold moveUpColumn.
  destruct (readColumn_total _ c Hwf Hc) as (column & -> & Hlen).
  cbn [mbind option_bind].
  pose proof (slideAndCombine_length column st) as Hnc.
  pose proof (board_slideAndCombine column st) as Hb.
  destruct (slideAndCombine column st) as [nc st1]. cbn [fst snd] in *.
  rewrite Hb.
  destruct (writeColumn_total c nc indices ch (board st) Hwf Hc)
    as (ch' & b' & -> & Hwf'); [apply Hnc; lia | apply indices_valid|].
  cbn [mbind option_bind]. by eexists _, _.
Qed.

Lemma moveDownColumn_total c ch st :
  wfBoard (board st) → (c < SIZE)%nat →
  ∃ ch' st', moveDownColumn c ch st = Some (ch', st') ∧ wfBoard (board st').
Proof.
  intros Hwf Hc. unfold moveDownColumn.
  destruct (readColumn_total _ c Hwf Hc) as (column & -> & Hlen).
  cbn [mbind option_bind]. cbv zeta.
  pose proof (slideAndCombine_length (reverse column) st) as Hnc.
  pose proof (board_slideAndCombine (reverse column) st) as Hb.
  destruct (slideAndCombine (reverse column) st) as [nc st1].
  cbn [fst snd] in *. rewrite Hb.
  destruct (writeColumn_total c (reverse nc) indices ch (board st) Hwf Hc)
    as (ch' & b' & -> & Hwf');
    [rewrite length_reverse; apply Hnc; rewrite length_reverse; lia
    | apply indices_valid|].
  cbn [mbind option_bind]. by eexists _, _.
Qed.

Lemma forEach_total body idx ch st :
  (∀ i c s, wfBoard (board s) → (i < SIZE)%nat →
            ∃ c' s', body i c s = Some (c', s') ∧ wfBoard (board s')) →
  Forall (λ r, r < SIZE)%nat idx → wfBoard (board st) →
  ∃ ch' st', forEach body idx ch st = Some (ch', st') ∧ wfBoard (board st').
Proof.
  intros Hbody Hidx. revert ch st.
  induction Hidx as [|i idx Hi _ IH]; intros ch st Hwf; cbn [forEach].
  { by eexists _, _. }
  destruct (Hbody i ch st Hwf Hi) as (c1 & s1 & -> & Hwf1).
  cbn [mbind option_bind]. by apply IH.
Qed.

(** On a board with all its cells every move function returns. *)
Lemma dispatchKey_total k st :
  wfBoard (board st) →
  ∃ moved st', dispatchKey k st = Some (moved, st') ∧ wfBoard (board st').
Proof.
  intros Hwf. destruct k; cbn [dispatchKey].
  - apply forEach_total; [apply moveLeftRow_total | apply indices_valid | done].
  - apply forEach_total; [apply moveRightRow_total | apply indices_valid | done].
  - apply forEach_total; [apply moveUpColumn_total | apply indices_valid | done].
  - apply forEach_total; [apply moveDownColumn_total | apply indices_valid | done].
  - by eexists _, _.
Qed.

Lemma dispatchSwipe_total dx dy st :
  wfBoard (board st) →
  ∃ moved st', dispatchSwipe dx dy st = Some (moved, st') ∧ wfBoard (board st').
Proof.
  intros Hwf. unfold dispatchSwipe. repeat case_decide.
  - by apply (dispatchKey_total ArrowRight).
  - by apply (dispatchKey_total ArrowLeft).
  - by apply (dispatchKey_total ArrowDown).
  - by apply (dispatchKey_total ArrowUp).
Qed.

Lemma anyEmpty_total b ps :
  wfBoard b → Forall validPosition ps → is_Some (anyEmpty b ps).
Proof.
  intros Hwf. induction 1 as [|[r c] ps [Hr Hc] _ IH]; cbn [anyEmpty].
  { by eexists. }
  destruct (cellAt_wf b r c Hwf Hr Hc) as [x ->]. cbn [mbind option_bind].
  destruct (notNull x); [done | by eexists].
Qed.

Lemma equalAt_total b inside r c current :
  wfBoard b → (inside = true → validPosition (r, c)) →
  is_Some (equalAt b inside r c current).
Proof.
  intros Hwf Hin. unfold equalAt. destruct inside; [|by eexists].
  destruct (Hin eq_refl) as [Hr Hc].
  destruct (cellAt_wf b r c Hwf Hr Hc) as [x ->]. by eexists.
Qed.

Lemma anyEqualNeighbours_total b ps :
  wfBoard b → Forall validPosition ps → is_Some (anyEqualNeighbours b ps).
Proof.
  intros Hwf. induction 1 as [|[r c] ps [Hr Hc] _ IH];
    cbn [anyEqualNeighbours].
  { by eexists. }
  cbn [fst snd] in Hr, Hc.
  destruct (cellAt_wf b r c Hwf Hr Hc) as [x ->]. cbn [mbind option_bind].
  destruct (equalAt_total b (bool_decide (r < SIZE - 1)%nat) (r + 1) c x Hwf)
    as [below ->].
  { intros Hlt%bool_decide_eq_true. split; cbn [fst snd]; lia. }
  cbn [mbind option_bind]. destruct below; [by eexists|].
  destruct (equalAt_total b (bool_decide (c < SIZE - 1)%nat) r (c + 1) x Hwf)
    as [right ->].
  { intros Hlt%bool_decide_eq_true. split; cbn [fst snd]; lia. }
  cbn [mbind option_bind]. destruct right; [by eexists | done].
Qed.

Lemma isGameOver_total b : wfBoard b → is_Some (isGameOver b).
Proof.
  intros Hwf. unfold isGameOver.
  destruct (anyEmpty_total b positions Hwf positions_valid) as [[] ->];
    cbn [mbind option_bind]; [by eexists|].
  destruct (anyEqualNeighbours_total b positions Hwf positions_valid)
    as [e ->].
  by eexists.
Qed.

End Total.

Section Playable.

Lemma playableGame_same s s' :
  board s' = board s → historyStack s' = historyStack s →
  playableGame s → playableGame s'.
Proof. unfold playableGame. by intros -> ->. Qed.

Lemma playable_saved x st' :
  playableGame x → playableGame st' →
  gameStateItem (storage st') = Some (jsonOfState x) ∨
  gameStateItem (storage st') = None →
  playable st'.
Proof.
  intros Hx Hst' Hitem. split; [done|]. intros j Hj.
  destruct Hitem as [Hitem|Hitem]; rewrite Hitem in Hj; [|done].
  injection Hj as <-. by exists x.
Qed.

Lemma afterMove_total snapshot rnd st :
  wfBoard (board st) →
  ∃ b (over : bool),
    wfBoard b ∧
    let saved :=
      saveGameState (updateScoreDisplay (set_board b
        (set_historyStack (pushHistory snapshot (historyStack st)) st))) in
    afterMove snapshot rnd st
    = Some (if over then showMessage GameOver saved else saved).
Proof.
  intros Hwf. unfold afterMove. cbv zeta.
  destruct (spawnTile_wf rnd
              (set_historyStack (pushHistory snapshot (historyStack st)) st)
              Hwf) as (b & -> & Hb).
  cbn [mbind option_bind]. rewrite renderBoard_wf by done.
  cbn [mbind option_bind].
  match goal with
  | |- context [isGameOver ?x] =>
      assert (Hbx : x = b) by (unfold_ops; by case_decide);
      rewrite Hbx; destruct (isGameOver_total b Hb) as [over ->]
  end.
  cbn [mbind option_bind]. by exists b, over.
Qed.

Lemma pushHistory_Forall (P : Snapshot → Prop) snapshot h :
  P snapshot → Forall P h → Forall P (pushHistory snapshot h).
Proof.
  intros Hs Hh. unfold pushHistory. cbv zeta.
  assert (Forall P (h ++ [snapshot])).
  { apply Forall_app. split; [done | by constructor]. }
  case_decide; [by apply Forall_tail | done].
Qed.

Lemma moved_playable snapshot rnd st1 st :
  playable st → wfBoard (board st1) →
  historyStack st1 = historyStack st →
  wfBoard (snap_board snapshot) →
  ∃ st', afterMove snapshot rnd st1 = Some st' ∧ playable st'.
Proof.
  intros [[_ Hhist] _] Hwf1 Hh Hsnap.
  destruct (afterMove_total snapshot rnd st1 Hwf1) as (b & over & Hb & ->).
  cbv zeta. eexists. split; [done|].
  set (x := updateScoreDisplay _).
  assert (Hx : playableGame x).
  { split.
    - unfold x. unfold_ops. by case_decide.
    - replace (historyStack x)
        with (pushHistory snapshot (historyStack st1))
        by (unfold x; unfold_ops; by case_decide).
      rewrite Hh. by apply pushHistory_Forall. }
  destruct over.
  - apply (playable_saved x); [done | |right].
    + eapply playableGame_same, Hx; unfold_ops; by split_ifs.
    + unfold_ops; by split_ifs.
  - apply (playable_saved x); [done | done | by left].
Qed.

Lemma handleKey_playable k rnd st :
  playable st → ∃ st', handleKey k rnd st = Some st' ∧ playable st'.
Proof.
  intros Hp. pose proof Hp as [[Hwf Hhist] _]. unfold handleKey.
  destruct (messageShown st); [by eexists|].
  destruct (dispatchKey_total k st Hwf) as (moved & st1 & Hm & Hwf1).
  rewrite Hm. cbn [mbind option_bind]. destruct moved.
  - apply dispatchKey_frame in Hm as (_ & Hh & _).
    by apply (moved_playable _ _ _ st).
  - apply dispatchKey_unchanged in Hm as ->. by eexists.
Qed.

Lemma handleTouchEnd_playable dx dy rnd st :
  playable st → ∃ st', handleTouchEnd dx dy rnd st = Some st' ∧ playable st'.
Proof.
  intros Hp. pose proof Hp as [[Hwf Hhist] _]. unfold handleTouchEnd.
  destruct (messageShown st); [by eexists|].
  case_decide; [|by eexists].
  destruct (dispatchSwipe_total dx dy st Hwf) as (moved & st1 & Hm & Hwf1).
  rewrite Hm. cbn [mbind option_bind]. destruct moved.
  - apply dispatchSwipe_frame in Hm as (_ & Hh & _).
    by apply (moved_playable _ _ _ st).
  - apply dispatchSwipe_unchanged in Hm as ->. by eexists.
Qed.

Lemma undoMove_playable st :
  playable st → ∃ st', undoMove st = Some st' ∧ playable st'.
Proof.
  intros Hp. pose proof Hp as [[Hwf Hhist] _].
  destruct (decide (historyStack st = [] ∨ undosRemaining st <= 0))
    as [Hstop|Hgo].
  { exists st. split; [|done].
    apply (undoTimes_noop 1 st) in Hstop. cbn [undoTimes] in Hstop.
    destruct (undoMove st); [|done]. cbn [mbind option_bind] in Hstop.
    congruence. }
  destruct (historyStack st) as [|x rest _] eqn:Hh using rev_ind;
    [exfalso; apply Hgo; by left|].
  apply Forall_app in Hhist as [Hrest Hx]. rewrite Forall_singleton in Hx.
  exists (undone x rest st). split.
  - apply undoMove_success; [done | lia | destruct Hx; lia].
  - destruct (undone_fields x rest st)
      as (Hh' & _ & _ & Hb' & _ & _ & _ & s & Hs & _ & Hhs & _ & Hbs & _).
    apply (playable_saved s); [| |by left].
    + split; [by rewrite Hbs | by rewrite Hhs].
    + split; [by rewrite Hb' | by rewrite Hh'].
Qed.

Lemma tick_playable st : playable st → playable (tick st).
Proof.
  intros Hp. pose proof Hp as [Hg Hstored]. unfold tick.
  destruct (timerInterval st) as [[]|]; [| |done]; cbv zeta.
  - set (x := set_timeRemaining (timeRemaining st - 1) st).
    assert (Hx : playableGame x) by done.
    case_decide.
    + apply (playable_saved x); [done | |right].
      * eapply playableGame_same, Hx; unfold_ops; by split_ifs.
      * unfold_ops; by split_ifs.
    + apply (playable_saved x); [done | done | by left].
  - case_decide.
    + split.
      * eapply playableGame_same, Hg; unfold_ops; by split_ifs.
      * intros j Hj. exfalso. revert Hj. unfold_ops. by split_ifs.
    + done.
Qed.

Lemma homeButton_playable st : playable st → playable (homeButton st).
Proof.
  intros [Hg _]. unfold homeButton. cbv zeta.
  apply (playable_saved st); [done | |left].
  - eapply playableGame_same, Hg; unfold_ops; by split_ifs.
  - unfold_ops; by split_ifs.
Qed.

Lemma keepPlaying_playable st : playable st → playable (keepPlaying st).
Proof.
  intros [Hg Hstored]. unfold keepPlaying. cbv zeta. split.
  - eapply playableGame_same, Hg; unfold_ops; by split_ifs.
  - intros j Hj. apply Hstored. revert Hj. unfold_ops. by split_ifs.
Qed.

Lemma resumeGame_playable st :
  playable st → ∃ st', resumeGame st = Some st' ∧ playable st'.
Proof.
  intros Hp. pose proof Hp as [Hg Hstored].
  destruct (gameStateItem (storage st)) as [j|] eqn:Hj.
  - destruct (Hstored j eq_refl) as (s & -> & Hs).
    exists (resumed st s). split; [by apply resumeGame_stored|].
    destruct (resumed_fields st s) as (Hb & _ & Hh & _ & _ & _ & _ & Hitem).
    apply (playable_saved s); [done | |left; by rewrite Hitem].
    by eapply playableGame_same, Hs.
  - exists st. split; [|done]. unfold resumeGame. by rewrite Hj.
Qed.

(** A new game can be started in any state whose snapshots have all their
    cells, in particular right after the page is loaded. *)
Lemma startGame_playable timed seconds rnd1 rnd2 st :
  Forall (λ item, wfBoard (snap_board item)) (historyStack st) →
  ∃ st', startGame timed seconds rnd1 rnd2 st = Some st' ∧ playable st'.
Proof.
  intros Hhist. unfold startGame. cbv zeta.
  destruct (initGame_total rnd1 rnd2 (set_isTimedGame timed (clearGameState st)))
    as (b & Hb & Hinit).
  pose proof Hinit as (s & Hst1 & Hwf & _ & _ & Hh & _)%initGame_inv.
  rewrite Hinit, Hst1. cbn [mbind option_bind]. eexists. split; [done|].
  assert (Hs : playableGame s) by (split; [done | by rewrite Hh]).
  apply (playable_saved s); [done | |left].
  - split; [|by destruct (isTimedGame _); constructor].
    by destruct (isTimedGame _).
  - by destruct (isTimedGame _).
Qed.

(** Every event but a reload of the page returns on a state with a game on
    the board, and leaves such a state. *)
Lemma step_playable ev st :
  playable st → (∀ overlay, ev ≠ EvReload overlay) →
  ∃ st', step ev st = Some st' ∧ playable st'.
Proof.
  intros Hp Hev. destruct ev; cbn [step].
  - by apply handleKey_playable.
  - by apply handleTouchEnd_playable.
  - by apply undoMove_playable.
  - eexists. split; [done|]. by apply tick_playable.
  - eexists. split; [done|]. by apply homeButton_playable.
  - eexists. split; [done|]. by apply keepPlaying_playable.
  - by apply resumeGame_playable.
  - apply startGame_playable. by destruct Hp as [[_ ?] _].
  - eexists. split; [done|]. destruct Hp as [Hg _]. split; [done|].
    intros j. cbn. congruence.
  - by destruct (Hev overlay).
Qed.

End Playable.

(** ** The best score outside [resumeGame] *)

Section BestScore.

Lemma afterMove_bestScore snapshot rnd st st' :
  afterMove snapshot rnd st = Some st' → bestScore st <= bestScore st'.
Proof.
  intros (b & over & _ & ->)%afterMove_inv. cbv zeta.
  set (x := set_board b _).
  assert (Hx : bestScore x = bestScore st) by done.
  pose proof (updateScoreDisplay_bestScore x) as Hmax.
  replace (bestScore (if over then _ else _))
    with (bestScore (updateScoreDisplay x));
    [lia | destruct over; unfold showMessage, saveGameState, clearGameState;
           cbn; by split_ifs].
Qed.

Lemma undone_bestScore lastState rest st :
  bestScore st <= bestScore (undone lastState rest st).
Proof.
  unfold undone. cbv zeta.
  match goal with
  | |- context [updateScoreDisplay ?x] =>
      pose proof (updateScoreDisplay_bestScore x) as Hmax;
      assert (Hx : bestScore x = bestScore st)
        by (by destruct (snap_isTimedGame lastState))
  end.
  change (bestScore (saveGameState ?y)) with (bestScore y). lia.
Qed.

Lemma initGame_bestScore rnd1 rnd2 st st' :
  initGame rnd1 rnd2 st = Some st' → bestScore st <= bestScore st'.
Proof.
  destruct (initGame_total rnd1 rnd2 st) as (b & _ & ->). intros [= <-].
  match goal with
  | |- context [updateScoreDisplay ?x] =>
      pose proof (updateScoreDisplay_bestScore x) as Hmax;
      assert (Hx : bestScore x = bestScore st) by done
  end.
  change (bestScore (set_undosRemaining _ (set_historyStack _
            (saveGameState ?y)))) with (bestScore y).
  lia.
Qed.

(** Every event other than a resume or a reload leaves the best score as
    it is or raises it. *)
Lemma step_bestScore ev st st' :
  ev ≠ EvResume → (∀ overlay, ev ≠ EvReload overlay) →
  step ev st = Some st' → bestScore st <= bestScore st'.
Proof.
  intros Hres Hrel. destruct ev; cbn [step]; try done.
  - intros [->|(_ & st1 & Hm & Ha)]%handleKey_inv; [lia|].
    apply dispatchKey_frame in Hm as (Hb & _).
    apply afterMove_bestScore in Ha. lia.
  - intros [->|(_ & st1 & Hm & Ha)]%handleTouchEnd_inv; [lia|].
    apply dispatchSwipe_frame in Hm as (Hb & _).
    apply afterMove_bestScore in Ha. lia.
  - intros [[-> _]|(_ & rest & lastState & _ & ->)]%undoMove_inv; [lia|].
    apply undone_bestScore.
  - intros [= <-]. unfold tick. unfold_ops. split_ifs; cbn; lia.
  - intros [= <-]. unfold homeButton. unfold_ops. split_ifs; cbn; lia.
  - intros [= <-]. unfold keepPlaying. unfold_ops. split_ifs; cbn; lia.
  - unfold startGame. cbv zeta.
    destruct (initGame _ _ _) as [st3|] eqn:Hinit; [|done].
    apply initGame_bestScore in Hinit. cbn [mbind option_bind].
    intros [= <-].
    replace (bestScore (if isTimedGame st3 then _ else _))
      with (bestScore st3) by (by destruct (isTimedGame st3)).
    exact Hinit.
  - intros [= <-]. cbn. lia.
  - by destruct (Hrel overlay).
Qed.

End BestScore.

(** ** The four moves, line by line *)

Section ClosedForm.

Lemma slideLine_eq line st : (slideAndCombine line st).1 = slideLine line.
Proof. by rewrite slideAndCombine_eq. Qed.

Lemma slideLine_length line :
  (length line ≤ SIZE)%nat → length (slideLine line) = SIZE.
Proof.
  intros Hlen. rewrite <- (slideLine_eq line exampleState).
  by apply slideAndCombine_length.
Qed.

Lemma slideLineBack_length line :
  (length line ≤ SIZE)%nat → length (slideLineBack line) = SIZE.
Proof.
  intros Hlen. unfold slideLineBack. rewrite length_reverse.
  apply slideLine_length. by rewrite length_reverse.
Qed.

Lemma arraysEqual_eq a b :
  length a = length b → arraysEqual a b = bool_decide (a = b).
Proof.
  intros Hlen. destruct (arraysEqual a b) eqn:Heq.
  - apply arraysEqual_prefix in Heq as [b2 ->].
    rewrite length_app in Hlen. destruct b2; [|simpl in Hlen; lia].
    rewrite app_nil_r. by rewrite bool_decide_eq_true_2.
  - symmetry. apply bool_decide_eq_false_2. intros ->.
    pose proof (arraysEqual_refl b []) as Hr. rewrite app_nil_r in Hr.
    congruence.
Qed.

Lemma set_board_recordMerge b st v :
  set_board b (recordMerge st v) = recordMerge (set_board b st) v.
Proof.
  unfold recordMerge. cbn [won set_score set_board].
  destruct ((v =? 2048) && negb (won st)); [|done].
  by rewrite !showMessage_YouWin.
Qed.

Lemma set_board_foldl_recordMerge b rs st :
  set_board b (foldl recordMerge st rs) = foldl recordMerge (set_board b st) rs.
Proof.
  revert st. induction rs as [|v rs IH]; intros st; [done|].
  cbn [foldl]. by rewrite IH, set_board_recordMerge.
Qed.

Lemma board_foldl_recordMerge rs st :
  board (foldl recordMerge st rs) = board st.
Proof.
  pose proof (board_slideAndCombine (map Some rs) st) as H.
  revert st H. induction rs as [|v rs IH]; intros st _; [done|].
  cbn [foldl]. rewrite IH.
  - unfold recordMerge. cbn [won set_score].
    destruct ((v =? 2048) && negb (won st)); [|done].
    by rewrite showMessage_YouWin.
  - apply board_slideAndCombine.
Qed.

Lemma set_board_set_board b1 b2 st :
  set_board b1 (set_board b2 st) = set_board b1 st.
Proof. done. Qed.

(** One iteration of the loop of [moveLeft]: the row is replaced by its
    resolved line, and [changed] is set when the two differ. *)
Lemma moveLeftRow_eq pre row rest ch st :
  board st = pre ++ row :: rest → length row = SIZE →
  moveLeftRow (length pre) ch st
  = Some (ch || negb (bool_decide (slideLine row = row)),
          set_board (pre ++ slideLine row :: rest)
            (foldl recordMerge st (lineMerges row))).
Proof.
  intros Hb Hlen. unfold moveLeftRow.
  rewrite Hb, lookup_after. cbn [mbind option_bind].
  rewrite slideAndCombine_eq. fold (slideLine row) (lineMerges row).
  rewrite arraysEqual_eq by (rewrite slideLine_length; lia).
  rewrite board_foldl_recordMerge, Hb.
  destruct (decide (row = slideLine row)) as [Heq|Hne].
  - rewrite bool_decide_eq_true_2 by done.
    rewrite (bool_decide_eq_true_2 (slideLine row = row)) by done.
    rewrite orb_false_r. rewrite <- Heq, <- Hb.
    by rewrite set_board_foldl_recordMerge, set_board_same.
  - rewrite bool_decide_eq_false_2 by done.
    rewrite (bool_decide_eq_false_2 (slideLine row = row)) by done.
    rewrite orb_true_r. by rewrite insert_after.
Qed.

Lemma moveRightRow_eq pre row rest ch st :
  board st = pre ++ row :: rest → length row = SIZE →
  moveRightRow (length pre) ch st
  = Some (ch || negb (bool_decide (slideLineBack row = row)),
          set_board (pre ++ slideLineBack row :: rest)
            (foldl recordMerge st (lineMergesBack row))).
Proof.
  intros Hb Hlen. unfold moveRightRow.
  rewrite Hb, lookup_after. cbn [mbind option_bind].
  rewrite slideAndCombine_eq.
  fold (slideLine (reverse row)) (lineMerges (reverse row)).
  fold (slideLineBack row) (lineMergesBack row).
  rewrite arraysEqual_eq by (rewrite slideLineBack_length; lia).
  rewrite board_foldl_recordMerge, Hb.
  destruct (decide (row = slideLineBack row)) as [Heq|Hne].
  - rewrite bool_decide_eq_true_2 by done.
    rewrite (bool_decide_eq_true_2 (slideLineBack row = row)) by done.
    rewrite orb_false_r. rewrite <- Heq, <- Hb.
    by rewrite set_board_foldl_recordMerge, set_board_same.
  - rewrite bool_decide_eq_false_2 by done.
    rewrite (bool_decide_eq_false_2 (slideLineBack row = row)) by done.
    rewrite orb_true_r. by rewrite insert_after.
Qed.

Lemma set_board_recordLines M b lines st :
  recordLines M (set_board b st) lines = set_board b (recordLines M st lines).
Proof.
  unfold recordLines. revert st.
  induction lines as [|x lines IH]; intros st; [done|].
  cbn [foldl]. by rewrite <- set_board_foldl_recordMerge, IH.
Qed.

(** The loop over the rows, for a loop body that resolves one row. *)
Lemma forEach_rows body (F : list cell → list cell) (M : list cell → list Z) :
  (∀ pre row rest ch st,
     board st = pre ++ row :: rest → length row = SIZE →
     body (length pre) ch st
     = Some (ch || negb (bool_decide (F row = row)),
             set_board (pre ++ F row :: rest) (foldl recordMerge st (M row)))) →
  ∀ rest pre ch st,
    board st = pre ++ rest → Forall (λ row, length row = SIZE) rest →
    forEach body (seq (length pre) (length rest)) ch st
    = Some (ch || negb (bool_decide (map F rest = rest)),
            set_board (pre ++ map F rest) (recordLines M st rest)).
Proof.
  intros Hbody rest. induction rest as [|row rest IH]; intros pre ch st Hb Hrows.
  - cbn. rewrite orb_false_r, <- Hb. by rewrite set_board_same.
  - apply Forall_cons in Hrows as [Hrow Hrows].
    cbn [length seq forEach]. rewrite (Hbody pre row rest ch st Hb Hrow).
    cbn [mbind option_bind].
    pose proof (IH (pre ++ [F row])
                  (ch || negb (bool_decide (F row = row)))
                  (set_board (pre ++ F row :: rest)
                     (foldl recordMerge st (M row)))) as IH'.
    rewrite length_app in IH'. cbn [length] in IH'.
    replace (length pre + 1)%nat with (S (length pre)) in IH' by lia.
    rewrite IH'; [|by rewrite <- app_assoc|done].
    f_equal. f_equal.
    + rewrite <- orb_assoc. f_equal.
      destruct (decide (F row = row)) as [Heq|Hne].
      * rewrite (bool_decide_eq_true_2 _ Heq). cbn [negb orb].
        f_equal. apply bool_decide_ext. cbn [map]. rewrite Heq.
        split; [by intros -> | by intros [= ->]].
      * rewrite (bool_decide_eq_false_2 _ Hne). cbn [negb orb].
        symmetry. rewrite negb_true_iff. apply bool_decide_eq_false_2.
        cbn [map]. by intros [= ? _].
    + rewrite set_board_recordLines. cbn [map].
      rewrite <- app_assoc. done.
Qed.

End ClosedForm.

Lemma list_length_4 {A} (l : list A) :
  length l = SIZE → ∃ a b c d, l = [a; b; c; d].
Proof.
  destruct l as [|a [|b [|c [|d [|]]]]]; try done. intros _. by exists a, b, c, d.
Qed.

Lemma wfBoard_cells b :
  wfBoard b →
  ∃ r0 r1 r2 r3, b = [r0; r1; r2; r3]
    ∧ length r0 = SIZE ∧ length r1 = SIZE
    ∧ length r2 = SIZE ∧ length r3 = SIZE.
Proof.
  intros [Hlen Hrows].
  destruct (list_length_4 b Hlen) as (r0 & r1 & r2 & r3 & ->).
  rewrite !Forall_cons in Hrows. destruct Hrows as (? & ? & ? & ? & _).
  by exists r0, r1, r2, r3.
Qed.

Ltac explicit_board b H :=
  let r0 := fresh "r0" in let r1 := fresh "r1" in
  let r2 := fresh "r2" in let r3 := fresh "r3" in
  let H0 := fresh "H0" in let H1 := fresh "H1" in
  let H2 := fresh "H2" in let H3 := fresh "H3" in
  destruct (wfBoard_cells b H) as (r0 & r1 & r2 & r3 & ? & H0 & H1 & H2 & H3);
  destruct (list_length_4 r0 H0) as (?a & ?a & ?a & ?a & ?);
  destruct (list_length_4 r1 H1) as (?b & ?b & ?b & ?b & ?);
  destruct (list_length_4 r2 H2) as (?c & ?c & ?c & ?c & ?);
  destruct (list_length_4 r3 H3) as (?d & ?d & ?d & ?d & ?);
  subst; clear H0 H1 H2 H3.

Ltac explicit_index c H :=
  destruct c as [|[|[|[|c]]]]; [| | | |unfold SIZE in H; lia].

Section Columns.

Lemma wfBoard_explicit (a0 a1 a2 a3 b0 b1 b2 b3 c0 c1 c2 c3 d0 d1 d2 d3 : cell) :
  wfBoard [[a0; a1; a2; a3]; [b0; b1; b2; b3];
           [c0; c1; c2; c3]; [d0; d1; d2; d3]].
Proof. split; [done|]. by repeat constructor. Qed.

Lemma readColumn_eq b c :
  wfBoard b → (c < SIZE)%nat → readColumn b c indices = Some (column b c).
Proof.
  intros Hwf Hc. explicit_board b Hwf. explicit_index c Hc; reflexivity.
Qed.

Lemma column_length b c : length (column b c) = length b.
Proof. unfold column. by rewrite length_map. Qed.

Lemma wfBoard_setColumn c nc b :
  wfBoard b → length nc = SIZE → wfBoard (setColumn c nc b).
Proof.
  intros Hwf Hnc. explicit_board b Hwf.
  destruct (list_length_4 nc Hnc) as (n0 & n1 & n2 & n3 & ->).
  unfold setColumn. cbn [zip_with]. split; [done|].
  repeat constructor; by rewrite length_insert.
Qed.

Lemma column_setColumn_ne c c' nc b :
  wfBoard b → length nc = SIZE → c ≠ c' →
  column (setColumn c nc b) c' = column b c'.
Proof.
  intros Hwf Hnc Hne. explicit_board b Hwf.
  destruct (list_length_4 nc Hnc) as (n0 & n1 & n2 & n3 & ->).
  unfold setColumn, column. cbn [zip_with map].
  by rewrite !list_lookup_insert_ne.
Qed.

Lemma setColumn_column c b : wfBoard b → setColumn c (column b c) b = b.
Proof.
  intros Hwf. explicit_board b Hwf.
  destruct c as [|[|[|[|c]]]]; reflexivity.
Qed.

Lemma writeColumn_eq c nc ch b :
  wfBoard b → length nc = SIZE → (c < SIZE)%nat →
  writeColumn c nc indices ch b
  = Some (ch || negb (bool_decide (nc = column b c)), setColumn c nc b).
Proof.
  intros Hwf Hnc Hc. explicit_board b Hwf.
  destruct (list_length_4 nc Hnc) as (n0 & n1 & n2 & n3 & ->).
  explicit_index c Hc; cbn -[bool_decide];
    repeat (case_decide; subst; cbn -[bool_decide]);
    try congruence;
    try (rewrite bool_decide_eq_true_2 by done);
    try (rewrite bool_decide_eq_false_2 by congruence);
    cbn; rewrite ?orb_false_r, ?orb_true_r; reflexivity.
Qed.

Lemma moveUpColumn_eq c ch st :
  wfBoard (board st) → (c < SIZE)%nat →
  moveUpColumn c ch st
  = Some (ch || negb (bool_decide (slideLine (column (board st) c)
                                   = column (board st) c)),
          set_board (setColumn c (slideLine (column (board st) c)) (board st))
            (foldl recordMerge st (lineMerges (column (board st) c)))).
Proof.
  intros Hwf Hc. unfold moveUpColumn.
  rewrite (readColumn_eq _ _ Hwf Hc). cbn [mbind option_bind].
  rewrite slideAndCombine_eq.
  fold (slideLine (column (board st) c)) (lineMerges (column (board st) c)).
  rewrite board_foldl_recordMerge.
  rewrite writeColumn_eq;
    [done | done | | done].
  apply slideLine_length. rewrite column_length. by destruct Hwf as [-> _].
Qed.

Lemma moveDownColumn_eq c ch st :
  wfBoard (board st) → (c < SIZE)%nat →
  moveDownColumn c ch st
  = Some (ch || negb (bool_decide (slideLineBack (column (board st) c)
                                   = column (board st) c)),
          set_board
            (setColumn c (slideLineBack (column (board st) c)) (board st))
            (foldl recordMerge st (lineMergesBack (column (board st) c)))).
Proof.
  intros Hwf Hc. unfold moveDownColumn.
  rewrite (readColumn_eq _ _ Hwf Hc). cbn [mbind option_bind].
  rewrite slideAndCombine_eq.
  fold (slideLine (reverse (column (board st) c)))
       (lineMerges (reverse (column (board st) c))).
  fold (slideLineBack (column (board st) c))
       (lineMergesBack (column (board st) c)).
  rewrite board_foldl_recordMerge.
  rewrite writeColumn_eq;
    [done | done | | done].
  apply slideLineBack_length. rewrite column_length. by destruct Hwf as [-> _].
Qed.

End Columns.

Section Moves.

Lemma moveLeft_eq st :
  wfBoard (board st) →
  moveLeft st
  = Some (negb (bool_decide (map slideLine (board st) = board st)),
          set_board (map slideLine (board st))
            (recordLines lineMerges st (board st))).
Proof.
  intros [Hlen Hrows]. unfold moveLeft, indices. rewrite <- Hlen.
  apply (forEach_rows moveLeftRow slideLine lineMerges moveLeftRow_eq
           (board st) [] false st); done.
Qed.

Lemma moveRight_eq st :
  wfBoard (board st) →
  moveRight st
  = Some (negb (bool_decide (map slideLineBack (board st) = board st)),
          set_board (map slideLineBack (board st))
            (recordLines lineMergesBack st (board st))).
Proof.
  intros [Hlen Hrows]. unfold moveRight, indices. rewrite <- Hlen.
  apply (forEach_rows moveRightRow slideLineBack lineMergesBack
           moveRightRow_eq (board st) [] false st); done.
Qed.

Lemma transpose_involutive b : wfBoard b → transpose (transpose b) = b.
Proof. intros Hwf. explicit_board b Hwf. reflexivity. Qed.

Lemma wfBoard_transpose b : wfBoard b → wfBoard (transpose b).
Proof. intros Hwf. explicit_board b Hwf. apply wfBoard_explicit. Qed.

Lemma wfBoard_map (F : list cell → list cell) b :
  (∀ line, length line = SIZE → length (F line) = SIZE) →
  wfBoard b → wfBoard (map F b).
Proof.
  intros HF [Hlen Hrows]. split; [by rewrite length_map|].
  apply Forall_fmap. eapply Forall_impl; [exact Hrows|]. intros row. apply HF.
Qed.

Lemma transpose_columns b c :
  wfBoard b → (c < SIZE)%nat → transpose b !! c = Some (column b c).
Proof. intros Hwf Hc. explicit_index c Hc; reflexivity. Qed.

(** The loop over the columns, for a loop body that resolves one column. *)
Lemma forEach_columns body (F : list cell → list cell) (M : list cell → list Z) :
  (∀ c ch st,
     wfBoard (board st) → (c < SIZE)%nat →
     body c ch st
     = Some (ch || negb (bool_decide (F (column (board st) c)
                                      = column (board st) c)),
             set_board (setColumn c (F (column (board st) c)) (board st))
               (foldl recordMerge st (M (column (board st) c))))) →
  (∀ line, length line = SIZE → length (F line) = SIZE) →
  ∀ st,
    wfBoard (board st) →
    forEach body indices false st
    = Some (negb (bool_decide
                    (transpose (map F (transpose (board st))) = board st)),
            set_board (transpose (map F (transpose (board st))))
              (recordLines M st (transpose (board st)))).
Proof.
  intros Hbody HF st Hwf.
  assert (Hcol : ∀ c, length (column (board st) c) = SIZE).
  { intros c. rewrite column_length. by destruct Hwf. }
  pose proof (HF _ (Hcol 0%nat)) as HF0. pose proof (HF _ (Hcol 1%nat)) as HF1.
  pose proof (HF _ (Hcol 2%nat)) as HF2. pose proof (HF _ (Hcol 3%nat)) as HF3.
  unfold indices. cbn [seq SIZE forEach].
  (* column 0 *)
  rewrite Hbody by (done || (unfold SIZE; lia)). cbn [mbind option_bind].
  set (b1 := setColumn 0 _ _).
  assert (Hwf1 : wfBoard b1) by (by apply wfBoard_setColumn).
  (* column 1 *)
  rewrite Hbody by (done || (unfold SIZE; lia)). cbn [mbind option_bind].
  cbn [board set_board].
  set (b2 := setColumn 1 _ _).
  assert (H1 : column b1 1 = column (board st) 1)
    by (by apply column_setColumn_ne).
  assert (Hwf2 : wfBoard b2).
  { apply wfBoard_setColumn; [done|]. by rewrite H1. }
  (* column 2 *)
  rewrite Hbody by (done || (unfold SIZE; lia)). cbn [mbind option_bind].
  cbn [board set_board].
  set (b3 := setColumn 2 _ _).
  assert (H2 : column b2 2 = column (board st) 2).
  { unfold b2. rewrite column_setColumn_ne; [|done|by rewrite H1|done].
    by apply column_setColumn_ne. }
  assert (Hwf3 : wfBoard b3).
  { apply wfBoard_setColumn; [done|]. by rewrite H2. }
  (* column 3 *)
  rewrite Hbody by (done || (unfold SIZE; lia)). cbn [mbind option_bind].
  cbn [board set_board].
  assert (H3 : column b3 3 = column (board st) 3).
  { unfold b3. rewrite column_setColumn_ne; [|done|by rewrite H2|done].
    unfold b2. rewrite column_setColumn_ne; [|done|by rewrite H1|done].
    by apply column_setColumn_ne. }
  rewrite H3, H2, H1.
  repeat first [ rewrite <- set_board_foldl_recordMerge
               | rewrite set_board_set_board ].
  unfold b3. rewrite ?H2. unfold b2. rewrite ?H1. unfold b1.
  clear b1 b2 b3 Hwf1 Hwf2 Hwf3 H1 H2 H3.
  assert (Hboard :
    setColumn 3 (F (column (board st) 3))
      (setColumn 2 (F (column (board st) 2))
         (setColumn 1 (F (column (board st) 1))
            (setColumn 0 (F (column (board st) 0)) (board st))))
    = transpose (map F (transpose (board st)))).
  { destruct (list_length_4 _ HF0) as (x0 & x1 & x2 & x3 & Hx).
    destruct (list_length_4 _ HF1) as (y0 & y1 & y2 & y3 & Hy).
    destruct (list_length_4 _ HF2) as (z0 & z1 & z2 & z3 & Hz).
    destruct (list_length_4 _ HF3) as (w0 & w1 & w2 & w3 & Hw).
    unfold transpose at 2. unfold indices. cbn [seq SIZE map].
    rewrite Hx, Hy, Hz, Hw.
    generalize (board st) Hwf. clear. intros b Hwf.
    explicit_board b Hwf. reflexivity. }
  rewrite Hboard. f_equal. f_equal.
  assert (Hiff :
      transpose (map F (transpose (board st))) = board st
      ↔ F (column (board st) 0) = column (board st) 0
        ∧ F (column (board st) 1) = column (board st) 1
        ∧ F (column (board st) 2) = column (board st) 2
        ∧ F (column (board st) 3) = column (board st) 3).
    { split.
      - intros Heq.
        assert (Ht : map F (transpose (board st)) = transpose (board st)).
        { rewrite <- Heq at 2. rewrite transpose_involutive; [done|].
          apply wfBoard_map; [exact HF|]. by apply wfBoard_transpose. }
        unfold transpose, indices in Ht. cbn [seq SIZE map] in Ht.
        by injection Ht as -> -> -> ->.
      - intros (E0 & E1 & E2 & E3).
        rewrite <- (transpose_involutive (board st) Hwf) at 2.
        f_equal. unfold transpose, indices. cbn [seq SIZE map].
        by rewrite E0, E1, E2, E3. }
    cbn [orb].
    destruct (decide (F (column (board st) 0) = column (board st) 0));
    destruct (decide (F (column (board st) 1) = column (board st) 1));
    destruct (decide (F (column (board st) 2) = column (board st) 2));
    destruct (decide (F (column (board st) 3) = column (board st) 3));
    repeat first
      [ rewrite (bool_decide_eq_true_2 (F _ = _)) by done
      | rewrite (bool_decide_eq_false_2 (F _ = _)) by done ];
    cbn [negb orb];
    first [ rewrite bool_decide_eq_true_2 by (apply Hiff; done); done
          | rewrite bool_decide_eq_false_2 by (rewrite Hiff; tauto); done ].
Qed.

Lemma moveUp_eq st :
  wfBoard (board st) →
  moveUp st
  = Some (negb (bool_decide
                  (transpose (map slideLine (transpose (board st)))
                   = board st)),
          set_board (transpose (map slideLine (transpose (board st))))
            (recordLines lineMerges st (transpose (board st)))).
Proof.
  intros Hwf. unfold moveUp.
  apply (forEach_columns moveUpColumn slideLine lineMerges); [|  |done].
  - intros. by apply moveUpColumn_eq.
  - intros line Hlen. apply slideLine_length. lia.
Qed.

Lemma moveDown_eq st :
  wfBoard (board st) →
  moveDown st
  = Some (negb (bool_decide
                  (transpose (map slideLineBack (transpose (board st)))
                   = board st)),
          set_board (transpose (map slideLineBack (transpose (board st))))
            (recordLines lineMergesBack st (transpose (board st)))).
Proof.
  intros Hwf. unfold moveDown.
  apply (forEach_columns moveDownColumn slideLineBack lineMergesBack);
    [| |done].
  - intros. by apply moveDownColumn_eq.
  - intros line Hlen. apply slideLineBack_length. lia.
Qed.

End Moves.

Section Symmetry.

Lemma dispatchKey_eq k st :
  wfBoard (board st) →
  dispatchKey k st
  = Some (negb (bool_decide (resolveBoard k (board st) = board st)),
          set_board (resolveBoard k (board st)) (recordMove k st)).
Proof.
  intros Hwf. destruct k; cbn [dispatchKey resolveBoard recordMove].
  - by apply moveLeft_eq.
  - by apply moveRight_eq.
  - by apply moveUp_eq.
  - by apply moveDown_eq.
  - by rewrite bool_decide_eq_true_2, set_board_same.
Qed.

Lemma mirror_involutive b : mirror (mirror b) = b.
Proof.
  unfold mirror. rewrite map_map. rewrite <- (map_id b) at 2.
  apply map_ext. intros row. apply reverse_involutive.
Qed.

Lemma wfBoard_mirror b : wfBoard b → wfBoard (mirror b).
Proof.
  intros Hwf. apply wfBoard_map; [|done]. intros line.
  by rewrite length_reverse.
Qed.

Lemma recordLines_map M (f : list cell → list cell) st lines :
  recordLines M st (map f lines) = recordLines (λ line, M (f line)) st lines.
Proof.
  unfold recordLines. revert st.
  induction lines as [|x lines IH]; intros st; [done|]. cbn [map foldl].
  apply IH.
Qed.

Lemma board_recordLines M st lines : board (recordLines M st lines) = board st.
Proof.
  unfold recordLines. revert st.
  induction lines as [|x lines IH]; intros st; [done|]. cbn [foldl].
  by rewrite IH, board_foldl_recordMerge.
Qed.

Lemma mirror_slideLine b : mirror (map slideLine (mirror b)) = map slideLineBack b.
Proof. unfold mirror. by rewrite !map_map. Qed.

Lemma recordLines_mirror st b :
  recordLines lineMerges st (mirror b) = recordLines lineMergesBack st b.
Proof. unfold mirror. by rewrite recordLines_map. Qed.

End Symmetry.

(** X1. The move functions are one algorithm seen through the symmetries of
    the board: [moveRight] is [moveLeft] on the mirrored board, [moveUp] is
    [moveLeft] on the transposed board and [moveDown] is [moveRight] on
    the transposed board; the value returned, the score, the win flag and
    the overlay are the same, and the boards correspond through the
    symmetry. *)
Theorem moves_by_symmetry (st : State) :
  wfBoard (board st) →
  moveRight st = onResult mirror <$> moveLeft (onBoard mirror st)
  ∧ moveUp st = onResult transpose <$> moveLeft (onBoard transpose st)
  ∧ moveDown st = onResult transpose <$> moveRight (onBoard transpose st).
Proof.
  intros Hwf.
  pose proof (wfBoard_mirror _ Hwf) as Hm.
  pose proof (wfBoard_transpose _ Hwf) as Ht.
  split; [|split].
  - rewrite moveRight_eq by done.
    rewrite moveLeft_eq by done.
    unfold onResult, onBoard. cbn [fmap option_fmap option_map fst snd board
      set_board].
    rewrite set_board_set_board, set_board_recordLines, set_board_set_board.
    rewrite mirror_slideLine, recordLines_mirror.
    f_equal. f_equal. f_equal. apply bool_decide_ext. split.
    + intros Heq.
      rewrite <- (mirror_involutive (map slideLine (mirror (board st)))).
      by rewrite mirror_slideLine, Heq.
    + intros Heq. by rewrite <- mirror_slideLine, Heq, mirror_involutive.
  - rewrite moveUp_eq by done.
    rewrite moveLeft_eq by done.
    unfold onResult, onBoard. cbn [fmap option_fmap option_map fst snd board
      set_board].
    rewrite set_board_set_board, set_board_recordLines, set_board_set_board.
    f_equal. f_equal. f_equal. apply bool_decide_ext. split.
    + intros Heq.
      rewrite <- (transpose_involutive
                    (map slideLine (transpose (board st)))).
      * by rewrite Heq.
      * apply wfBoard_map; [|done]. intros line Hl.
        apply slideLine_length. lia.
    + intros Heq. rewrite Heq. by apply transpose_involutive.
  - rewrite moveDown_eq by done.
    rewrite moveRight_eq by done.
    unfold onResult, onBoard. cbn [fmap option_fmap option_map fst snd board
      set_board].
    rewrite set_board_set_board, set_board_recordLines, set_board_set_board.
    f_equal. f_equal. f_equal. apply bool_decide_ext. split.
    + intros Heq.
      rewrite <- (transpose_involutive
                    (map slideLineBack (transpose (board st)))).
      * by rewrite Heq.
      * apply wfBoard_map; [|done]. intros line Hl.
        apply slideLineBack_length. lia.
    + intros Heq. rewrite Heq. by apply transpose_involutive.
Qed.

Lemma moves_by_symmetry_witness :
  wfBoard (board exampleState)
  ∧ moveRight exampleState
    = onResult mirror <$> moveLeft (onBoard mirror exampleState)
  ∧ moveUp exampleState
    = onResult transpose <$> moveLeft (onBoard transpose exampleState)
  ∧ moveDown exampleState
    = onResult transpose <$> moveRight (onBoard transpose exampleState).
Proof.
  split; [apply wfBoard_explicit|].
  apply (moves_by_symmetry exampleState). apply wfBoard_explicit.
Defined.

(** X2. A move function returns [true] exactly when the board it leaves
    differs from the board it found. *)
Theorem move_returns_true_iff_board_changed (k : Key) (st : State)
    (moved : bool) (st' : State) :
  wfBoard (board st) →
  dispatchKey k st = Some (moved, st') →
  (moved = true ↔ board st' ≠ board st)
  ∧ (moved = false ↔ st' = st).
Proof.
  intros Hwf Hk. pose proof Hk as Hk'.
  rewrite dispatchKey_eq in Hk by done. injection Hk as <- <-.
  cbn [board set_board].
  assert (Hchanged :
    negb (bool_decide (resolveBoard k (board st) = board st)) = true
    ↔ resolveBoard k (board st) ≠ board st).
  { by rewrite negb_true_iff, bool_decide_eq_false. }
  split; [done|]. split.
  - intros Hfalse. rewrite Hfalse in Hk'.
    by apply (dispatchKey_unchanged k st).
  - intros Heq. apply not_true_iff_false. rewrite Hchanged.
    intros Hne. apply Hne. by rewrite <- Heq at 2.
Qed.

Lemma move_returns_true_iff_board_changed_witness :
  ∃ st', dispatchKey ArrowLeft exampleState = Some (true, st')
         ∧ (true = true ↔ board st' ≠ board exampleState)
         ∧ (true = false ↔ st' = exampleState).
Proof.
  eexists. split; [vm_compute; reflexivity|].
  apply (move_returns_true_iff_board_changed ArrowLeft exampleState).
  - apply wfBoard_explicit.
  - vm_compute; reflexivity.
Defined.

(** ** What a move does to the tiles *)

Section Conservation.

(** Induction along the merge sweep: a tile alone, two equal tiles, two
    different tiles. *)
Lemma merge_ind (P : list Z → Prop) :
  P [] → (∀ a, P [a]) →
  (∀ a rest, P rest → P (a :: a :: rest)) →
  (∀ a b rest, a ≠ b → P (b :: rest) → P (a :: b :: rest)) →
  ∀ vs, P vs.
Proof.
  intros Hnil Hone Hpair Hdiff vs.
  assert (Hall : ∀ n vs, (length vs ≤ n)%nat → P vs);
    [|by apply (Hall (length vs))].
  clear vs. induction n as [|n IH]; intros vs Hle.
  { destruct vs; simpl in *; [done | lia]. }
  destruct vs as [|a [|b rest]]; [done | done |].
  cbn [length] in Hle. destruct (decide (a = b)) as [->|Hab].
  - apply Hpair, IH. lia.
  - apply Hdiff; [done|]. apply IH. cbn [length]. lia.
Qed.

Lemma mergeTiles_pair a rest :
  mergeTiles (a :: a :: rest) = 2 * a :: mergeTiles rest.
Proof. by rewrite mergeTiles_step, decide_True. Qed.

Lemma mergeTiles_diff a b rest :
  a ≠ b → mergeTiles (a :: b :: rest) = a :: mergeTiles (b :: rest).
Proof. intros. by rewrite mergeTiles_step, decide_False. Qed.

Lemma mergeResults_pair a rest :
  mergeResults (a :: a :: rest) = 2 * a :: mergeResults rest.
Proof. by rewrite mergeResults_step, decide_True. Qed.

Lemma mergeResults_diff a b rest :
  a ≠ b → mergeResults (a :: b :: rest) = mergeResults (b :: rest).
Proof. intros. by rewrite mergeResults_step, decide_False. Qed.

Lemma sumZ_cons a l : sumZ (a :: l) = a + sumZ l.
Proof. done. Qed.

Lemma sumZ_app l1 l2 : sumZ (l1 ++ l2) = sumZ l1 + sumZ l2.
Proof.
  induction l1 as [|a l1 IH]; [done|].
  cbn [app]. rewrite !sumZ_cons, IH. lia.
Qed.

Lemma sumZ_reverse l : sumZ (reverse l) = sumZ l.
Proof.
  induction l as [|a l IH]; [done|].
  rewrite reverse_cons, sumZ_app, IH, !sumZ_cons. unfold sumZ at 2. simpl. lia.
Qed.

Lemma mergeTiles_sum vs : sumZ (mergeTiles vs) = sumZ vs.
Proof.
  induction vs as [| |a rest IH|a b rest Hab IH] using merge_ind; try done.
  - rewrite mergeTiles_pair, !sumZ_cons, IH. lia.
  - rewrite mergeTiles_diff by done. by rewrite !sumZ_cons, IH.
Qed.

(** Every merge doubles a tile of the line and its result is a tile of the
    resolved line. *)
Lemma mergeResults_doubles vs :
  Forall (λ m, ∃ v, m = 2 * v ∧ v ∈ vs ∧ m ∈ mergeTiles vs) (mergeResults vs).
Proof.
  induction vs as [| |a rest IH|a b rest Hab IH] using merge_ind;
    [by constructor | by constructor | |].
  - rewrite mergeResults_pair, mergeTiles_pair. constructor.
    + exists a. split; [done|]. split; apply elem_of_cons; by left.
    + eapply Forall_impl; [exact IH|].
      intros m (v & -> & Hv & Hm). exists v. split; [done|].
      split; apply elem_of_cons; right; [|done].
      apply elem_of_cons; by right.
  - rewrite mergeResults_diff, mergeTiles_diff by done.
    eapply Forall_impl; [exact IH|].
    intros m (v & -> & Hv & Hm). exists v. split; [done|].
    split; apply elem_of_cons; by right.
Qed.

(** Every tile of the resolved line is a tile of the line or the double of
    one. *)
Lemma mergeTiles_from vs :
  Forall (λ t, t ∈ vs ∨ ∃ v, t = 2 * v ∧ v ∈ vs) (mergeTiles vs).
Proof.
  induction vs as [|a|a rest IH|a b rest Hab IH] using merge_ind.
  - constructor.
  - constructor; [|constructor]. left. apply elem_of_cons; by left.
  - rewrite mergeTiles_pair. constructor.
    + right. exists a. split; [done|]. apply elem_of_cons; by left.
    + eapply Forall_impl; [exact IH|].
      intros t [Ht|(v & -> & Hv)].
      * left. apply elem_of_cons; right. apply elem_of_cons; by right.
      * right. exists v. split; [done|].
        apply elem_of_cons; right. apply elem_of_cons; by right.
  - rewrite mergeTiles_diff by done. constructor.
    + left. apply elem_of_cons; by left.
    + eapply Forall_impl; [exact IH|].
      intros t [Ht|(v & -> & Hv)].
      * left. apply elem_of_cons; by right.
      * right. exists v. split; [done|]. apply elem_of_cons; by right.
Qed.

Lemma tiles_slideLine line : tiles (slideLine line) = mergeTiles (tiles line).
Proof. unfold slideLine. apply tiles_padToSize. Qed.

Lemma tiles_slideLineBack line :
  tiles (slideLineBack line) = reverse (mergeTiles (reverse (tiles line))).
Proof.
  unfold slideLineBack. by rewrite tiles_reverse, tiles_slideLine, tiles_reverse.
Qed.

Lemma elem_of_tiles v line : v ∈ tiles line ↔ Some v ∈ line.
Proof.
  induction line as [|[w|] line IH]; cbn [tiles].
  - by rewrite !elem_of_nil.
  - rewrite !elem_of_cons, IH. split.
    + intros [->|?]; auto.
    + intros [[= ->]|?]; auto.
  - rewrite elem_of_cons, IH. split; [auto|]. by intros [?|?].
Qed.

Lemma sumZ_tiles line : sumZ (tiles line) = sumZ (map cellValue line).
Proof.
  induction line as [|[w|] line IH]; cbn [tiles map]; [done| |].
  - by rewrite !sumZ_cons, IH.
  - rewrite sumZ_cons, IH. cbn. lia.
Qed.

Lemma length_tiles line :
  length (tiles line) = foldr Nat.add 0%nat (map cellCount line).
Proof.
  induction line as [|[w|] line IH]; cbn [tiles map foldr length cellCount];
    [done| |]; by rewrite IH.
Qed.

(** The three measures of a line that a sweep is judged by. *)
Lemma slideLine_measures line :
  sumZ (tiles (slideLine line)) = sumZ (tiles line)
  ∧ (length (tiles (slideLine line)) + length (lineMerges line))%nat
    = length (tiles line)
  ∧ Forall (λ m, ∃ v, m = 2 * v ∧ v ∈ tiles line ∧ m ∈ tiles (slideLine line))
      (lineMerges line)
  ∧ Forall (λ t, t ∈ tiles line ∨ ∃ v, t = 2 * v ∧ v ∈ tiles line)
      (tiles (slideLine line)).
Proof.
  rewrite tiles_slideLine. unfold lineMerges.
  split; [apply mergeTiles_sum|]. split; [apply merge_count|].
  split; [apply mergeResults_doubles | apply mergeTiles_from].
Qed.

Lemma slideLineBack_measures line :
  sumZ (tiles (slideLineBack line)) = sumZ (tiles line)
  ∧ (length (tiles (slideLineBack line)) + length (lineMergesBack line))%nat
    = length (tiles line)
  ∧ Forall (λ m, ∃ v, m = 2 * v ∧ v ∈ tiles line
                      ∧ m ∈ tiles (slideLineBack line))
      (lineMergesBack line)
  ∧ Forall (λ t, t ∈ tiles line ∨ ∃ v, t = 2 * v ∧ v ∈ tiles line)
      (tiles (slideLineBack line)).
Proof.
  destruct (slideLine_measures (reverse line)) as (Hs & Hc & Hm & Ht).
  unfold slideLineBack, lineMergesBack.
  rewrite tiles_reverse in *. rewrite sumZ_reverse, length_reverse in *.
  split; [done|]. split; [done|]. split.
  - eapply Forall_impl; [exact Hm|].
    intros m (v & -> & Hv & Hin). exists v. split; [done|].
    by rewrite elem_of_reverse in *.
  - apply Forall_reverse. eapply Forall_impl; [exact Ht|].
    intros t [Hin|(v & -> & Hv)]; rewrite elem_of_reverse in *; eauto.
Qed.

End Conservation.

Section BoardMeasures.

Lemma resolved_nil : resolved [] [] [].
Proof. by repeat split. Qed.

Lemma resolved_app b1 a1 m1 b2 a2 m2 :
  resolved b1 a1 m1 → resolved b2 a2 m2 →
  resolved (b1 ++ b2) (a1 ++ a2) (m1 ++ m2).
Proof.
  intros (Hs1 & Hc1 & Hm1 & Ht1) (Hs2 & Hc2 & Hm2 & Ht2).
  split; [rewrite !sumZ_app; lia|].
  split; [rewrite !length_app; lia|].
  split; apply Forall_app; split.
  - eapply Forall_impl; [exact Hm1|]. intros m (v & -> & ? & ?).
    exists v. rewrite !elem_of_app. auto.
  - eapply Forall_impl; [exact Hm2|]. intros m (v & -> & ? & ?).
    exists v. rewrite !elem_of_app. auto.
  - eapply Forall_impl; [exact Ht1|]. intros t [?|(v & -> & ?)].
    + left. rewrite elem_of_app. auto.
    + right. exists v. rewrite elem_of_app. auto.
  - eapply Forall_impl; [exact Ht2|]. intros t [?|(v & -> & ?)].
    + left. rewrite elem_of_app. auto.
    + right. exists v. rewrite elem_of_app. auto.
Qed.

(** Two lists of tiles that count the same: same sum, same length, same
    members. *)
Lemma resolved_same before before' after after' merged :
  sumZ before' = sumZ before → length before' = length before →
  (∀ v, v ∈ before' ↔ v ∈ before) →
  sumZ after' = sumZ after → length after' = length after →
  (∀ v, v ∈ after' ↔ v ∈ after) →
  resolved before after merged → resolved before' after' merged.
Proof.
  intros Hs Hl He Hs' Hl' He' (H1 & H2 & H3 & H4).
  split; [lia|]. split; [lia|]. split.
  - eapply Forall_impl; [exact H3|]. intros m (v & -> & ? & ?).
    exists v. rewrite He, He'. auto.
  - apply Forall_forall. intros t Ht. apply He' in Ht.
    rewrite Forall_forall in H4. destruct (H4 t Ht) as [?|(v & -> & ?)].
    + left. by apply He.
    + right. exists v. split; [done|]. by apply He.
Qed.

Lemma boardTiles_cons row b : boardTiles (row :: b) = tiles row ++ boardTiles b.
Proof. unfold boardTiles. cbn [concat]. apply tiles_app. Qed.

Lemma rows_resolved (F : list cell → list cell) (M : list cell → list Z) b :
  (∀ line, resolved (tiles line) (tiles (F line)) (M line)) →
  resolved (boardTiles b) (boardTiles (map F b)) (concat (map M b)).
Proof.
  intros HF. induction b as [|row b IH]; [apply resolved_nil|].
  cbn [map concat]. rewrite !boardTiles_cons. by apply resolved_app.
Qed.

Lemma boardTiles_transpose b :
  wfBoard b →
  sumZ (boardTiles (transpose b)) = sumZ (boardTiles b)
  ∧ length (boardTiles (transpose b)) = length (boardTiles b)
  ∧ ∀ v, v ∈ boardTiles (transpose b) ↔ v ∈ boardTiles b.
Proof.
  intros Hwf. explicit_board b Hwf. unfold boardTiles.
  split; [|split].
  - rewrite !sumZ_tiles. unfold sumZ. cbn -[Z.add cellValue]. lia.
  - rewrite !length_tiles. cbn -[Nat.add cellCount]. lia.
  - intros v. rewrite !elem_of_tiles. cbn.
    rewrite !elem_of_cons, elem_of_nil. tauto.
Qed.

Lemma slideLine_resolved line :
  resolved (tiles line) (tiles (slideLine line)) (lineMerges line).
Proof. apply slideLine_measures. Qed.

Lemma slideLineBack_resolved line :
  resolved (tiles line) (tiles (slideLineBack line)) (lineMergesBack line).
Proof. apply slideLineBack_measures. Qed.

Lemma columns_resolved (F : list cell → list cell) (M : list cell → list Z) b :
  (∀ line, resolved (tiles line) (tiles (F line)) (M line)) →
  (∀ line, length line = SIZE → length (F line) = SIZE) →
  wfBoard b →
  resolved (boardTiles b) (boardTiles (transpose (map F (transpose b))))
    (concat (map M (transpose b))).
Proof.
  intros HF Hlen Hwf.
  pose proof (wfBoard_transpose _ Hwf) as Ht.
  pose proof (wfBoard_map F _ Hlen Ht) as Hm.
  destruct (boardTiles_transpose b Hwf) as (Hs & Hl & He).
  destruct (boardTiles_transpose _ Hm) as (Hs' & Hl' & He').
  eapply resolved_same; [| | | | | |by apply (rows_resolved F M (transpose b))];
    done.
Qed.

Lemma moveMerges_resolved k b :
  wfBoard b →
  resolved (boardTiles b) (boardTiles (resolveBoard k b)) (moveMerges k b).
Proof.
  intros Hwf. destruct k; cbn [resolveBoard moveMerges].
  - apply rows_resolved, slideLine_resolved.
  - apply rows_resolved, slideLineBack_resolved.
  - apply columns_resolved; [apply slideLine_resolved| |done].
    intros line Hl. apply slideLine_length. lia.
  - apply columns_resolved; [apply slideLineBack_resolved| |done].
    intros line Hl. apply slideLineBack_length. lia.
  - split; [done|]. split; [by rewrite Nat.add_0_r|].
    split; [constructor|]. apply Forall_forall. auto.
Qed.

Lemma recordLines_concat M st lines :
  recordLines M st lines = foldl recordMerge st (concat (map M lines)).
Proof.
  unfold recordLines. revert st.
  induction lines as [|x lines IH]; intros st; [done|].
  cbn [foldl map concat]. by rewrite foldl_app, IH.
Qed.

Lemma recordMove_eq k st :
  recordMove k st = foldl recordMerge st (moveMerges k (board st)).
Proof. destruct k; cbn [recordMove moveMerges]; by rewrite ?recordLines_concat. Qed.

Lemma wfBoard_resolveBoard k b : wfBoard b → wfBoard (resolveBoard k b).
Proof.
  intros Hwf. destruct k; cbn [resolveBoard]; [| | | |done].
  - apply wfBoard_map; [|done]. intros line Hl. apply slideLine_length. lia.
  - apply wfBoard_map; [|done]. intros line Hl.
    apply slideLineBack_length. lia.
  - apply wfBoard_transpose, wfBoard_map; [|by apply wfBoard_transpose].
    intros line Hl. apply slideLine_length. lia.
  - apply wfBoard_transpose, wfBoard_map; [|by apply wfBoard_transpose].
    intros line Hl. apply slideLineBack_length. lia.
Qed.

(** A move in one equation: the value returned, the board and the globals
    after the merges. *)
Lemma dispatchKey_moveMerges k st :
  wfBoard (board st) →
  dispatchKey k st
  = Some (negb (bool_decide (resolveBoard k (board st) = board st)),
          set_board (resolveBoard k (board st))
            (foldl recordMerge st (moveMerges k (board st)))).
Proof. intros Hwf. by rewrite dispatchKey_eq, recordMove_eq. Qed.

End BoardMeasures.

(** X3. A move neither creates nor destroys tile value: the tiles of the board
    add up to the same sum before and after; every merge replaces two
    tiles by one, which is the double of a tile of the old board; the score
    grows by the sum of the tiles the merges made; every tile of the new
    board is a tile of the old one or the double of one. *)
Theorem move_conserves_tiles (k : Key) (st : State) (moved : bool)
    (st' : State) :
  wfBoard (board st) →
  dispatchKey k st = Some (moved, st') →
  wfBoard (board st')
  ∧ sumZ (boardTiles (board st')) = sumZ (boardTiles (board st))
  ∧ ∃ merged : list Z,
      score st' = score st + sumZ merged
      ∧ (length (boardTiles (board st')) + length merged)%nat
        = length (boardTiles (board st))
      ∧ Forall (λ m, ∃ v, m = 2 * v ∧ v ∈ boardTiles (board st)
                          ∧ m ∈ boardTiles (board st')) merged
      ∧ Forall (λ t, t ∈ boardTiles (board st)
                     ∨ ∃ v, t = 2 * v ∧ v ∈ boardTiles (board st))
          (boardTiles (board st')).
Proof.
  intros Hwf Hk. rewrite dispatchKey_moveMerges in Hk by done.
  injection Hk as _ <-. cbn [board set_board score].
  destruct (moveMerges_resolved k (board st) Hwf) as (Hs & Hc & Hm & Ht).
  split; [by apply wfBoard_resolveBoard|]. split; [done|].
  exists (moveMerges k (board st)).
  split; [|done].
  apply foldl_recordMerge_score.
Qed.

Lemma move_conserves_tiles_witness :
  ∃ st',
    dispatchKey ArrowLeft exampleState = Some (true, st')
    ∧ wfBoard (board st')
    ∧ sumZ (boardTiles (board st')) = sumZ (boardTiles (board exampleState))
    ∧ ∃ merged : list Z,
        score st' = score exampleState + sumZ merged
        ∧ (length (boardTiles (board st')) + length merged)%nat
          = length (boardTiles (board exampleState))
        ∧ Forall (λ m, ∃ v, m = 2 * v ∧ v ∈ boardTiles (board exampleState)
                            ∧ m ∈ boardTiles (board st')) merged
        ∧ Forall (λ t, t ∈ boardTiles (board exampleState)
                       ∨ ∃ v, t = 2 * v ∧ v ∈ boardTiles (board exampleState))
            (boardTiles (board st')).
Proof.
  eexists. split; [vm_compute; reflexivity|].
  apply (move_conserves_tiles ArrowLeft exampleState true).
  - apply wfBoard_explicit.
  - vm_compute; reflexivity.
Defined.

(** ** Game over and the moves that are left *)

Section GameOver.

Lemma anyEmpty_true b ps :
  anyEmpty b ps = Some true →
  ∃ r c, (r, c) ∈ ps ∧ cellAt b r c = Some None.
Proof.
  induction ps as [|[r c] ps IH]; [done|]. cbn [anyEmpty].
  destruct (cellAt b r c) as [[v|]|] eqn:Hcell; cbn; [| |done].
  - intros (r' & c' & Hin & Hc)%IH. exists r', c'.
    split; [by apply elem_of_cons; right | done].
  - intros _. exists r, c. split; [by apply elem_of_cons; left | done].
Qed.

Lemma anyEmpty_false b ps :
  anyEmpty b ps = Some false →
  ∀ r c, (r, c) ∈ ps → ∃ v, cellAt b r c = Some (Some v).
Proof.
  induction ps as [|[r c] ps IH]; [by intros _ r c ?%elem_of_nil|].
  cbn [anyEmpty].
  destruct (cellAt b r c) as [[v|]|] eqn:Hcell; cbn; [|done|done].
  intros Hrest r' c' [[= -> ->]|Hin]%elem_of_cons; [by exists v|].
  by apply IH.
Qed.

Lemma anyEqualNeighbours_true b ps :
  anyEqualNeighbours b ps = Some true →
  ∃ r c cur,
    (r, c) ∈ ps ∧ cellAt b r c = Some cur
    ∧ (cellAt b (r + 1) c = Some cur ∨ cellAt b r (c + 1) = Some cur).
Proof.
  induction ps as [|[r c] ps IH]; [done|]. cbn [anyEqualNeighbours].
  destruct (cellAt b r c) as [cur|] eqn:Hcell; cbn [mbind option_bind];
    [|done].
  unfold equalAt.
  destruct (bool_decide (r < SIZE - 1)%nat).
  - destruct (cellAt b (r + 1) c) as [x|] eqn:Hbelow; cbn [mbind option_bind];
      [|done].
    destruct (bool_decide (x = cur)) eqn:Hx.
    { intros _. apply bool_decide_eq_true_1 in Hx as ->.
      exists r, c, cur. split; [by apply elem_of_cons; left|]. auto. }
    destruct (bool_decide (c < SIZE - 1)%nat).
    + destruct (cellAt b r (c + 1)) as [y|] eqn:Hright;
        cbn [mbind option_bind]; [|done].
      destruct (bool_decide (y = cur)) eqn:Hy.
      { intros _. apply bool_decide_eq_true_1 in Hy as ->.
        exists r, c, cur. split; [by apply elem_of_cons; left|]. auto. }
      intros (r' & c' & cur' & Hin & ?)%IH. exists r', c', cur'.
      split; [by apply elem_of_cons; right | done].
    + cbn [mbind option_bind].
      intros (r' & c' & cur' & Hin & ?)%IH. exists r', c', cur'.
      split; [by apply elem_of_cons; right | done].
  - cbn [mbind option_bind].
    destruct (bool_decide (c < SIZE - 1)%nat).
    + destruct (cellAt b r (c + 1)) as [y|] eqn:Hright;
        cbn [mbind option_bind]; [|done].
      destruct (bool_decide (y = cur)) eqn:Hy.
      { intros _. apply bool_decide_eq_true_1 in Hy as ->.
        exists r, c, cur. split; [by apply elem_of_cons; left|]. auto. }
      intros (r' & c' & cur' & Hin & ?)%IH. exists r', c', cur'.
      split; [by apply elem_of_cons; right | done].
    + cbn [mbind option_bind].
      intros (r' & c' & cur' & Hin & ?)%IH. exists r', c', cur'.
      split; [by apply elem_of_cons; right | done].
Qed.

(** A resolved line has its tiles first: no empty cell comes before a
    tile. *)
Lemma slideLine_fixed_order line i j v :
  slideLine line = line →
  line !! i = Some None → line !! j = Some (Some v) → (j < i)%nat.
Proof.
  unfold slideLine, padToSize. intros Heq Hi Hj.
  set (ms := mergeTiles (tiles line)) in *.
  rewrite <- Heq in Hi, Hj.
  destruct (decide (j < length ms)%nat) as [Hjl|Hjl].
  - destruct (decide (i < length ms)%nat) as [Hil|Hil]; [|lia].
    rewrite lookup_app_l in Hi by (by rewrite length_map).
    rewrite list_lookup_fmap in Hi. by destruct (ms !! i).
  - rewrite lookup_app_r in Hj by (rewrite length_map; lia).
    apply lookup_replicate in Hj as [? _]. done.
Qed.

Lemma slideLineBack_fixed line :
  slideLineBack line = line → slideLine (reverse line) = reverse line.
Proof.
  unfold slideLineBack. intros Heq. rewrite <- Heq at 2.
  by rewrite reverse_involutive.
Qed.

(** A line with a tile and an empty cell is changed by a move towards one
    of its two ends. *)
Lemma mixed_line_moves line i j v :
  line !! i = Some None → line !! j = Some (Some v) →
  slideLine line ≠ line ∨ slideLineBack line ≠ line.
Proof.
  intros Hi Hj.
  destruct (decide (slideLine line = line)) as [Hl|]; [|by left].
  destruct (decide (slideLineBack line = line)) as [Hr|]; [|by right].
  exfalso. pose proof (slideLine_fixed_order _ _ _ _ Hl Hi Hj) as Hlt.
  apply slideLineBack_fixed in Hr.
  pose proof (lookup_lt_Some _ _ _ Hi) as Hil.
  pose proof (lookup_lt_Some _ _ _ Hj) as Hjl.
  assert (Hi' : reverse line !! (length line - S i)%nat = Some None).
  { rewrite reverse_lookup by lia. rewrite <- Hi. f_equal. lia. }
  assert (Hj' : reverse line !! (length line - S j)%nat = Some (Some v)).
  { rewrite reverse_lookup by lia. rewrite <- Hj. f_equal. lia. }
  pose proof (slideLine_fixed_order _ _ _ _ Hr Hi' Hj'). lia.
Qed.

(** Two equal tiles side by side are merged. *)
Lemma mergeTiles_shrinks vs :
  ∀ c v, vs !! c = Some v → vs !! S c = Some v →
         (length (mergeTiles vs) < length vs)%nat.
Proof.
  induction vs as [|a|a rest IH|a b rest Hab IH] using merge_ind;
    intros c v Hc Hc'.
  - done.
  - by destruct c.
  - rewrite mergeTiles_pair. cbn [length].
    pose proof (mergeTiles_length rest). lia.
  - rewrite mergeTiles_diff by done. cbn [length].
    destruct c as [|c]; [cbn in Hc, Hc'; congruence|].
    specialize (IH c v Hc Hc'). cbn [length] in IH. lia.
Qed.

Lemma slideLine_fixed_tiles line :
  slideLine line = line →
  mergeTiles (tiles line) = tiles line
  ∧ line = map Some (tiles line)
             ++ replicate (SIZE - length (tiles line)) None.
Proof.
  intros Heq.
  assert (Ht : mergeTiles (tiles line) = tiles line).
  { by rewrite <- tiles_slideLine, Heq. }
  split; [done|]. rewrite <- Heq at 1. unfold slideLine, padToSize.
  by rewrite Ht, length_map.
Qed.

Lemma equal_pair_moves line c v :
  line !! c = Some (Some v) → line !! S c = Some (Some v) →
  slideLine line ≠ line.
Proof.
  intros Hc Hc' Heq.
  destruct (slideLine_fixed_tiles line Heq) as [Hm Hline].
  set (vs := tiles line) in *.
  assert (Hlook : ∀ i w, line !! i = Some (Some w) → vs !! i = Some w).
  { intros i w Hi. rewrite Hline in Hi.
    destruct (decide (i < length vs)%nat) as [Hil|Hil].
    - rewrite lookup_app_l in Hi by (by rewrite length_map).
      rewrite list_lookup_fmap in Hi.
      destruct (vs !! i); cbn in Hi; congruence.
    - rewrite lookup_app_r in Hi by (rewrite length_map; lia).
      by apply lookup_replicate in Hi as [? _]. }
  pose proof (mergeTiles_shrinks vs c v (Hlook _ _ Hc) (Hlook _ _ Hc')) as Hs.
  rewrite Hm in Hs. lia.
Qed.

Lemma equal_pair_moves_back line c v :
  line !! c = Some (Some v) → line !! S c = Some (Some v) →
  slideLineBack line ≠ line.
Proof.
  intros Hc Hc' Heq. apply slideLineBack_fixed in Heq.
  pose proof (lookup_lt_Some _ _ _ Hc').
  apply (equal_pair_moves (reverse line) (length line - S (S c)) v);
    [| |done].
  - rewrite reverse_lookup by lia. rewrite <- Hc'. f_equal. lia.
  - rewrite reverse_lookup by lia. rewrite <- Hc. f_equal. lia.
Qed.

Lemma map_fixed_lookup {A} (F : A → A) (l : list A) i x :
  map F l = l → l !! i = Some x → F x = x.
Proof.
  intros Heq Hi. pose proof Hi as Hi'. rewrite <- Heq in Hi'.
  rewrite list_lookup_fmap, Hi in Hi'. cbn in Hi'. congruence.
Qed.

Lemma transpose_fixed (F : list cell → list cell) b :
  (∀ line, length line = SIZE → length (F line) = SIZE) →
  wfBoard b →
  transpose (map F (transpose b)) = b → map F (transpose b) = transpose b.
Proof.
  intros HF Hwf Heq. rewrite <- Heq at 2.
  rewrite transpose_involutive; [done|].
  apply wfBoard_map; [done|]. by apply wfBoard_transpose.
Qed.

Lemma column_lookup b r c :
  wfBoard b → (r < SIZE)%nat → (c < SIZE)%nat →
  column b c !! r = cellAt b r c.
Proof.
  intros Hwf Hr Hc. explicit_board b Hwf.
  explicit_index r Hr; explicit_index c Hc; reflexivity.
Qed.

Lemma cellAt_lookup b r c x :
  cellAt b r c = Some x → ∃ row, b !! r = Some row ∧ row !! c = Some x.
Proof.
  unfold cellAt. destruct (b !! r) as [row|]; [|done]. cbn. by exists row.
Qed.

Lemma cellAt_valid b r c x :
  wfBoard b → cellAt b r c = Some x → (r < SIZE)%nat ∧ (c < SIZE)%nat.
Proof.
  intros Hwf (row & Hrow & Hx)%cellAt_lookup.
  pose proof (wfBoard_row _ _ _ Hwf Hrow) as Hlen.
  apply lookup_lt_Some in Hrow, Hx. destruct Hwf as [Hb _]. lia.
Qed.

(** A row that a move to the left or to the right changes. *)
Lemma row_moves b r row :
  b !! r = Some row →
  (slideLine row ≠ row → resolveBoard ArrowLeft b ≠ b)
  ∧ (slideLineBack row ≠ row → resolveBoard ArrowRight b ≠ b).
Proof.
  intros Hrow. split; intros Hne Heq; apply Hne;
    by eapply map_fixed_lookup.
Qed.

(** A column that a move up or down changes. *)
Lemma column_moves b c :
  wfBoard b → (c < SIZE)%nat →
  (slideLine (column b c) ≠ column b c → resolveBoard ArrowUp b ≠ b)
  ∧ (slideLineBack (column b c) ≠ column b c → resolveBoard ArrowDown b ≠ b).
Proof.
  intros Hwf Hc. pose proof (transpose_columns b c Hwf Hc) as Hcol.
  split; intros Hne Heq; apply Hne; cbn [resolveBoard] in Heq;
    apply transpose_fixed in Heq; try done.
  - by eapply map_fixed_lookup.
  - intros line Hl. apply slideLine_length. lia.
  - by eapply map_fixed_lookup.
  - intros line Hl. apply slideLineBack_length. lia.
Qed.

Lemma moved_of_changed k st :
  wfBoard (board st) → resolveBoard k (board st) ≠ board st →
  ∃ st', dispatchKey k st = Some (true, st').
Proof.
  intros Hwf Hne. rewrite dispatchKey_eq by done.
  rewrite bool_decide_eq_false_2 by done. by eexists.
Qed.

Lemma unmoved_of_fixed k st :
  wfBoard (board st) → resolveBoard k (board st) = board st →
  dispatchKey k st = Some (false, st).
Proof.
  intros Hwf Heq. pose proof (dispatchKey_eq k st Hwf) as Hk.
  rewrite bool_decide_eq_true_2 in Hk by done. cbn [negb] in Hk.
  pose proof (dispatchKey_unchanged _ _ _ Hk) as Hst. by rewrite Hst in Hk.
Qed.

(** A full line without two equal neighbours is left as it is in both
    directions. *)
Lemma slideLine_full_fixed (x0 x1 x2 x3 : Z) :
  x0 ≠ x1 → x1 ≠ x2 → x2 ≠ x3 →
  slideLine [Some x0; Some x1; Some x2; Some x3]
  = [Some x0; Some x1; Some x2; Some x3].
Proof.
  intros H01 H12 H23. unfold slideLine. cbn [tiles].
  rewrite !mergeTiles_diff by done. done.
Qed.

Lemma slideLineBack_full_fixed (x0 x1 x2 x3 : Z) :
  x0 ≠ x1 → x1 ≠ x2 → x2 ≠ x3 →
  slideLineBack [Some x0; Some x1; Some x2; Some x3]
  = [Some x0; Some x1; Some x2; Some x3].
Proof.
  intros H01 H12 H23. unfold slideLineBack.
  change (reverse [Some x0; Some x1; Some x2; Some x3])
    with [Some x3; Some x2; Some x1; Some x0].
  rewrite slideLine_full_fixed by done. done.
Qed.

End GameOver.

Section NoMoveLeft.

Lemma boardTiles_nil b : wfBoard b → boardTiles b = [] → b = createEmptyBoard.
Proof.
  intros Hwf. explicit_board b Hwf. unfold boardTiles. cbn [concat app].
  repeat match goal with
         | x : cell |- _ => destruct x; [discriminate|]
         end.
  done.
Qed.

Lemma elem_of_concat {A} (x : A) (ls : list (list A)) :
  x ∈ concat ls → ∃ l, x ∈ l ∧ l ∈ ls.
Proof.
  induction ls as [|l ls IH]; cbn [concat]; [by intros ?%elem_of_nil|].
  intros [Hl|Hls]%elem_of_app.
  - exists l. split; [done|]. apply elem_of_cons; by left.
  - destruct (IH Hls) as (l' & ? & ?). exists l'. split; [done|].
    apply elem_of_cons; by right.
Qed.

Lemma boardTiles_elem b v :
  v ∈ boardTiles b →
  ∃ r c row, b !! r = Some row ∧ row !! c = Some (Some v).
Proof.
  unfold boardTiles. rewrite elem_of_tiles.
  intros (row & Hv & Hrow)%elem_of_concat.
  apply list_elem_of_lookup in Hrow as [r Hr].
  apply list_elem_of_lookup in Hv as [c Hc].
  by exists r, c, row.
Qed.

Lemma transpose_explicit
    (a0 a1 a2 a3 b0 b1 b2 b3 c0 c1 c2 c3 d0 d1 d2 d3 : cell) :
  transpose [[a0; a1; a2; a3]; [b0; b1; b2; b3];
             [c0; c1; c2; c3]; [d0; d1; d2; d3]]
  = [[a0; b0; c0; d0]; [a1; b1; c1; d1];
     [a2; b2; c2; d2]; [a3; b3; c3; d3]].
Proof. reflexivity. Qed.

Lemma isGameOver_true_fixed b k :
  wfBoard b → isGameOver b = Some true → resolveBoard k b = b.
Proof.
  intros Hwf Hover. explicit_board b Hwf. clear Hwf.
  unfold isGameOver in Hover. cbn -[bool_decide] in Hover.
  repeat match type of Hover with
         | context [notNull ?x] =>
             destruct x; cbn -[bool_decide] in Hover; [|discriminate]
         end.
  change (bool_decide (0 < 3)%nat) with true in Hover.
  change (bool_decide (1 < 3)%nat) with true in Hover.
  change (bool_decide (2 < 3)%nat) with true in Hover.
  change (bool_decide (3 < 3)%nat) with false in Hover.
  unfold equalAt in Hover. cbn -[bool_decide] in Hover.
  repeat match type of Hover with
         | context [bool_decide (Some ?x = Some ?y)] =>
             destruct (decide (x = y));
             [ rewrite (bool_decide_eq_true_2 (Some x = Some y)) in Hover
                 by congruence;
               cbn -[bool_decide] in Hover; discriminate
             | rewrite (bool_decide_eq_false_2 (Some x = Some y)) in Hover
                 by congruence;
               cbn -[bool_decide] in Hover ]
         end.
  clear Hover.
  destruct k; cbn [resolveBoard]; [| | | |done];
    rewrite ?transpose_explicit; cbn [map];
    repeat match goal with
           | |- context [slideLine [Some ?a; Some ?b; Some ?c; Some ?d]] =>
               rewrite (slideLine_full_fixed a b c d) by congruence
           | |- context [slideLineBack [Some ?a; Some ?b; Some ?c; Some ?d]] =>
               rewrite (slideLineBack_full_fixed a b c d) by congruence
           end;
    rewrite ?transpose_explicit; reflexivity.
Qed.

End NoMoveLeft.

(** X4. [isGameOver] and the four moves agree.  When [isGameOver] answers
    [true], no arrow key changes anything: every move function returns
    [false] and leaves the globals as they are.  When it answers [false]
    and the board holds a tile, one of the four arrow keys moves the
    board.  The board without any tile is the exception: [isGameOver]
    answers [false] on it although no key moves it. *)
Theorem isGameOver_iff_no_move (st : State) :
  wfBoard (board st) →
  (isGameOver (board st) = Some true →
   ∀ k, dispatchKey k st = Some (false, st))
  ∧ (isGameOver (board st) = Some false → boardTiles (board st) ≠ [] →
     ∃ k st', dispatchKey k st = Some (true, st'))
  ∧ (boardTiles (board st) = [] →
     isGameOver (board st) = Some false
     ∧ ∀ k, dispatchKey k st = Some (false, st)).
Proof.
  intros Hwf. split; [|split].
  - intros Hover k. apply unmoved_of_fixed; [done|].
    by apply isGameOver_true_fixed.
  - intros Hover Htiles.
    assert (Hchanged : ∃ k, resolveBoard k (board st) ≠ board st);
      [|destruct Hchanged as [k Hk]; exists k; by apply moved_of_changed].
    unfold isGameOver in Hover.
    destruct (anyEmpty (board st) positions) as [[|]|] eqn:Hempty;
      cbn [mbind option_bind] in Hover; [| |done].
    + (* an empty cell and a tile *)
      apply anyEmpty_true in Hempty as (r2 & c2 & _ & Hnone).
      destruct (boardTiles (board st)) as [|v vs] eqn:Hvs; [done|].
      assert (Hv : v ∈ boardTiles (board st))
        by (rewrite Hvs; apply elem_of_cons; by left).
      apply boardTiles_elem in Hv as (r1 & c1 & row & Hrow & Hc1).
      destruct (cellAt_valid _ _ _ _ Hwf Hnone) as [Hr2 Hc2].
      pose proof (wfBoard_row _ _ _ Hwf Hrow) as Hlen.
      assert (Hr1 : (r1 < SIZE)%nat).
      { apply lookup_lt_Some in Hrow. destruct Hwf as [Hb _]. lia. }
      destruct (lookup_lt_is_Some_2 row c2 ltac:(lia)) as [x Hx].
      destruct x as [w|].
      * (* the column of the empty cell holds a tile *)
        assert (Hcol1 : column (board st) c2 !! r1 = Some (Some w)).
        { rewrite column_lookup by done. unfold cellAt. by rewrite Hrow. }
        assert (Hcol2 : column (board st) c2 !! r2 = Some None).
        { by rewrite column_lookup. }
        destruct (column_moves (board st) c2 Hwf Hc2) as [Hup Hdown].
        destruct (mixed_line_moves _ _ _ _ Hcol2 Hcol1) as [Hne|Hne].
        -- exists ArrowUp. by apply Hup.
        -- exists ArrowDown. by apply Hdown.
      * (* the row of the tile holds an empty cell *)
        destruct (row_moves (board st) r1 row Hrow) as [Hleft Hright].
        destruct (mixed_line_moves _ _ _ _ Hx Hc1) as [Hne|Hne].
        -- exists ArrowLeft. by apply Hleft.
        -- exists ArrowRight. by apply Hright.
    + (* a full board with two equal neighbours *)
      destruct (anyEqualNeighbours (board st) positions) as [[|]|] eqn:Hequal;
        cbn [mbind option_bind negb] in Hover; [|done|done].
      apply anyEqualNeighbours_true in Hequal
        as (r & c & cur & Hin & Hcur & Hnext).
      destruct (anyEmpty_false _ _ Hempty r c Hin) as [v Hv].
      assert (cur = Some v) as -> by congruence.
      destruct (cellAt_valid _ _ _ _ Hwf Hcur) as [Hr Hc].
      destruct Hnext as [Hbelow|Hright].
      * destruct (cellAt_valid _ _ _ _ Hwf Hbelow) as [Hr' _].
        exists ArrowUp.
        apply (proj1 (column_moves (board st) c Hwf Hc)).
        apply (equal_pair_moves _ r v).
        -- by rewrite column_lookup.
        -- rewrite column_lookup by (done || lia).
           by rewrite <- Nat.add_1_r.
      * apply cellAt_lookup in Hcur as (row & Hrow & Hx).
        apply cellAt_lookup in Hright as (row' & Hrow' & Hx').
        assert (row' = row) as -> by congruence.
        exists ArrowLeft.
        apply (proj1 (row_moves (board st) r row Hrow)).
        apply (equal_pair_moves _ c v); [done|].
        by rewrite <- Nat.add_1_r.
  - intros Htiles. apply boardTiles_nil in Htiles; [|done].
    split; [by rewrite Htiles|].
    intros k. apply unmoved_of_fixed; [done|]. rewrite Htiles.
    by destruct k.
Qed.

Lemma isGameOver_iff_no_move_witness :
  (∀ k, dispatchKey k lost = Some (false, lost))
  ∧ (∃ k st', dispatchKey k exampleState = Some (true, st'))
  ∧ (isGameOver createEmptyBoard = Some false
     ∧ ∀ k, dispatchKey k (set_board createEmptyBoard exampleState)
            = Some (false, set_board createEmptyBoard exampleState)).
Proof.
  assert (Hlost : wfBoard (board lost)).
  { vm_compute. split; [done|]. by repeat constructor. }
  split; [|split].
  - apply (proj1 (isGameOver_iff_no_move lost Hlost)).
    vm_compute; reflexivity.
  - apply (proj1 (proj2 (isGameOver_iff_no_move exampleState
                           (wfBoard_explicit _ _ _ _ _ _ _ _ _ _ _ _ _ _ _ _)))).
    + vm_compute; reflexivity.
    + vm_compute. discriminate.
  - apply (proj2 (proj2 (isGameOver_iff_no_move
                           (set_board createEmptyBoard exampleState)
                           wfBoard_createEmptyBoard))).
    reflexivity.
Defined.

(** ** The new tile *)

Section Spawn.

Lemma alter_middle {A} (f : A → A) (l : list A) i x :
  l !! i = Some x → alter f i l = take i l ++ f x :: drop (S i) l.
Proof.
  revert i. induction l as [|y l IH]; intros [|i] Hi; try done.
  - cbn in Hi. injection Hi as ->. done.
  - cbn in Hi. cbn. f_equal. by apply IH.
Qed.

Lemma tiles_insert_None row c v :
  row !! c = Some None → tiles (<[c := Some v]> row) ≡ₚ v :: tiles row.
Proof.
  intros Hc. rewrite insert_take_drop by (by eapply lookup_lt_Some).
  rewrite <- (take_drop_middle row c None Hc) at 3.
  rewrite !tiles_app. cbn [tiles]. by rewrite Permutation_middle.
Qed.

Lemma boardTiles_app b1 b2 : boardTiles (b1 ++ b2) = boardTiles b1 ++ boardTiles b2.
Proof. unfold boardTiles. by rewrite concat_app, tiles_app. Qed.

Lemma boardTiles_setCell b r c v :
  cellAt b r c = Some None →
  boardTiles (setCell r c (Some v) b) ≡ₚ v :: boardTiles b.
Proof.
  intros (row & Hrow & Hc)%cellAt_lookup. unfold setCell.
  rewrite (alter_middle _ _ _ _ Hrow).
  rewrite <- (take_drop_middle b r row Hrow) at 3.
  rewrite !boardTiles_app, !boardTiles_cons.
  rewrite (tiles_insert_None row c v Hc). cbn [app].
  symmetry. apply Permutation_middle.
Qed.

Lemma cellAt_setCell b r c x y :
  cellAt b r c = Some y → cellAt (setCell r c x b) r c = Some x.
Proof.
  intros (row & Hrow & Hc)%cellAt_lookup. unfold cellAt, setCell.
  rewrite list_lookup_alter_eq, Hrow. cbn.
  apply list_lookup_insert_eq. by eapply lookup_lt_Some.
Qed.

Lemma cellAt_setCell_ne b r c x r' c' :
  (r', c') ≠ (r, c) → cellAt (setCell r c x b) r' c' = cellAt b r' c'.
Proof.
  intros Hne. unfold cellAt, setCell.
  destruct (decide (r = r')) as [<-|Hr].
  - rewrite list_lookup_alter_eq. destruct (b !! r) as [row|]; [|done]. cbn.
    apply list_lookup_insert_ne. congruence.
  - by rewrite list_lookup_alter_ne.
Qed.

Lemma emptyCellsIn_elem b ps l :
  emptyCellsIn b ps = Some l →
  ∀ r c, (r, c) ∈ l ↔ (r, c) ∈ ps ∧ cellAt b r c = Some None.
Proof.
  revert l. induction ps as [|[r0 c0] ps IH]; intros l; cbn [emptyCellsIn].
  - intros [= <-] r c. rewrite !elem_of_nil. tauto.
  - destruct (cellAt b r0 c0) as [x|] eqn:Hx; [|done]. cbn.
    destruct (emptyCellsIn b ps) as [rest|]; [|done]. cbn.
    intros [= <-] r c. specialize (IH rest eq_refl r c).
    destruct x as [v|]; cbn [notNull].
    + rewrite IH, elem_of_cons. split; [tauto|].
      intros [[[= -> ->]|Hin] Hnone]; [congruence | tauto].
    + rewrite !elem_of_cons, IH. split.
      * intros [[= -> ->]|[? ?]]; auto.
      * intros [[[= -> ->]|Hin] Hnone]; auto.
Qed.

Lemma positions_elem r c :
  (r < SIZE)%nat → (c < SIZE)%nat → (r, c) ∈ positions.
Proof.
  intros Hr Hc.
  assert (Hp : positions
               = [(0, 0); (0, 1); (0, 2); (0, 3); (1, 0); (1, 1); (1, 2); (1, 3);
                  (2, 0); (2, 1); (2, 2); (2, 3); (3, 0); (3, 1); (3, 2); (3, 3)]%nat)
    by reflexivity.
  rewrite Hp.
  explicit_index r Hr; explicit_index c Hc;
    rewrite !elem_of_cons; repeat first [left; reflexivity | right].
Qed.

Lemma cellAt_createEmptyBoard r c :
  (r < SIZE)%nat → (c < SIZE)%nat → cellAt createEmptyBoard r c = Some None.
Proof. intros Hr Hc. explicit_index r Hr; explicit_index c Hc; reflexivity. Qed.

Lemma spawnTile_spec (rnd : Rnd) (st : State) :
  wfBoard (board st) →
  ∃ st', spawnTile rnd st = Some st'
    ∧ (((¬ ∃ r c, cellAt (board st) r c = Some None) ∧ st' = st)
       ∨ ∃ r c,
           cellAt (board st) r c = Some None
           ∧ st' = set_board
                     (setCell r c (Some (if four rnd then 4 else 2)) (board st))
                     st
           ∧ cellAt (board st') r c = Some (Some (if four rnd then 4 else 2))
           ∧ (∀ r' c', (r', c') ≠ (r, c) →
                       cellAt (board st') r' c' = cellAt (board st) r' c')
           ∧ boardTiles (board st')
             ≡ₚ (if four rnd then 4 else 2) :: boardTiles (board st)).
Proof.
  intros Hwf. unfold spawnTile.
  destruct (emptyCellsIn_wf _ _ Hwf positions_valid) as (l & Hl & _).
  rewrite Hl. cbn [mbind option_bind].
  pose proof (emptyCellsIn_elem _ _ _ Hl) as Helem.
  destruct l as [|p l].
  - eexists. split; [done|]. left. split; [|done].
    intros (r & c & Hnone).
    destruct (cellAt_valid _ _ _ _ Hwf Hnone) as [Hr Hc].
    apply (not_elem_of_nil (r, c)). apply Helem.
    split; [by apply positions_elem | done].
  - set (n := length (p :: l)).
    assert (Hlt : (pick rnd `mod` n < n)%nat).
    { apply Nat.mod_upper_bound. unfold n. cbn [length]. lia. }
    destruct (lookup_lt_is_Some_2 (p :: l) _ Hlt) as [[r c] Hrc].
    rewrite Hrc. cbn [mbind option_bind].
    eexists. split; [done|]. right. exists r, c.
    assert (Hnone : cellAt (board st) r c = Some None).
    { apply Helem. by eapply list_elem_of_lookup_2. }
    split; [done|]. split; [done|]. cbn [board set_board].
    split; [by eapply cellAt_setCell|].
    split; [intros r' c' Hne; by apply cellAt_setCell_ne|].
    by apply boardTiles_setCell.
Qed.

End Spawn.

(** X5. [spawnTile] on a board with an empty cell puts one tile, a 2 or a 4,
    on a cell that was empty and leaves every other cell as it is; on a
    board without an empty cell it changes nothing. *)
Theorem spawnTile_adds_one_tile (rnd : Rnd) (st : State) :
  wfBoard (board st) →
  ∃ st', spawnTile rnd st = Some st'
    ∧ (((¬ ∃ r c, cellAt (board st) r c = Some None) ∧ st' = st)
       ∨ ∃ r c,
           cellAt (board st) r c = Some None
           ∧ st' = set_board
                     (setCell r c (Some (if four rnd then 4 else 2)) (board st))
                     st
           ∧ cellAt (board st') r c = Some (Some (if four rnd then 4 else 2))
           ∧ (∀ r' c', (r', c') ≠ (r, c) →
                       cellAt (board st') r' c' = cellAt (board st) r' c')
           ∧ boardTiles (board st')
             ≡ₚ (if four rnd then 4 else 2) :: boardTiles (board st)).
Proof. apply spawnTile_spec. Qed.


Lemma spawnTile_adds_one_tile_witness :
  ∃ st', spawnTile (mkRnd 5 true) exampleState = Some st'
    ∧ (((¬ ∃ r c, cellAt (board exampleState) r c = Some None)
        ∧ st' = exampleState)
       ∨ ∃ r c,
           cellAt (board exampleState) r c = Some None
           ∧ st' = set_board (setCell r c (Some 4) (board exampleState))
                     exampleState
           ∧ cellAt (board st') r c = Some (Some 4)
           ∧ (∀ r' c', (r', c') ≠ (r, c) →
                       cellAt (board st') r' c'
                       = cellAt (board exampleState) r' c')
           ∧ boardTiles (board st') ≡ₚ 4 :: boardTiles (board exampleState)).
Proof.
  apply (spawnTile_adds_one_tile (mkRnd 5 true) exampleState).
  apply wfBoard_explicit.
Defined.

Section NewGame.

Lemma initGame_spec rnd1 rnd2 st :
  ∃ b, wfBoard b
    ∧ boardTiles b ≡ₚ [if four rnd2 then 4 else 2; if four rnd1 then 4 else 2]
    ∧ initGame rnd1 rnd2 st
      = Some (set_undosRemaining 3 (set_historyStack []
                (saveGameState (updateScoreDisplay (hideMessage
                   (set_board b (set_won false (set_score 0 st)))))))).
Proof.
  unfold initGame.
  set (st3 := set_won false (set_score 0 (set_board createEmptyBoard st))).
  destruct (spawnTile_spec rnd1 st3 wfBoard_createEmptyBoard)
    as (st4 & Hs1 & [[Hfull _]|(r1 & c1 & Hn1 & -> & _ & Hother1 & Ht1)]).
  { exfalso. apply Hfull. exists 0%nat, 0%nat. reflexivity. }
  rewrite Hs1. cbn [mbind option_bind].
  set (b1 := setCell r1 c1 _ _) in *.
  assert (Hwf1 : wfBoard b1) by apply wfBoard_setCell, wfBoard_createEmptyBoard.
  destruct (spawnTile_spec rnd2 (set_board b1 st3) Hwf1)
    as (st5 & Hs2 & [[Hfull _]|(r2 & c2 & Hn2 & -> & _ & _ & Ht2)]).
  { exfalso. apply Hfull. cbn [board set_board].
    destruct (decide ((0, 0)%nat = (r1, c1))) as [Heq|Hne].
    - exists 0%nat, 1%nat. unfold b1. rewrite cellAt_setCell_ne; [done|].
      congruence.
    - exists 0%nat, 0%nat. unfold b1. by rewrite cellAt_setCell_ne. }
  rewrite Hs2. cbn [mbind option_bind]. cbn [board set_board] in *.
  set (b2 := setCell r2 c2 _ b1) in *.
  assert (Hwf2 : wfBoard b2) by (by apply wfBoard_setCell).
  rewrite renderBoard_wf by done. cbn [mbind option_bind].
  exists b2. split; [done|]. split; [|done].
  rewrite Ht2, Ht1. done.
Qed.

End NewGame.

(** X6. [initGame] always succeeds and starts the game on a board with exactly
    two tiles, each a 2 or a 4, with the score at 0, the win flag and the
    overlay off, an empty history and three undos; the best score is kept
    (raised to 0 if it was negative) and the timer is not touched. *)
Theorem initGame_starts_with_two_tiles (rnd1 rnd2 : Rnd) (st : State) :
  ∃ st', initGame rnd1 rnd2 st = Some st'
    ∧ wfBoard (board st')
    ∧ boardTiles (board st')
      ≡ₚ [if four rnd2 then 4 else 2; if four rnd1 then 4 else 2]
    ∧ score st' = 0 ∧ won st' = false ∧ messageShown st' = false
    ∧ historyStack st' = [] ∧ undosRemaining st' = 3
    ∧ bestScore st' = Z.max (bestScore st) 0
    ∧ isTimedGame st' = isTimedGame st
    ∧ timeRemaining st' = timeRemaining st
    ∧ timerInterval st' = timerInterval st.
Proof.
  destruct (initGame_spec rnd1 rnd2 st) as (b & Hwf & Htiles & ->).
  eexists. split; [done|].
  set (x := hideMessage (set_board b (set_won false (set_score 0 st)))).
  pose proof (updateScoreDisplay_bestScore x) as Hbest.
  pose proof (updateScoreDisplay_time x) as [Htimed Htime].
  assert (Hfields : board (updateScoreDisplay x) = b
                    ∧ score (updateScoreDisplay x) = 0
                    ∧ won (updateScoreDisplay x) = false
                    ∧ messageShown (updateScoreDisplay x) = false
                    ∧ timerInterval (updateScoreDisplay x) = timerInterval st).
  { unfold updateScoreDisplay. by case_decide. }
  destruct Hfields as (Hb & Hsc & Hw & Hm & Hti).
  cbn [board score won messageShown historyStack undosRemaining bestScore
       isTimedGame timeRemaining timerInterval
       set_undosRemaining set_historyStack saveGameState set_storage].
  rewrite Hb, Hbest, Htimed, Htime.
  split; [done|]. split; [done|]. split; [done|]. split; [done|].
  split; [done|]. split; [done|]. split; [done|]. split; [done|].
  split; [done|]. split; [done|]. done.
Qed.

(** ** The countdown *)

Section Countdown.

Lemma ticks_S n st : ticks (S n) st = tick (ticks n st).
Proof. done. Qed.

Lemma tick_stopped st : timerInterval st = None → tick st = st.
Proof. intros H. unfold tick. by rewrite H. Qed.

Lemma ticks_stopped n st : timerInterval st = None → ticks n st = st.
Proof.
  intros H. induction n as [|n IH]; [done|].
  rewrite ticks_S, IH. by apply tick_stopped.
Qed.

Lemma sameGame_refl st : sameGame st st.
Proof. by repeat split. Qed.

Lemma sameGame_trans st1 st2 st3 :
  sameGame st1 st2 → sameGame st2 st3 → sameGame st1 st3.
Proof.
  intros (?&?&?&?&?&?&?) (?&?&?&?&?&?&?). repeat split; congruence.
Qed.

(** A tick with more than a second left. *)
Lemma tick_running st t :
  timerInterval st = Some t → 1 < timeRemaining st →
  timerInterval (tick st) = Some t
  ∧ timeRemaining (tick st) = timeRemaining st - 1
  ∧ messageShown (tick st) = messageShown st
  ∧ messageText (tick st) = messageText st
  ∧ sameGame st (tick st)
  ∧ (t = SavingTicker →
     gameStateItem (storage (tick st))
     = Some (jsonOfState (set_timeRemaining (timeRemaining st - 1) st))).
Proof.
  intros Ht Hleft. unfold tick. rewrite Ht.
  destruct t; cbn [timeRemaining saveGameState set_storage set_timeRemaining];
    rewrite decide_False by lia; cbn.
  - split; [exact Ht|]. split; [reflexivity|]. split; [reflexivity|].
    split; [reflexivity|]. split; [by repeat split|]. intros _. reflexivity.
  - split; [exact Ht|]. split; [reflexivity|]. split; [reflexivity|].
    split; [reflexivity|]. split; [by repeat split|]. intros [=].
Qed.

(** The tick that uses up the time. *)
Lemma tick_expires st t :
  timerInterval st = Some t → timeRemaining st <= 1 →
  timerInterval (tick st) = None
  ∧ timeRemaining (tick st) = timeRemaining st - 1
  ∧ messageShown (tick st) = true
  ∧ messageText (tick st) = Some TimesUp
  ∧ gameStateItem (storage (tick st)) = None
  ∧ sameGame st (tick st).
Proof.
  intros Ht Hleft. unfold tick. rewrite Ht.
  destruct t; cbn [timeRemaining saveGameState set_storage set_timeRemaining];
    rewrite decide_True by lia; unfold showMessage, stopTimer, clearGameState;
    cbn; destruct (isTimedGame st) eqn:Htimed; cbn;
    (split; [reflexivity|split; [reflexivity|split; [reflexivity|
     split; [reflexivity|split; [reflexivity|]]]]]);
    unfold sameGame; cbn; rewrite ?Htimed; by repeat split.
Qed.

Lemma ticks_running st t n :
  timerInterval st = Some t →
  n = 0%nat ∨ Z.of_nat n < timeRemaining st →
  timerInterval (ticks n st) = Some t
  ∧ timeRemaining (ticks n st) = timeRemaining st - Z.of_nat n
  ∧ messageShown (ticks n st) = messageShown st
  ∧ messageText (ticks n st) = messageText st
  ∧ sameGame st (ticks n st)
  ∧ (t = SavingTicker → (0 < n)%nat →
     ∃ s, gameStateItem (storage (ticks n st)) = Some (jsonOfState s)
          ∧ timeRemaining s = timeRemaining st - Z.of_nat n
          ∧ sameGame st s).
Proof.
  intros Ht. induction n as [|n IH]; intros Hleft.
  { cbn. rewrite Z.sub_0_r. repeat split; [|intros _ ?; lia]. done. }
  destruct IH as (Hti & Htr & Hms & Hmt & Hsame & _); [lia|].
  destruct Hleft as [?|Hleft]; [done|].
  rewrite ticks_S.
  destruct (tick_running (ticks n st) t Hti ltac:(lia))
    as (Hti' & Htr' & Hms' & Hmt' & Hsame' & Hsaved).
  split; [done|]. split; [lia|]. split; [congruence|]. split; [congruence|].
  split; [by eapply sameGame_trans|].
  intros -> _. eexists. split; [by apply Hsaved|].
  split; [cbn; lia|].
  eapply sameGame_trans; [exact Hsame|]. by repeat split.
Qed.

End Countdown.

(** X7. A running countdown ends exactly once.  With [timeRemaining] seconds
    left (the first tick counts when none is left), the timer keeps running
    during the ticks before the last, each taking one second off and, for
    the interval [startTimer] installs, storing the game with the time
    left; the last tick stops the timer, shows "Time's up! Game Over" and
    removes the stored game; later ticks do nothing.  No tick touches the
    board, the score, the best score, the win flag or the undo history. *)
Theorem countdown_ends_once (st : State) (t : Ticker) :
  timerInterval st = Some t →
  let last := Z.to_nat (Z.max 1 (timeRemaining st)) in
  (∀ k, (k < last)%nat →
     timerInterval (ticks k st) = Some t
     ∧ timeRemaining (ticks k st) = timeRemaining st - Z.of_nat k
     ∧ messageShown (ticks k st) = messageShown st
     ∧ messageText (ticks k st) = messageText st
     ∧ (t = SavingTicker → (0 < k)%nat →
        ∃ s, gameStateItem (storage (ticks k st)) = Some (jsonOfState s)
             ∧ timeRemaining s = timeRemaining st - Z.of_nat k
             ∧ sameGame st s))
  ∧ (timerInterval (ticks last st) = None
     ∧ timeRemaining (ticks last st) = timeRemaining st - Z.of_nat last
     ∧ messageShown (ticks last st) = true
     ∧ messageText (ticks last st) = Some TimesUp
     ∧ gameStateItem (storage (ticks last st)) = None)
  ∧ (∀ k, (last ≤ k)%nat → ticks k st = ticks last st)
  ∧ (∀ k, sameGame st (ticks k st)).
Proof.
  intros Ht last.
  assert (Hbefore : ∀ k, (k < last)%nat →
                         k = 0%nat ∨ Z.of_nat k < timeRemaining st).
  { intros k Hk. unfold last in Hk. lia. }
  assert (Hlast : ∃ n, last = S n) by (exists (pred last); unfold last; lia).
  destruct Hlast as [n Hn].
  assert (Hend : timerInterval (ticks last st) = None
                 ∧ timeRemaining (ticks last st)
                   = timeRemaining st - Z.of_nat last
                 ∧ messageShown (ticks last st) = true
                 ∧ messageText (ticks last st) = Some TimesUp
                 ∧ gameStateItem (storage (ticks last st)) = None
                 ∧ sameGame st (ticks last st)).
  { rewrite Hn, ticks_S.
    destruct (decide (n = 0%nat)) as [->|Hpos].
    - change (ticks 0 st) with st.
      destruct (tick_expires st t Ht) as (?&?&?&?&?&?);
        [unfold last in Hn; lia|].
      split; [done|]. split; [lia|]. done.
    - destruct (ticks_running st t n Ht) as (Hti & Htr & _ & _ & Hsame & _);
        [apply Hbefore; lia|].
      destruct (tick_expires (ticks n st) t Hti) as (?&?&?&?&?&?);
        [unfold last in Hn; lia|].
      split; [done|]. split; [lia|]. split; [done|]. split; [done|].
      split; [done|]. by eapply sameGame_trans. }
  destruct Hend as (He1 & He2 & He3 & He4 & He5 & He6).
  assert (Hafter : ∀ k, (last ≤ k)%nat → ticks k st = ticks last st).
  { intros k Hk. replace k with ((k - last) + last)%nat by lia.
    unfold ticks at 1. rewrite Nat.iter_add. fold (ticks last st).
    by apply ticks_stopped. }
  split; [|split; [done|split; [done|]]].
  - intros k Hk.
    destruct (ticks_running st t k Ht (Hbefore k Hk)) as (?&?&?&?&?&?).
    done.
  - intros k. destruct (decide (k < last)%nat) as [Hk|Hk].
    + by destruct (ticks_running st t k Ht (Hbefore k Hk)) as (?&?&?&?&?&?).
    + rewrite Hafter by lia. done.
Qed.

Lemma countdown_ends_once_witness :
  timerInterval (ticks 1 timedGame) = Some SavingTicker
  ∧ timeRemaining (ticks 1 timedGame) = 1
  ∧ timerInterval (ticks 2 timedGame) = None
  ∧ messageText (ticks 2 timedGame) = Some TimesUp
  ∧ ticks 5 timedGame = ticks 2 timedGame
  ∧ sameGame timedGame (ticks 5 timedGame).
Proof.
  pose proof (countdown_ends_once timedGame SavingTicker eq_refl)
    as (Hrun & Hend & Hafter & Hsame).
  destruct (Hrun 1%nat ltac:(vm_compute; lia)) as (H1 & H2 & _).
  destruct Hend as (H3 & _ & _ & H4 & _).
  split; [exact H1|]. split; [exact H2|]. split; [exact H3|].
  split; [exact H4|]. split; [|exact (Hsame 5%nat)].
  apply (Hafter 5%nat). vm_compute. lia.
Defined.

(** ** Swipes, the home button and the end of a game *)

Section Handlers.

Lemma dispatchSwipe_key dx dy st :
  dispatchSwipe dx dy st = dispatchKey (keyOfSwipe dx dy) st.
Proof. unfold dispatchSwipe, keyOfSwipe. by repeat case_decide. Qed.

(** The end of [afterMove], with the answer of [isGameOver] in view. *)
Lemma afterMove_over snapshot rnd st st' :
  afterMove snapshot rnd st = Some st' →
  ∃ saved,
    isGameOver (board saved) = isGameOver (board st')
    ∧ gameStateItem (storage saved) = Some (jsonOfState saved)
    ∧ ((isGameOver (board saved) = Some true
        ∧ st' = showMessage GameOver saved)
       ∨ (isGameOver (board saved) = Some false ∧ st' = saved)).
Proof.
  unfold afterMove. cbv zeta.
  destruct (spawnTile rnd _) as [st2|]; [|done]. cbn [mbind option_bind].
  destruct (renderBoard st2); [|done]. cbn [mbind option_bind].
  set (saved := saveGameState (updateScoreDisplay st2)).
  destruct (isGameOver (board saved)) as [over|] eqn:Hover; [|done].
  cbn [mbind option_bind]. intros [= <-]. exists saved.
  assert (Hstored : gameStateItem (storage saved) = Some (jsonOfState saved)).
  { unfold saved. generalize (updateScoreDisplay st2). by intros []. }
  assert (Hboard : board (showMessage GameOver saved) = board saved).
  { unfold showMessage. cbn [isWinText negb andb]. rewrite andb_true_r.
    by destruct (isTimedGame _). }
  destruct over.
  - split; [by rewrite Hboard|]. split; [done|]. by left.
  - split; [done|]. split; [done|]. by right.
Qed.

End Handlers.

(** X8. A swipe of more than 20 pixels does exactly what the arrow key of its
    longer axis does (the vertical axis when both are equally long); a
    shorter swipe does nothing. *)
Theorem swipe_acts_as_arrow_key (dx dy : Z) (rnd : Rnd) (st : State) :
  (20 < Z.max (Z.abs dx) (Z.abs dy) →
   handleTouchEnd dx dy rnd st = handleKey (keyOfSwipe dx dy) rnd st)
  ∧ (Z.max (Z.abs dx) (Z.abs dy) <= 20 →
     handleTouchEnd dx dy rnd st = Some st).
Proof.
  unfold handleTouchEnd, handleKey. split; intros Hlen.
  - destruct (messageShown st); [done|].
    rewrite decide_True by done. by rewrite dispatchSwipe_key.
  - destruct (messageShown st); [done|]. by rewrite decide_False by lia.
Qed.

Lemma swipe_acts_as_arrow_key_witness :
  handleTouchEnd (-30) 4 lowDraw exampleState
  = handleKey ArrowLeft lowDraw exampleState
  ∧ handleTouchEnd 20 (-20) lowDraw exampleState = Some exampleState.
Proof.
  split.
  - apply (proj1 (swipe_acts_as_arrow_key (-30) 4 lowDraw exampleState)).
    vm_compute. reflexivity.
  - apply (proj2 (swipe_acts_as_arrow_key 20 (-20) lowDraw exampleState)).
    vm_compute. discriminate.
Defined.

(** X9. When a move ends with [isGameOver] answering [true], the game is
    over for good: the overlay shows 'Game Over', the stored game is
    removed, the timer of a timed game is stopped, arrow keys and swipes
    are ignored and [resumeGame] finds nothing to resume. *)
Theorem game_over_ends_the_game (k : Key) (rnd : Rnd) (st st' : State) :
  handleKey k rnd st = Some st' → st' ≠ st →
  isGameOver (board st') = Some true →
  messageShown st' = true ∧ messageText st' = Some GameOver
  ∧ gameStateItem (storage st') = None
  ∧ (isTimedGame st' = true → timerInterval st' = None)
  ∧ (∀ k' rnd', handleKey k' rnd' st' = Some st')
  ∧ (∀ dx dy rnd', handleTouchEnd dx dy rnd' st' = Some st')
  ∧ resumeGame st' = Some st'.
Proof.
  intros [->|(_ & st1 & _ & Hafter)]%handleKey_inv Hne Hover; [done|].
  apply afterMove_over in Hafter
    as (saved & Hsame & _ & [[_ ->]|[Hnot ->]]); [|congruence].
  assert (Hshown : messageShown (showMessage GameOver saved) = true) by done.
  assert (Hnone : gameStateItem (storage (showMessage GameOver saved)) = None).
  { unfold showMessage. cbn [isWinText negb andb].
    rewrite andb_true_r. by destruct (isTimedGame _). }
  split; [done|]. split.
  { unfold showMessage. cbn [isWinText negb andb].
    rewrite andb_true_r. by destruct (isTimedGame _). }
  split; [done|]. split.
  { unfold showMessage. cbn [isWinText negb andb]. rewrite andb_true_r.
    cbn [isTimedGame set_messageText].
    destruct (isTimedGame saved) eqn:Htimed; cbn; [done|].
    rewrite Htimed. done. }
  split; [intros; by apply handleKey_blocked|].
  split.
  { intros. unfold handleTouchEnd. by rewrite Hshown. }
  unfold resumeGame. by rewrite Hnone.
Qed.

Lemma game_over_ends_the_game_witness :
  messageShown lost = true ∧ messageText lost = Some GameOver
  ∧ gameStateItem (storage lost) = None
  ∧ (isTimedGame lost = true → timerInterval lost = None)
  ∧ (∀ k' rnd', handleKey k' rnd' lost = Some lost)
  ∧ (∀ dx dy rnd', handleTouchEnd dx dy rnd' lost = Some lost)
  ∧ resumeGame lost = Some lost.
Proof.
  apply (game_over_ends_the_game ArrowLeft lowDraw nearlyLost lost).
  - vm_compute. reflexivity.
  - vm_compute. discriminate.
  - vm_compute. reflexivity.
Defined.

(** X10. The home button pauses the game and [resumeGame] continues it: after
    the click no tick changes anything; [resumeGame] then brings back, from
    the stored record alone and whatever the globals hold by then (after a
    reload they are those of the declarations), the board, the score, the
    history, the undo counter, the win flag, the mode and the time left,
    hides the overlay whatever it showed, and starts the countdown of a
    timed game again at the time left. *)
Theorem home_pauses_resume_continues (st : State) :
  (SIZE ≤ length (board st))%nat →
  (isTimedGame st = false → timerInterval st = None) →
  timerInterval (homeButton st) = None
  ∧ (∀ n, ticks n (homeButton st) = homeButton st)
  ∧ ∀ st0,
      gameStateItem (storage st0) = gameStateItem (storage (homeButton st)) →
      ∃ st', resumeGame st0 = Some st'
        ∧ board st' = board st ∧ score st' = score st
        ∧ historyStack st' = historyStack st
        ∧ undosRemaining st' = undosRemaining st
        ∧ won st' = won st ∧ isTimedGame st' = isTimedGame st
        ∧ timeRemaining st' = timeRemaining st
        ∧ bestScore st' = Z.max (bestScore st) (score st)
        ∧ messageShown st' = false
        ∧ timerInterval st'
          = (if isTimedGame st then Some SavingTicker else None).
Proof.
  intros Hrows Huntimed.
  assert (Hstop : timerInterval (homeButton st) = None).
  { unfold homeButton. cbn [isTimedGame saveGameState set_storage].
    destruct (isTimedGame st) eqn:Htimed; [done|]. cbn. by apply Huntimed. }
  split; [done|]. split; [intros n; by apply ticks_stopped|].
  assert (Hstored :
    gameStateItem (storage (homeButton st)) = Some (jsonOfState st)).
  { unfold homeButton. cbn [isTimedGame saveGameState set_storage].
    by destruct (isTimedGame st). }
  intros st0 Hitem. rewrite Hstored in Hitem.
  rewrite (resumeGame_stored _ _ Hitem). eexists. split; [done|].
  destruct (resumed_fields st0 st)
    as (Hb & Hs & Hh & Hu & Hw & Hti & Htr & _).
  split; [done|]. split; [done|]. split; [done|]. split; [done|].
  split; [done|]. split; [done|]. split; [done|].
  unfold resumed, finishResume.
  assert (Hrender : renderBoard (restored st0 st) = Some ()).
  { unfold renderBoard. cbn [board restored]. by rewrite decide_True. }
  rewrite Hrender.
  set (x := restored st0 st).
  pose proof (updateScoreDisplay_bestScore x) as Hbest.
  pose proof (updateScoreDisplay_time x) as [Htimed Htime].
  assert (Hfields :
    ∀ y, bestScore (hideMessage y) = bestScore y
         ∧ isTimedGame (hideMessage y) = isTimedGame y
         ∧ timeRemaining (hideMessage y) = timeRemaining y
         ∧ messageShown (hideMessage y) = false) by done.
  destruct (Hfields (updateScoreDisplay x)) as (Hf1 & Hf2 & Hf3 & Hf4).
  rewrite Hf2, Htimed. change (isTimedGame x) with (isTimedGame st).
  destruct (isTimedGame st); cbn [bestScore messageShown timerInterval
    startTimer stopTimer set_timerInterval set_timeRemaining];
    rewrite Hf1, Hf4, Hbest; done.
Qed.

(** X10 on a timed game: the home button, then a reload of the page, which
    comes up with the overlay shown, an empty board and no timer, then
    [resumeGame]. *)
Lemma home_pauses_resume_continues_witness :
  timerInterval (homeButton timedGame) = None
  ∧ ticks 3 (homeButton timedGame) = homeButton timedGame
  ∧ board (pageLoad true (storage (homeButton timedGame))) = []
  ∧ ∃ st', resumeGame (pageLoad true (storage (homeButton timedGame)))
           = Some st'
      ∧ board st' = board timedGame
      ∧ score st' = score timedGame
      ∧ timeRemaining st' = timeRemaining timedGame
      ∧ messageShown st' = false
      ∧ timerInterval st' = Some SavingTicker.
Proof.
  destruct (home_pauses_resume_continues timedGame)
    as (Hstop & Hticks & Hresume).
  - vm_compute. lia.
  - intros [=].
  - destruct (Hresume (pageLoad true (storage (homeButton timedGame))))
      as (st' & Hres & Hb & Hs & _ & _ & _ & _ & Htr & _ & Hm & Hti).
    + vm_compute. reflexivity.
    + split; [exact Hstop|]. split; [exact (Hticks 3%nat)|].
      split; [vm_compute; reflexivity|].
      exists st'. split; [exact Hres|]. split; [exact Hb|].
      split; [exact Hs|]. split; [exact Htr|]. split; [exact Hm|]. exact Hti.
Defined.

(** ** Every tile is a power of two *)

Section Tiles.

Lemma tileOk_double v : tileOk v → tileOk (2 * v).
Proof.
  intros [k ->]. exists (S k).
  rewrite (Nat2Z.inj_succ (S k)), Z.pow_succ_r by lia. done.
Qed.

Lemma tileOk_spawn (four : bool) : tileOk (if four then 4 else 2).
Proof. destruct four; [by exists 1%nat | by exists 0%nat]. Qed.

Lemma tileOk_pos v : tileOk v → 2 <= v.
Proof.
  intros [k ->]. rewrite Nat2Z.inj_succ, Z.pow_succ_r by lia.
  pose proof (Z.pow_pos_nonneg 2 (Z.of_nat k)). lia.
Qed.

Lemma okBoard_resolveBoard k b : okBoard b → okBoard (resolveBoard k b).
Proof.
  intros [Hwf Htiles]. split; [by apply wfBoard_resolveBoard|].
  destruct (moveMerges_resolved k b Hwf) as (_ & _ & _ & Hfrom).
  rewrite Forall_forall in Htiles.
  eapply Forall_impl; [exact Hfrom|].
  intros t [Hin|(v & -> & Hin)]; [by apply Htiles|].
  by apply tileOk_double, Htiles.
Qed.

Lemma dispatchKey_no_board k st r :
  board st = [] → dispatchKey k st = Some r → r = (false, st).
Proof.
  intros Hb. destruct k; cbn [dispatchKey]; [| | | |congruence];
    unfold moveLeft, moveRight, moveUp, moveDown, indices;
    cbn [seq SIZE forEach];
    unfold moveLeftRow, moveRightRow, moveUpColumn, moveDownColumn;
    rewrite Hb; cbn; done.
Qed.

Lemma afterMove_okBoard snapshot rnd st :
  okBoard (board st) →
  ∃ b (over : bool),
    okBoard b ∧
    let saved :=
      saveGameState (updateScoreDisplay (set_board b
        (set_historyStack (pushHistory snapshot (historyStack st)) st))) in
    afterMove snapshot rnd st
    = Some (if over then showMessage GameOver saved else saved).
Proof.
  intros [Hwf Htiles]. unfold afterMove. cbv zeta.
  set (st1 := set_historyStack (pushHistory snapshot (historyStack st)) st).
  destruct (spawnTile_spec rnd st1 Hwf) as (st2 & Hspawn & Hcase).
  assert (Hst2 : ∃ b, st2 = set_board b st1 ∧ okBoard b).
  { destruct Hcase as [[_ ->]|(r & c & _ & -> & _ & _ & Hperm)].
    - exists (board st). split; [by rewrite <- (set_board_same st1)|done].
    - eexists. split; [done|]. split; [by apply wfBoard_setCell|].
      cbn [board set_board] in Hperm. rewrite Hperm.
      constructor; [apply tileOk_spawn | done]. }
  destruct Hst2 as (b & -> & Hb). rewrite Hspawn.
  cbn [mbind option_bind]. rewrite renderBoard_wf by apply Hb.
  cbn [mbind option_bind].
  match goal with
  | |- context [isGameOver ?x] =>
      assert (Hbx : x = b) by (unfold_ops; by case_decide);
      rewrite Hbx; destruct (isGameOver_total b (proj1 Hb)) as [over ->]
  end.
  cbn [mbind option_bind]. by exists b, over.
Qed.

Lemma gameOk_same s s' :
  board s' = board s → historyStack s' = historyStack s →
  gameOk s → gameOk s'.
Proof. unfold gameOk. by intros -> ->. Qed.

Lemma tilesInv_saved x st' :
  gameOk x → gameOk st' →
  gameStateItem (storage st') = Some (jsonOfState x) ∨
  gameStateItem (storage st') = None →
  tilesInv st'.
Proof.
  intros Hx Hst' Hitem. split; [done|]. intros j Hj.
  destruct Hitem as [Hitem|Hitem]; [|congruence].
  exists x. split; [congruence | done].
Qed.

Lemma moved_tilesInv snapshot rnd st1 st st' :
  tilesInv st → okBoard (board st1) →
  historyStack st1 = historyStack st →
  okBoard (snap_board snapshot) →
  afterMove snapshot rnd st1 = Some st' → tilesInv st'.
Proof.
  intros [[_ Hhist] _] Hok1 Hh Hsnap.
  destruct (afterMove_okBoard snapshot rnd st1 Hok1) as (b & over & Hb & ->).
  cbv zeta. intros [= <-].
  set (x := updateScoreDisplay _).
  assert (Hx : gameOk x).
  { split.
    - right. unfold x. unfold_ops. by case_decide.
    - replace (historyStack x)
        with (pushHistory snapshot (historyStack st1))
        by (unfold x; unfold_ops; by case_decide).
      rewrite Hh. by apply pushHistory_Forall. }
  destruct over.
  - apply (tilesInv_saved x); [done | |right].
    + eapply gameOk_same, Hx; unfold_ops; by split_ifs.
    + unfold_ops; by split_ifs.
  - apply (tilesInv_saved x); [done | done | by left].
Qed.

Lemma moved_okBoard k st st1 :
  okBoard (board st) → dispatchKey k st = Some (true, st1) →
  okBoard (board st1) ∧ historyStack st1 = historyStack st.
Proof.
  intros Hok Hk. split.
  - rewrite dispatchKey_moveMerges in Hk by apply Hok.
    injection Hk as _ <-. cbn [board set_board]. by apply okBoard_resolveBoard.
  - by apply dispatchKey_frame in Hk as (_ & Hh & _).
Qed.

Lemma handleKey_tilesInv k rnd st st' :
  tilesInv st → handleKey k rnd st = Some st' → tilesInv st'.
Proof.
  intros Hinv [->|(_ & st1 & Hk & Hafter)]%handleKey_inv; [done|].
  pose proof Hinv as [[[Hnil|Hok] _] _].
  { apply (dispatchKey_no_board _ _ _ Hnil) in Hk. congruence. }
  destruct (moved_okBoard _ _ _ Hok Hk) as [Hok1 Hh].
  by apply (moved_tilesInv (takeSnapshot st) rnd st1 st st').
Qed.

Lemma handleTouchEnd_tilesInv dx dy rnd st st' :
  tilesInv st → handleTouchEnd dx dy rnd st = Some st' → tilesInv st'.
Proof.
  intros Hinv [->|(_ & st1 & Hk & Hafter)]%handleTouchEnd_inv; [done|].
  rewrite dispatchSwipe_key in Hk.
  pose proof Hinv as [[[Hnil|Hok] _] _].
  { apply (dispatchKey_no_board _ _ _ Hnil) in Hk. congruence. }
  destruct (moved_okBoard _ _ _ Hok Hk) as [Hok1 Hh].
  by apply (moved_tilesInv (takeSnapshot st) rnd st1 st st').
Qed.

Lemma undoMove_tilesInv st st' :
  tilesInv st → undoMove st = Some st' → tilesInv st'.
Proof.
  intros Hinv [[-> _]|(_ & rest & x & Hh & ->)]%undoMove_inv; [done|].
  destruct Hinv as [[_ Hhist] _]. rewrite Hh in Hhist.
  apply Forall_app in Hhist as [Hrest Hx]. rewrite Forall_singleton in Hx.
  destruct (undone_fields x rest st)
    as (Hh' & _ & _ & Hb' & _ & _ & _ & s & Hs & _ & Hhs & _ & Hbs & _).
  apply (tilesInv_saved s); [| |by left].
  - split; [right; by rewrite Hbs | by rewrite Hhs].
  - split; [right; by rewrite Hb' | by rewrite Hh'].
Qed.

Lemma tick_tilesInv st : tilesInv st → tilesInv (tick st).
Proof.
  intros Hp. pose proof Hp as [Hg Hstored]. unfold tick.
  destruct (timerInterval st) as [[]|]; [| |done]; cbv zeta.
  - set (x := set_timeRemaining (timeRemaining st - 1) st).
    assert (Hx : gameOk x) by done.
    case_decide.
    + apply (tilesInv_saved x); [done | |right].
      * eapply gameOk_same, Hx; unfold_ops; by split_ifs.
      * unfold_ops; by split_ifs.
    + apply (tilesInv_saved x); [done | done | by left].
  - case_decide.
    + split.
      * eapply gameOk_same, Hg; unfold_ops; by split_ifs.
      * intros j Hj. exfalso. revert Hj. unfold_ops. by split_ifs.
    + done.
Qed.

Lemma homeButton_tilesInv st : tilesInv st → tilesInv (homeButton st).
Proof.
  intros [Hg _]. unfold homeButton. cbv zeta.
  apply (tilesInv_saved st); [done | |left].
  - eapply gameOk_same, Hg; unfold_ops; by split_ifs.
  - unfold_ops; by split_ifs.
Qed.

Lemma keepPlaying_tilesInv st : tilesInv st → tilesInv (keepPlaying st).
Proof.
  intros [Hg Hstored]. unfold keepPlaying. cbv zeta. split.
  - eapply gameOk_same, Hg; unfold_ops; by split_ifs.
  - intros j Hj. apply Hstored. revert Hj. unfold_ops. by split_ifs.
Qed.

Lemma resumeGame_tilesInv st st' :
  tilesInv st → resumeGame st = Some st' → tilesInv st'.
Proof.
  intros Hp Hres. pose proof Hp as [Hg Hstored].
  destruct (gameStateItem (storage st)) as [j|] eqn:Hj.
  - destruct (Hstored j eq_refl) as (s & -> & Hs).
    rewrite (resumeGame_stored _ _ Hj) in Hres. injection Hres as <-.
    destruct (resumed_fields st s) as (Hb & _ & Hh & _ & _ & _ & _ & Hitem).
    apply (tilesInv_saved s); [done | |left; by rewrite Hitem].
    by eapply gameOk_same, Hs.
  - unfold resumeGame in Hres. rewrite Hj in Hres. by injection Hres as <-.
Qed.

Lemma startGame_tilesInv timed seconds rnd1 rnd2 st st' :
  tilesInv st → startGame timed seconds rnd1 rnd2 st = Some st' →
  tilesInv st' ∧ okBoard (board st').
Proof.
  intros [[_ Hhist] _]. unfold startGame. cbv zeta.
  destruct (initGame_spec rnd1 rnd2 (set_isTimedGame timed (clearGameState st)))
    as (b & Hwf & Htiles & ->).
  cbn [mbind option_bind]. intros [= <-].
  assert (Hb : okBoard b).
  { split; [done|]. rewrite Htiles. repeat constructor; apply tileOk_spawn. }
  set (s := updateScoreDisplay _).
  assert (Hsb : board s = b) by (unfold s; unfold_ops; by case_decide).
  assert (Hsh : historyStack s = historyStack st)
    by (unfold s; unfold_ops; by case_decide).
  assert (Hs : gameOk s).
  { split; [right; by rewrite Hsb | by rewrite Hsh]. }
  clearbody s.
  set (x := set_undosRemaining 3 (set_historyStack [] (saveGameState s))).
  assert (Hfinal : ∀ y, y = startTimer seconds x ∨ y = stopTimer x →
                        tilesInv y ∧ okBoard (board y)).
  { intros y Hy.
    assert (board y = b ∧ historyStack y = []
            ∧ gameStateItem (storage y) = Some (jsonOfState s))
      as (Hy1 & Hy2 & Hy3)
      by (destruct Hy as [->| ->]; by rewrite <- Hsb).
    split; [|by rewrite Hy1].
    apply (tilesInv_saved s); [done| |by left].
    split; [right; by rewrite Hy1 | by rewrite Hy2]. }
  destruct (isTimedGame s); apply Hfinal; [by left | by right].
Qed.

Lemma pageLoad_tilesInv overlay st :
  tilesInv st → tilesInv (pageLoad overlay (storage st)).
Proof.
  intros [_ Hstored]. unfold pageLoad, initStorage. cbv zeta. split.
  - split; [left|]; unfold_ops; by case_decide.
  - intros j Hj. apply Hstored. revert Hj. unfold_ops. by case_decide.
Qed.

Lemma step_tilesInv ev st st' :
  tilesInv st → step ev st = Some st' → tilesInv st'.
Proof.
  intros Hinv. destruct ev; cbn [step].
  - by apply handleKey_tilesInv.
  - by apply handleTouchEnd_tilesInv.
  - by apply undoMove_tilesInv.
  - intros [= <-]. by apply tick_tilesInv.
  - intros [= <-]. by apply homeButton_tilesInv.
  - intros [= <-]. by apply keepPlaying_tilesInv.
  - by apply resumeGame_tilesInv.
  - intros Hstart.
    by destruct (startGame_tilesInv _ _ _ _ _ _ Hinv Hstart).
  - intros [= <-]. destruct Hinv as [Hg _]. split; [done|].
    intros j. cbn. congruence.
  - intros [= <-]. by apply pageLoad_tilesInv.
Qed.

Lemma reachable_tilesInv st : reachable st → tilesInv st.
Proof.
  induction 1 as [overlay|ev st st' _ IH Hstep].
  - unfold pageLoad, initStorage. cbv zeta. split.
    + split; [left|]; unfold_ops; by case_decide.
    + intros j Hj. exfalso. revert Hj. unfold_ops. by case_decide.
  - by eapply step_tilesInv.
Qed.

End Tiles.

Section ReachableGames.

Lemma reachable_freshGame : reachable freshGame.
Proof. apply played_reachable. vm_compute. by eexists. Qed.

Lemma sumZ_merges_nonneg merged (tiles0 : list Z) :
  Forall tileOk tiles0 →
  Forall (λ m, ∃ v, m = 2 * v ∧ v ∈ tiles0) merged →
  merged = [] ∨ 4 <= sumZ merged.
Proof.
  intros Htiles Hm. rewrite Forall_forall in Htiles.
  induction Hm as [|m merged (v & -> & Hv) _ IH]; [by left|]. right.
  pose proof (tileOk_pos v (Htiles v Hv)). rewrite sumZ_cons.
  destruct IH as [->|?]; [cbn; lia | lia].
Qed.

Lemma afterMove_score snapshot rnd st st' :
  afterMove snapshot rnd st = Some st' → score st' = score st.
Proof.
  intros (b & over & _ & ->)%afterMove_inv. cbv zeta.
  destruct over; unfold_ops; by split_ifs.
Qed.

Lemma moved_score k st st1 :
  okBoard (board st) → dispatchKey k st = Some (true, st1) →
  score st1 = score st ∨ score st + 4 <= score st1.
Proof.
  intros [Hwf Htiles] Hk.
  rewrite dispatchKey_moveMerges in Hk by done. injection Hk as _ <-.
  cbn [score set_board]. rewrite foldl_recordMerge_score.
  destruct (moveMerges_resolved k (board st) Hwf) as (_ & _ & Hm & _).
  destruct (sumZ_merges_nonneg (moveMerges k (board st))
              (boardTiles (board st)) Htiles) as [->|?].
  - eapply Forall_impl; [exact Hm|]. intros m (v & ? & ? & _). by exists v.
  - left. cbn. lia.
  - right. lia.
Qed.

End ReachableGames.

(** X11. In every state the page reaches, the board is the empty array the
    script starts with or has its SIZE rows of SIZE cells, and every tile
    on the board and in the snapshots of the undo history is one of 2, 4,
    8, 16, ...: a power of two. *)
Theorem tiles_are_powers_of_two (st : State) :
  reachable st →
  (board st = [] ∨ wfBoard (board st))
  ∧ Forall tileOk (boardTiles (board st))
  ∧ Forall (λ item, wfBoard (snap_board item)
                    ∧ Forall tileOk (boardTiles (snap_board item)))
      (historyStack st).
Proof.
  intros [[Hboard Hhist] _]%reachable_tilesInv.
  split; [|split; [|done]].
  - destruct Hboard as [?|[? _]]; auto.
  - destruct Hboard as [->|[_ ?]]; [constructor | done].
Qed.

Lemma tiles_are_powers_of_two_witness :
  (board (afterMoves 3) = [] ∨ wfBoard (board (afterMoves 3)))
  ∧ Forall tileOk (boardTiles (board (afterMoves 3)))
  ∧ Forall (λ item, wfBoard (snap_board item)
                    ∧ Forall tileOk (boardTiles (snap_board item)))
      (historyStack (afterMoves 3)).
Proof.
  apply (tiles_are_powers_of_two (afterMoves 3)).
  apply played_reachable. vm_compute. by eexists.
Defined.

(** X12. Once a game is on the board, or while the overlay is shown, no
    handler of the page raises a [TypeError], whatever the state the page
    has reached: every event runs to its end.  Clicks on the buttons, timer
    ticks and reloads always do. *)
Theorem handlers_run_to_the_end (st : State) (ev : Event) :
  reachable st →
  board st ≠ [] ∨ messageShown st = true
  ∨ ((∀ k rnd, ev ≠ EvKey k rnd) ∧ (∀ dx dy rnd, ev ≠ EvSwipe dx dy rnd)) →
  ∃ st', step ev st = Some st'.
Proof.
  intros Hinv%reachable_tilesInv Hcase.
  pose proof Hinv as [[Hboard Hhist] Hstored].
  assert (Hmove : ∀ k rnd, board st ≠ [] ∨ messageShown st = true →
                           ∃ st', handleKey k rnd st = Some st').
  { intros k rnd [Hne|Hshown]; [|exists st; by apply handleKey_blocked].
    destruct Hboard as [?|Hok]; [done|]. unfold handleKey.
    destruct (messageShown st); [by eexists|].
    destruct (dispatchKey_total k st (proj1 Hok)) as (moved & st1 & Hk & _).
    rewrite Hk. cbn [mbind option_bind]. destruct moved; [|by eexists].
    destruct (moved_okBoard _ _ _ Hok Hk) as [Hok1 _].
    destruct (afterMove_okBoard (takeSnapshot st) rnd st1 Hok1)
      as (b & over & _ & ->). by eexists. }
  destruct ev; cbn [step]; try by eexists.
  - apply Hmove. destruct Hcase as [?|[?|[Hk _]]]; auto.
    by destruct (Hk k rnd).
  - destruct Hcase as [?|[?|[_ Hs]]]; [| |by destruct (Hs dx dy rnd)].
    + unfold handleTouchEnd. destruct (messageShown st) eqn:Hm; [by eexists|].
      case_decide; [|by eexists]. rewrite dispatchSwipe_key.
      destruct (Hmove (keyOfSwipe dx dy) rnd) as [st' Hst']; [by left|].
      unfold handleKey in Hst'. rewrite Hm in Hst'. by exists st'.
    + exists st. unfold handleTouchEnd. by destruct (messageShown st).
  - destruct (decide (historyStack st = [] ∨ undosRemaining st <= 0))
      as [Hstop|Hgo].
    { exists st. apply (undoTimes_noop 1 st) in Hstop.
      cbn [undoTimes] in Hstop. destruct (undoMove st); [|done].
      cbn [mbind option_bind] in Hstop. congruence. }
    destruct (historyStack st) as [|x rest _] eqn:Hh using rev_ind;
      [exfalso; apply Hgo; by left|].
    apply Forall_app in Hhist as [_ Hx]. rewrite Forall_singleton in Hx.
    exists (undone x rest st).
    apply undoMove_success; [done | lia | destruct Hx as [[? _] _]; lia].
  - destruct (gameStateItem (storage st)) as [j|] eqn:Hj.
    + destruct (Hstored j eq_refl) as (s & -> & _).
      exists (resumed st s). by apply resumeGame_stored.
    + exists st. unfold resumeGame. by rewrite Hj.
  - unfold startGame. cbv zeta.
    destruct (initGame_spec rnd1 rnd2
                (set_isTimedGame timed (clearGameState st)))
      as (b & _ & _ & ->). by eexists.
Qed.

Lemma handlers_run_to_the_end_witness :
  ∃ st', step (EvKey ArrowUp lowDraw) (afterMoves 2) = Some st'.
Proof.
  apply (handlers_run_to_the_end (afterMoves 2) (EvKey ArrowUp lowDraw)).
  - apply played_reachable. vm_compute. by eexists.
  - left. vm_compute. discriminate.
Defined.

(** X13. An arrow key or a swipe never lowers the score: it leaves the score as
    it is or adds at least 4, the smallest tile a merge can make. *)
Theorem moves_never_lower_the_score (st : State) (ev : Event) (st' : State) :
  reachable st →
  (∃ k rnd, ev = EvKey k rnd) ∨ (∃ dx dy rnd, ev = EvSwipe dx dy rnd) →
  step ev st = Some st' →
  score st' = score st ∨ score st + 4 <= score st'.
Proof.
  intros Hinv%reachable_tilesInv Hev Hstep.
  destruct Hinv as [[Hboard _] _].
  assert (Hkey : ∀ k rnd, handleKey k rnd st = Some st' →
                          score st' = score st ∨ score st + 4 <= score st').
  { intros k rnd [->|(_ & st1 & Hk & Hafter)]%handleKey_inv; [by left|].
    destruct Hboard as [Hnil|Hok].
    { apply (dispatchKey_no_board _ _ _ Hnil) in Hk. congruence. }
    rewrite (afterMove_score _ _ _ _ Hafter). by eapply moved_score. }
  destruct Hev as [(k & rnd & ->)|(dx & dy & rnd & ->)]; cbn [step] in Hstep.
  - by eapply Hkey.
  - destruct (Z_lt_le_dec 20 (Z.max (Z.abs dx) (Z.abs dy))) as [Hlong|Hshort].
    + apply (Hkey (keyOfSwipe dx dy) rnd). rewrite <- Hstep.
      unfold handleTouchEnd, handleKey. destruct (messageShown st); [done|].
      rewrite decide_True by done. by rewrite dispatchSwipe_key.
    + left. unfold handleTouchEnd in Hstep.
      destruct (messageShown st); [congruence|].
      rewrite decide_False in Hstep by lia. congruence.
Qed.

Lemma moves_never_lower_the_score_witness :
  ∃ st', step (EvKey ArrowLeft lowDraw) (afterMoves 1) = Some st'
         ∧ (score st' = score (afterMoves 1)
            ∨ score (afterMoves 1) + 4 <= score st').
Proof.
  eexists. split; [vm_compute; reflexivity|].
  apply (moves_never_lower_the_score (afterMoves 1) (EvKey ArrowLeft lowDraw)).
  - apply played_reachable. vm_compute. by eexists.
  - left. by eexists _, _.
  - vm_compute; reflexivity.
Defined.

(** ** The best score of one page *)

Section BestScoreInvariant.

Lemma bestOk_updateScoreDisplay x :
  0 <= bestScore x → default 0 (bestScoreItem (storage x)) = bestScore x →
  bestOk (updateScoreDisplay x)
  ∧ bestScore x <= bestScore (updateScoreDisplay x)
  ∧ gameStateItem (storage (updateScoreDisplay x))
    = gameStateItem (storage x).
Proof.
  intros Hpos Hitem. unfold updateScoreDisplay, bestOk.
  case_decide; cbn; repeat split; lia.
Qed.

Lemma updateScoreDisplay_id x :
  score x <= bestScore x → updateScoreDisplay x = x.
Proof. intros H. unfold updateScoreDisplay. by rewrite decide_False by lia. Qed.

(** A state that was just saved, or whose stored game was just removed. *)
Lemma bestInv_saved x st' :
  bestOk x →
  bestScore st' = bestScore x → score st' = score x →
  bestScoreItem (storage st') = bestScoreItem (storage x) →
  gameStateItem (storage st') = Some (jsonOfState x) ∨
  gameStateItem (storage st') = None →
  bestInv st'.
Proof.
  intros (Hpos & Hle & Hitem) Hb Hs Hi Hstored. split.
  - unfold bestOk. rewrite Hb, Hs, Hi. done.
  - intros j Hj. destruct Hstored as [Hst|Hst]; [|congruence].
    exists x. split; [congruence|]. split; [done | done].
Qed.

Lemma afterMove_bestInv snapshot rnd st1 st' :
  0 <= bestScore st1 →
  default 0 (bestScoreItem (storage st1)) = bestScore st1 →
  afterMove snapshot rnd st1 = Some st' →
  bestInv st' ∧ bestScore st1 <= bestScore st'.
Proof.
  intros Hpos Hitem (b & over & _ & ->)%afterMove_inv. cbv zeta.
  set (y := set_board b _).
  destruct (bestOk_updateScoreDisplay y Hpos Hitem) as (Hok & Hle & _).
  set (x := updateScoreDisplay y) in *. clearbody x.
  split.
  - apply (bestInv_saved x); [done | | | |].
    + destruct over; unfold_ops; by split_ifs.
    + destruct over; unfold_ops; by split_ifs.
    + destruct over; unfold_ops; by split_ifs.
    + destruct over; [right|left]; unfold_ops; by split_ifs.
  - replace (bestScore (if over then _ else _)) with (bestScore x); [done|].
    destruct over; unfold_ops; by split_ifs.
Qed.

Lemma handleKey_bestInv k rnd st st' :
  bestInv st → handleKey k rnd st = Some st' → bestInv st'.
Proof.
  intros Hinv [->|(_ & st1 & Hk & Hafter)]%handleKey_inv; [done|].
  destruct Hinv as [(Hpos & _ & Hitem) _].
  apply dispatchKey_frame in Hk as (Hb & _ & _ & _ & _ & _ & Hst & _).
  eapply afterMove_bestInv; [| |exact Hafter]; by rewrite ?Hst, Hb.
Qed.

Lemma handleTouchEnd_bestInv dx dy rnd st st' :
  bestInv st → handleTouchEnd dx dy rnd st = Some st' → bestInv st'.
Proof.
  intros Hinv [->|(_ & st1 & Hk & Hafter)]%handleTouchEnd_inv; [done|].
  destruct Hinv as [(Hpos & _ & Hitem) _].
  apply dispatchSwipe_frame in Hk as (Hb & _ & _ & _ & _ & _ & Hst & _).
  eapply afterMove_bestInv; [| |exact Hafter]; by rewrite ?Hst, Hb.
Qed.

Lemma undoMove_bestInv st st' :
  bestInv st → undoMove st = Some st' → bestInv st'.
Proof.
  intros Hinv [[-> _]|(_ & rest & x & _ & ->)]%undoMove_inv; [done|].
  destruct Hinv as [(Hpos & _ & Hitem) _]. unfold undone. cbv zeta.
  set (y := if snap_isTimedGame x then _ else _).
  assert (Hy : bestScore y = bestScore st ∧ storage y = storage st).
  { unfold y. destruct (snap_isTimedGame x); by split. }
  destruct Hy as [Hyb Hys]. clearbody y.
  destruct (bestOk_updateScoreDisplay y) as (Hok & _ & _);
    [by rewrite Hyb | by rewrite Hys, Hyb|].
  by apply (bestInv_saved (updateScoreDisplay y)); [|..|left].
Qed.

Lemma tick_bestInv st : bestInv st → bestInv (tick st).
Proof.
  intros [Hok Hstored]. unfold tick.
  destruct (timerInterval st) as [[]|]; [| |done]; cbv zeta.
  - set (x := set_timeRemaining (timeRemaining st - 1) st).
    assert (Hx : bestOk x) by done.
    apply (bestInv_saved x); [done|..].
    + unfold_ops; by split_ifs.
    + unfold_ops; by split_ifs.
    + unfold_ops; by split_ifs.
    + case_decide; [right|left]; unfold_ops; by split_ifs.
  - case_decide; [|done].
    apply (bestInv_saved st); [done|..|right]; unfold_ops; by split_ifs.
Qed.

Lemma homeButton_bestInv st : bestInv st → bestInv (homeButton st).
Proof.
  intros [Hok _]. unfold homeButton. cbv zeta.
  apply (bestInv_saved st); [done|..|left]; unfold_ops; by split_ifs.
Qed.

Lemma keepPlaying_bestInv st : bestInv st → bestInv (keepPlaying st).
Proof.
  intros [Hok Hstored]. unfold keepPlaying. cbv zeta. split.
  - revert Hok. unfold bestOk. unfold_ops. by split_ifs.
  - intros j Hj.
    destruct (Hstored j) as (s & -> & Hb & Hs).
    { revert Hj. unfold_ops. by split_ifs. }
    exists s. split; [done|]. split; [|done]. rewrite Hb.
    unfold_ops. by split_ifs.
Qed.

(** On a page that satisfies the invariant, [resumeGame] assigns the best
    score the globals already hold. *)
Lemma resumeGame_bestInv st st' :
  bestInv st → resumeGame st = Some st' →
  bestInv st' ∧ bestScore st' = bestScore st.
Proof.
  intros [Hok Hstored] Hres.
  destruct (gameStateItem (storage st)) as [j|] eqn:Hj.
  - destruct (Hstored j eq_refl) as (s & -> & Hb & Hs).
    rewrite (resumeGame_stored _ _ Hj) in Hres. injection Hres as <-.
    unfold resumed, finishResume.
    set (x := restored st s).
    assert (Hx : bestScore x = bestScore st ∧ score x = score s
                 ∧ storage x = storage st) by (by rewrite <- Hb).
    destruct Hx as (Hxb & Hxs & Hxst).
    assert (Hxok : bestOk x).
    { destruct Hok as (Hpos & _ & Hitem). unfold bestOk.
      rewrite Hxb, Hxs, Hxst. split; [done|]. split; [lia | done]. }
    assert (Hxinv : bestInv x).
    { split; [done|]. intros j. rewrite Hxst, Hj. intros [= <-].
      exists s. split; [done|]. split; [congruence | done]. }
    clearbody x.
    destruct (renderBoard x); [|split; [done | congruence]].
    rewrite updateScoreDisplay_id by (destruct Hxok as (_ & ? & _); lia).
    assert (Hfinal : ∀ y, bestScore y = bestScore x → score y = score x →
                          storage y = storage x →
                          bestInv y ∧ bestScore y = bestScore st).
    { intros y Hyb Hys Hyst. split; [|congruence].
      destruct Hxinv as [Hxo Hxs']. split.
      - unfold bestOk. by rewrite Hyb, Hys, Hyst.
      - intros j. rewrite Hyst, Hyb. apply Hxs'. }
    destruct (isTimedGame (hideMessage x)); by apply Hfinal.
  - unfold resumeGame in Hres. rewrite Hj in Hres. injection Hres as <-.
    split; [|done]. split; [done|]. intros j. by rewrite Hj.
Qed.

Lemma startGame_bestInv timed seconds rnd1 rnd2 st st' :
  bestInv st → startGame timed seconds rnd1 rnd2 st = Some st' →
  bestInv st' ∧ bestScore st' = bestScore st.
Proof.
  intros [(Hpos & _ & Hitem) _]. unfold startGame. cbv zeta.
  destruct (initGame_spec rnd1 rnd2 (set_isTimedGame timed (clearGameState st)))
    as (b & _ & _ & ->).
  cbn [mbind option_bind]. intros [= <-].
  set (y := hideMessage _).
  assert (Hy : bestScore y = bestScore st ∧ score y = 0
               ∧ bestScoreItem (storage y) = bestScoreItem (storage st))
    by done.
  destruct Hy as (Hyb & Hys & Hyi). clearbody y.
  destruct (bestOk_updateScoreDisplay y) as (Hok & _ & _);
    [by rewrite Hyb | by rewrite Hyi, Hyb|].
  assert (Hsame : updateScoreDisplay y = y)
    by (apply updateScoreDisplay_id; lia).
  rewrite Hsame in *.
  set (x := set_undosRemaining 3 (set_historyStack [] (saveGameState y))).
  assert (Hfinal : ∀ z, z = startTimer seconds x ∨ z = stopTimer x →
                        bestInv z ∧ bestScore z = bestScore st).
  { intros z Hz.
    assert (bestScore z = bestScore y ∧ score z = score y
            ∧ bestScoreItem (storage z) = bestScoreItem (storage y)
            ∧ gameStateItem (storage z) = Some (jsonOfState y))
      as (Hz1 & Hz2 & Hz3 & Hz4) by (by destruct Hz as [->| ->]).
    split; [|congruence]. by apply (bestInv_saved y); [|..|left]. }
  destruct (isTimedGame y); apply Hfinal; [by left | by right].
Qed.

Lemma pageLoad_bestInv overlay st :
  bestInv st →
  bestInv (pageLoad overlay (storage st))
  ∧ bestScore (pageLoad overlay (storage st)) = bestScore st.
Proof.
  intros [(Hpos & _ & Hitem) Hstored]. unfold pageLoad, initStorage. cbv zeta.
  rewrite updateScoreDisplay_id by (cbn; lia). cbn.
  split; [|done]. split.
  - unfold bestOk. cbn. rewrite Hitem. lia.
  - intros j Hj. cbn in Hj. rewrite Hitem. by apply Hstored.
Qed.

Lemma step_bestInv ev st st' :
  bestInv st → step ev st = Some st' →
  bestInv st' ∧ bestScore st <= bestScore st'.
Proof.
  intros Hinv Hstep.
  assert (Hmono : (ev ≠ EvResume ∧ ∀ overlay, ev ≠ EvReload overlay) →
                  bestScore st <= bestScore st').
  { intros [? ?]. by eapply step_bestScore. }
  destruct ev; cbn [step] in Hstep.
  - split; [by eapply handleKey_bestInv | by apply Hmono].
  - split; [by eapply handleTouchEnd_bestInv | by apply Hmono].
  - split; [by eapply undoMove_bestInv | by apply Hmono].
  - injection Hstep as <-. split; [by apply tick_bestInv | by apply Hmono].
  - injection Hstep as <-.
    split; [by apply homeButton_bestInv | by apply Hmono].
  - injection Hstep as <-.
    split; [by apply keepPlaying_bestInv | by apply Hmono].
  - destruct (resumeGame_bestInv _ _ Hinv Hstep) as [? ->]. by split.
  - destruct (startGame_bestInv _ _ _ _ _ _ Hinv Hstep) as [? ->]. by split.
  - injection Hstep as <-. split; [|by apply Hmono].
    destruct Hinv as [Hok _]. split; [done|]. intros j. cbn. congruence.
  - injection Hstep as <-.
    destruct (pageLoad_bestInv overlay st Hinv) as [? ->]. by split.
Qed.

Lemma reachable_bestInv st : reachable st → bestInv st.
Proof.
  induction 1 as [overlay|ev st st' _ IH Hstep].
  - unfold pageLoad, initStorage. cbv zeta.
    rewrite updateScoreDisplay_id by (cbn; lia). split; [by repeat split|].
    intros j. cbn. congruence.
  - by destruct (step_bestInv _ _ _ IH Hstep).
Qed.

End BestScoreInvariant.

(** X14. As long as the page alone writes the storage and every write succeeds,
    the best score is safe: in every state the page reaches the score is
    not above the best score, the 'bestScore' item and the stored game
    hold the best score of the globals, no event lowers it, [resumeGame]
    assigns the value the globals already hold and a reload of the page
    reads it back. *)
Theorem bestScore_safe_on_one_page (st : State) :
  reachable st →
  default 0 (bestScoreItem (storage st)) = bestScore st
  ∧ score st <= bestScore st
  ∧ (∀ ev st', step ev st = Some st' → bestScore st <= bestScore st')
  ∧ (∀ st', resumeGame st = Some st' → bestScore st' = bestScore st)
  ∧ (∀ overlay, bestScore (pageLoad overlay (storage st)) = bestScore st).
Proof.
  intros Hinv%reachable_bestInv.
  pose proof Hinv as [(Hpos & Hle & Hitem) _].
  split; [done|]. split; [done|]. split; [|split].
  - intros ev st' Hstep. by destruct (step_bestInv _ _ _ Hinv Hstep).
  - intros st' Hres. by destruct (resumeGame_bestInv _ _ Hinv Hres).
  - intros overlay. by destruct (pageLoad_bestInv overlay st Hinv).
Qed.

Lemma bestScore_safe_on_one_page_witness :
  default 0 (bestScoreItem (storage (afterMoves 4))) = bestScore (afterMoves 4)
  ∧ score (afterMoves 4) <= bestScore (afterMoves 4)
  ∧ (∀ ev st', step ev (afterMoves 4) = Some st' →
               bestScore (afterMoves 4) <= bestScore st')
  ∧ (∀ st', resumeGame (afterMoves 4) = Some st' →
            bestScore st' = bestScore (afterMoves 4))
  ∧ (∀ overlay, bestScore (pageLoad overlay (storage (afterMoves 4)))
                = bestScore (afterMoves 4)).
Proof.
  apply (bestScore_safe_on_one_page (afterMoves 4)).
  apply played_reachable. vm_compute. by eexists.
Defined.

(** ** The undo button *)

(** X15. The undo button tells what a click on it will do.  In every state
    the page reaches, [updateUndoButton] writes the number of undos left,
    which is 0, 1, 2 or 3, into the label ('Undo (0)' when none is left,
    ..., 'Undo (3)' when three are), and disables the button exactly when
    [undoMove] would return at once, leaving everything as it is; on a
    button it leaves enabled, [undoMove] takes one snapshot off the history
    and one undo off the counter, so that the label then shows one less. *)
Theorem undo_button_tells_what_undo_does (st : State) :
  reachable st →
  ((undosRemaining st = 0 ∧ (updateUndoButton st).1 = "Undo (0)")
   ∨ (undosRemaining st = 1 ∧ (updateUndoButton st).1 = "Undo (1)")
   ∨ (undosRemaining st = 2 ∧ (updateUndoButton st).1 = "Undo (2)")
   ∨ (undosRemaining st = 3 ∧ (updateUndoButton st).1 = "Undo (3)"))
  ∧ (∀ st', reachable st' →
            ((updateUndoButton st').1 = (updateUndoButton st).1
             ↔ undosRemaining st' = undosRemaining st))
  ∧ ((updateUndoButton st).2 = true ↔ undoMove st = Some st)
  ∧ ((updateUndoButton st).2 = false ↔
     ∃ st', undoMove st = Some st'
       ∧ undosRemaining st' = undosRemaining st - 1
       ∧ (length (historyStack st') + 1)%nat = length (historyStack st)
       ∧ (updateUndoButton st').1
         = "Undo (" +:+ pretty (undosRemaining st - 1) +:+ ")").
Proof.
  intros Hr. pose proof (reachable_consistent st Hr) as (_ & Hu & _).
  pose proof (reachable_tilesInv st Hr) as [[_ Hhist] _].
  assert (Hlabel : undosRemaining st = 0 ∨ undosRemaining st = 1
                   ∨ undosRemaining st = 2 ∨ undosRemaining st = 3) by lia.
  assert (Hstop : (updateUndoButton st).2 = true → undoMove st = Some st).
  { cbn [updateUndoButton snd]. intros Hd. unfold undoMove. by rewrite Hd. }
  assert (Hgo : (updateUndoButton st).2 = false →
    ∃ st', undoMove st = Some st'
      ∧ undosRemaining st' = undosRemaining st - 1
      ∧ (length (historyStack st') + 1)%nat = length (historyStack st)
      ∧ (updateUndoButton st').1
        = "Undo (" +:+ pretty (undosRemaining st - 1) +:+ ")").
  { cbn [updateUndoButton snd].
    intros [Hne Hpos]%orb_false_iff.
    apply bool_decide_eq_false in Hne, Hpos.
    destruct (historyStack st) as [|x rest _] eqn:Hh using rev_ind; [done|].
    apply Forall_app in Hhist as [_ Hx]. rewrite Forall_singleton in Hx.
    exists (undone x rest st). split.
    { apply undoMove_success; [done | lia | destruct Hx as [[? _] _]; lia]. }
    cbn [updateUndoButton fst].
    destruct (undone_fields x rest st) as (-> & -> & _).
    split; [done|]. split; [|done]. rewrite length_app. cbn. lia. }
  split; [|split; [|split; [split|split]]]; [| |done| |done|].
  - cbn [updateUndoButton fst].
    destruct Hlabel as [Hl | [Hl | [Hl | Hl]]]; rewrite Hl;
      [left | right; left | right; right; left | right; right; right];
      by split.
  - intros st' Hr'. pose proof (reachable_consistent st' Hr') as (_ & Hu' & _).
    cbn [updateUndoButton fst]. split; [|by intros ->].
    assert (Hlabel' : undosRemaining st' = 0 ∨ undosRemaining st' = 1
                      ∨ undosRemaining st' = 2 ∨ undosRemaining st' = 3)
      by lia.
    destruct Hlabel as [Hl | [Hl | [Hl | Hl]]]; rewrite Hl;
      destruct Hlabel' as [Hl' | [Hl' | [Hl' | Hl']]]; rewrite Hl';
      vm_compute; congruence.
  - intros Hsame. apply not_false_iff_true. intros Hd.
    destruct (Hgo Hd) as (st' & Hundo & Hdec & _).
    rewrite Hsame in Hundo. injection Hundo as <-. lia.
  - intros (st' & Hundo & Hdec & _).
    apply not_true_iff_false. intros Hd.
    rewrite (Hstop Hd) in Hundo. injection Hundo as <-. lia.
Qed.

(** X15 two moves into a new game: three undos left, the button enabled;
    after the undo the label shows two. *)
Lemma undo_button_tells_what_undo_does_witness :
  undosRemaining (afterMoves 2) = 3
  ∧ updateUndoButton (afterMoves 2) = ("Undo (3)", false)
  ∧ ∃ st', undoMove (afterMoves 2) = Some st'
      ∧ undosRemaining st' = 2
      ∧ (updateUndoButton st').1 = "Undo (2)".
Proof.
  destruct (undo_button_tells_what_undo_does (afterMoves 2))
    as (_ & _ & _ & Hgo).
  - apply played_reachable. vm_compute. by eexists.
  - split; [vm_compute; reflexivity|]. split; [vm_compute; reflexivity|].
    destruct (proj1 Hgo) as (st' & Hundo & Hdec & _ & Hlab);
      [vm_compute; reflexivity|].
    exists st'. split; [exact Hundo|]. split; [exact Hdec | exact Hlab].
Defined.

(** ** A stored value without the fields of a game *)

(** X16. [resumeGame] on a stored value that is not a game.  When the
    stored value has none of the properties [resumeGame] reads (an empty
    object, a number, a text), [resumeGame] still shows the game screen,
    with the defaults: an empty board, score 0, no history, three undos,
    untimed with the timer stopped and 300 seconds, the overlay hidden and
    the best score kept.  The page is then stuck on the empty board: no
    key, swipe or undo changes anything and [isGameOver] answers
    [false]. *)
Theorem resumeGame_without_fields (st : State) (j : json) :
  gameStateItem (storage st) = Some j →
  Forall (λ name, getProp name j = Some None) gameFields →
  ∃ st', resumeGame st = Some st'
    ∧ board st' = createEmptyBoard ∧ score st' = 0
    ∧ bestScore st' = Z.max (bestScore st) 0
    ∧ won st' = false ∧ historyStack st' = [] ∧ undosRemaining st' = 3
    ∧ isTimedGame st' = false ∧ timeRemaining st' = 300
    ∧ timerInterval st' = None ∧ messageShown st' = false
    ∧ isGameOver (board st') = Some false
    ∧ (∀ k rnd, handleKey k rnd st' = Some st')
    ∧ (∀ dx dy rnd, handleTouchEnd dx dy rnd st' = Some st')
    ∧ undoMove st' = Some st'.
Proof.
  intros Hj Hf. unfold gameFields in Hf.
  repeat (apply Forall_cons in Hf as [? Hf]).
  unfold resumeGame. rewrite Hj.
  repeat match goal with H : getProp _ j = _ |- _ => rewrite H; clear H end.
  cbn [mbind option_bind numberOr truthy]. cbv zeta.
  match goal with |- context [renderBoard ?y] => set (x := y) end.
  assert (Hx : board x = createEmptyBoard ∧ score x = 0
               ∧ bestScore x = bestScore st ∧ won x = false
               ∧ historyStack x = [] ∧ undosRemaining x = 3
               ∧ isTimedGame x = false ∧ timeRemaining x = 300) by done.
  clearbody x. destruct Hx as (Hb & Hs & Hbest & Hw & Hh & Hu & Hti & Htr).
  unfold renderBoard. rewrite Hb.
  rewrite decide_True by (vm_compute; lia).
  pose proof (updateScoreDisplay_bestScore x) as Hmax.
  assert (Hsame : board (updateScoreDisplay x) = board x
                  ∧ score (updateScoreDisplay x) = score x
                  ∧ won (updateScoreDisplay x) = won x
                  ∧ historyStack (updateScoreDisplay x) = historyStack x
                  ∧ undosRemaining (updateScoreDisplay x) = undosRemaining x
                  ∧ isTimedGame (updateScoreDisplay x) = isTimedGame x
                  ∧ timeRemaining (updateScoreDisplay x) = timeRemaining x).
  { unfold updateScoreDisplay. by case_decide. }
  destruct Hsame as (Hb' & Hs' & Hw' & Hh' & Hu' & Hti' & Htr').
  set (y := updateScoreDisplay x) in *. clearbody y.
  change (isTimedGame (hideMessage y)) with (isTimedGame y).
  rewrite Hti', Hti. eexists. split; [reflexivity|].
  set (st' := stopTimer (hideMessage y)).
  assert (Hboard : board st' = createEmptyBoard)
    by (change (board st') with (board y); congruence).
  assert (Hshown : messageShown st' = false) by done.
  assert (Hkeys : ∀ k, dispatchKey k st' = Some (false, st')).
  { intros k. apply unmoved_of_fixed; rewrite Hboard.
    - split; [done|]. by repeat constructor.
    - by destruct k. }
  split; [done|].
  split; [change (score st') with (score y); congruence|].
  split; [change (bestScore st') with (bestScore y); congruence|].
  split; [change (won st') with (won y); congruence|].
  split; [change (historyStack st') with (historyStack y); congruence|].
  split; [change (undosRemaining st') with (undosRemaining y); congruence|].
  split; [change (isTimedGame st') with (isTimedGame y); congruence|].
  split; [change (timeRemaining st') with (timeRemaining y); congruence|].
  split; [done|]. split; [done|].
  split; [by rewrite Hboard|]. split; [|split].
  - intros k rnd. unfold handleKey. rewrite Hshown, Hkeys. done.
  - intros dx dy rnd. unfold handleTouchEnd. rewrite Hshown.
    case_decide; [|done]. by rewrite dispatchSwipe_key, Hkeys.
  - pose proof (undoTimes_noop 1 st') as Hundo. cbn [undoTimes] in Hundo.
    destruct (undoMove st'); cbn [mbind option_bind] in Hundo.
    + apply Hundo. left.
      change (historyStack st') with (historyStack y). congruence.
    + discriminate Hundo. left.
      change (historyStack st') with (historyStack y). congruence.
Qed.

Lemma resumeGame_without_fields_witness :
  ∃ st', resumeGame (set_storage (mkStorage (Some (JObj [])) None 0)
                       exampleState) = Some st'
    ∧ board st' = createEmptyBoard ∧ score st' = 0
    ∧ isGameOver (board st') = Some false
    ∧ (∀ k rnd, handleKey k rnd st' = Some st').
Proof.
  destruct (resumeGame_without_fields
              (set_storage (mkStorage (Some (JObj [])) None 0) exampleState)
              (JObj []))
    as (st' & Hres & Hb & Hs & _ & _ & _ & _ & _ & _ & _ & _ & Hover & Hk & _).
  - reflexivity.
  - vm_compute. repeat constructor.
  - exists st'. split; [exact Hres|]. split; [exact Hb|].
    split; [exact Hs|]. split; [exact Hover|]. exact Hk.
Defined.

(** ** The timer display *)

Section TimerDisplay.

Lemma append_nil (t : string) : EmptyString +:+ t = t.
Proof. done. Qed.

Lemma append_cons c (s t : string) : String c s +:+ t = String c (s +:+ t).
Proof. done. Qed.

Lemma length_append (s t : string) :
  String.length (s +:+ t) = (String.length s + String.length t)%nat.
Proof.
  induction s as [|c s IH]; [done|].
  rewrite append_cons. cbn [String.length]. by rewrite IH.
Qed.

(** Two texts that end in parts of the same length. *)
Lemma append_inj_length (s1 s2 t1 t2 : string) :
  s1 +:+ t1 = s2 +:+ t2 → String.length t1 = String.length t2 →
  s1 = s2 ∧ t1 = t2.
Proof.
  revert s2. induction s1 as [|c s1 IH]; intros [|c' s2] Heq Hlen;
    rewrite ?append_nil, ?append_cons in Heq.
  - done.
  - rewrite Heq in Hlen. cbn [String.length] in Hlen.
    rewrite length_append in Hlen. lia.
  - rewrite <- Heq in Hlen. cbn [String.length] in Hlen.
    rewrite length_append in Hlen. lia.
  - injection Heq as -> Heq. by destruct (IH s2 Heq Hlen) as [-> ->].
Qed.

Lemma pretty_N_go_head (x : N) :
  ∀ s, (0 < x)%N →
       ∃ c r, pretty_N_go x s = String c r ∧ c ≠ "0"%char.
Proof.
  induction (N.lt_wf_0 x) as [x _ IH]; intros s Hx.
  rewrite pretty_N_go_step by done.
  destruct (N.eq_0_gt_0_cases (x `div` 10)) as [Hd|Hd].
  - rewrite Hd, pretty_N_go_0. eexists _, _. split; [done|].
    assert (x < 10)%N by (apply N.div_small_iff in Hd; lia).
    rewrite N.mod_small by done.
    assert (Hcases : (x = 1 ∨ x = 2 ∨ x = 3 ∨ x = 4 ∨ x = 5 ∨ x = 6
                      ∨ x = 7 ∨ x = 8 ∨ x = 9)%N) by lia.
    repeat (destruct Hcases as [-> | Hcases]; [done | idtac]). by subst.
  - apply IH; [by apply N.div_lt | done].
Qed.

(** A number that is not negative is written without a sign and without a
    leading zero. *)
Lemma pretty_nonneg (m : Z) :
  0 <= m →
  (m = 0 ∧ pretty m = "0")
  ∨ (0 < m ∧ ∃ c r, pretty m = String c r ∧ c ≠ "0"%char).
Proof.
  intros Hm. destruct m as [|p|p]; [by left| |lia]. right. split; [lia|].
  unfold pretty, pretty_Z, pretty, pretty_positive, pretty, pretty_N.
  rewrite decide_False by done. by apply pretty_N_go_head.
Qed.

Lemma padStart2_length (s : string) : (2 ≤ String.length (padStart2 s))%nat.
Proof.
  destruct s as [|c [|d r]]; unfold padStart2; cbn [String.length];
    rewrite ?append_cons, ?append_nil; cbn [String.length]; lia.
Qed.

Lemma padStart2_pretty_inj (m1 m2 : Z) :
  0 <= m1 → 0 <= m2 →
  padStart2 (pretty m1) = padStart2 (pretty m2) → m1 = m2.
Proof.
  intros H1 H2 Heq.
  destruct (pretty_nonneg m1 H1) as [[-> E1]|(_ & c1 & r1 & E1 & Hc1)];
    destruct (pretty_nonneg m2 H2) as [[-> E2]|(_ & c2 & r2 & E2 & Hc2)];
    [done|..]; rewrite E1, E2 in Heq.
  - destruct r2 as [|d2 r2]; unfold padStart2 in Heq;
      cbn [String.length] in Heq; rewrite ?append_cons, ?append_nil in Heq;
      congruence.
  - destruct r1 as [|d1 r1]; unfold padStart2 in Heq;
      cbn [String.length] in Heq; rewrite ?append_cons, ?append_nil in Heq;
      congruence.
  - apply (inj pretty). rewrite E1, E2.
    destruct r1 as [|d1 r1], r2 as [|d2 r2]; unfold padStart2 in Heq;
      cbn [String.length] in Heq; rewrite ?append_cons, ?append_nil in Heq;
      congruence.
Qed.

(** Below 100 the padded number has two characters. *)
Lemma padStart2_two_digits (m : Z) :
  0 <= m < 100 → String.length (padStart2 (pretty m)) = 2%nat.
Proof.
  intros Hm.
  assert (H : forallb (λ k, Nat.eqb (String.length
                        (padStart2 (pretty (Z.of_nat k)))) 2)
                (seq 0 100) = true) by (vm_compute; reflexivity).
  rewrite forallb_forall in H. specialize (H (Z.to_nat m)).
  rewrite Z2Nat.id in H by lia. apply Nat.eqb_eq, H, in_seq. lia.
Qed.

End TimerDisplay.

Section TimerDigits.

Lemma pretty_N_go_length (x : N) :
  ∀ s, (String.length s ≤ String.length (pretty_N_go x s))%nat.
Proof.
  induction (N.lt_wf_0 x) as [x _ IH]; intros s.
  destruct (N.eq_0_gt_0_cases x) as [->|Hx]; [by rewrite pretty_N_go_0|].
  rewrite pretty_N_go_step by done.
  etrans; [|apply IH; by apply N.div_lt]. cbn [String.length]. lia.
Qed.

(** From 10 on a number is written with two characters or more. *)
Lemma pretty_length_from_10 (m : Z) :
  10 <= m → (2 ≤ String.length (pretty m))%nat.
Proof.
  intros Hm. destruct m as [|p|p]; [lia| |lia].
  unfold pretty, pretty_Z, pretty, pretty_positive, pretty, pretty_N.
  rewrite decide_False by done.
  assert (H10 : (10 ≤ N.pos p)%N) by lia.
  assert (Hd : (0 < N.pos p `div` 10)%N).
  { apply N.div_str_pos. lia. }
  rewrite pretty_N_go_step by lia. rewrite pretty_N_go_step by done.
  etrans; [|apply pretty_N_go_length]. cbn [String.length]. lia.
Qed.

(** [padStart] in terms of the number written: a zero in front of a
    number below 10, nothing in front of the others. *)
Lemma padStart2_pretty (m : Z) :
  0 <= m →
  padStart2 (pretty m)
  = if decide (m < 10) then "0" +:+ pretty m else pretty m.
Proof.
  intros Hm. case_decide as Hlt.
  - assert (Hcases : m = 0 ∨ m = 1 ∨ m = 2 ∨ m = 3 ∨ m = 4 ∨ m = 5
                     ∨ m = 6 ∨ m = 7 ∨ m = 8 ∨ m = 9) by lia.
    repeat (destruct Hcases as [-> | Hcases]; [done | idtac]). by subst.
  - pose proof (pretty_length_from_10 m ltac:(lia)) as Hlen.
    unfold padStart2.
    destruct (pretty m) as [|c [|d r]]; cbn in Hlen; [lia..|done].
Qed.

(** Below 100 the padded number is its tens digit and its units digit. *)
Lemma padStart2_digits (m : Z) :
  0 <= m < 100 →
  padStart2 (pretty m)
  = String (pretty_N_char (Z.to_N (m `div` 10)))
      (String (pretty_N_char (Z.to_N (m `mod` 10))) EmptyString).
Proof.
  intros Hm.
  assert (H : forallb (λ k,
                String.eqb (padStart2 (pretty (Z.of_nat k)))
                  (String (pretty_N_char (Z.to_N (Z.of_nat k `div` 10)))
                     (String (pretty_N_char (Z.to_N (Z.of_nat k `mod` 10)))
                        EmptyString)))
                (seq 0 100) = true) by (vm_compute; reflexivity).
  rewrite forallb_forall in H. specialize (H (Z.to_nat m)).
  rewrite Z2Nat.id in H by lia. apply String.eqb_eq, H, in_seq. lia.
Qed.

End TimerDigits.

(** X17. The timer display reads minutes, a colon and seconds.  For a time
    that is not negative, [updateTimerDisplay] writes the whole minutes of
    the time left in decimal, with a zero in front below 10, then a colon,
    then the seconds beyond the whole minutes, from 00 to 59, in the same
    way.  Below 100 minutes these are five characters: the tens and the
    units of the minutes, the colon, the tens and the units of the
    seconds.  Two different times never show the same text. *)
Theorem timer_display_shows_the_time (st : State) :
  0 <= timeRemaining st →
  updateTimerDisplay st
  = (if decide (timeRemaining st `div` 60 < 10)
     then "0" +:+ pretty (timeRemaining st `div` 60)
     else pretty (timeRemaining st `div` 60))
    +:+ ":"
    +:+ (if decide (timeRemaining st `mod` 60 < 10)
         then "0" +:+ pretty (timeRemaining st `mod` 60)
         else pretty (timeRemaining st `mod` 60))
  ∧ (timeRemaining st < 6000 →
     updateTimerDisplay st
     = String (pretty_N_char (Z.to_N ((timeRemaining st `div` 60) `div` 10)))
         (String (pretty_N_char (Z.to_N ((timeRemaining st `div` 60) `mod` 10)))
            (String ":"%char
               (String
                  (pretty_N_char (Z.to_N ((timeRemaining st `mod` 60) `div` 10)))
                  (String
                     (pretty_N_char
                        (Z.to_N ((timeRemaining st `mod` 60) `mod` 10)))
                     EmptyString)))))
  ∧ (5 ≤ String.length (updateTimerDisplay st))%nat
  ∧ (timeRemaining st < 6000 →
     String.length (updateTimerDisplay st) = 5%nat)
  ∧ ∀ st', 0 <= timeRemaining st' →
           updateTimerDisplay st' = updateTimerDisplay st →
           timeRemaining st' = timeRemaining st.
Proof.
  intros Ht. unfold updateTimerDisplay. cbv zeta.
  set (t := timeRemaining st) in *.
  assert (Hrem : ∀ u, 0 <= u → u `rem` 60 = u `mod` 60 ∧ 0 <= u `mod` 60 < 60).
  { intros u Hu. rewrite Z.rem_mod_nonneg by lia.
    pose proof (Z.mod_pos_bound u 60). lia. }
  assert (Hdiv : ∀ u, 0 <= u → 0 <= u `div` 60).
  { intros u Hu. apply Z.div_pos; lia. }
  assert (Hsecs : ∀ u, 0 <= u →
            String.length (padStart2 (pretty (u `rem` 60))) = 2%nat).
  { intros u Hu. destruct (Hrem u Hu) as [-> ?].
    apply padStart2_two_digits. lia. }
  pose proof (padStart2_length (pretty (t `div` 60))) as Hmins.
  destruct (Hrem t Ht) as [Hr Hbound].
  assert (Hm100 : t < 6000 → 0 <= t `div` 60 < 100).
  { intros Hlt. split; [by apply Hdiv|]. apply Z.div_lt_upper_bound; lia. }
  split; [|split; [|split; [|split]]].
  - rewrite Hr, !padStart2_pretty by (auto; lia). done.
  - intros Hlt. rewrite Hr, !padStart2_digits by (auto; lia).
    by rewrite !append_cons, !append_nil.
  - rewrite length_append, append_cons, append_nil. cbn [String.length].
    rewrite Hsecs by done. lia.
  - intros Hlt. rewrite length_append, append_cons, append_nil.
    cbn [String.length]. rewrite Hsecs by done.
    rewrite padStart2_two_digits by auto. done.
  - intros st' Ht' Heq. set (t' := timeRemaining st') in *.
    apply append_inj_length in Heq as [Hm Hs].
    + rewrite !append_cons, !append_nil in Hs. injection Hs as Hs.
      apply padStart2_pretty_inj in Hm; [|by apply Hdiv..].
      destruct (Hrem t' Ht') as [Hr' Hbound'].
      apply padStart2_pretty_inj in Hs; [|lia..].
      rewrite (Z.quot_rem' t 60), (Z.quot_rem' t' 60).
      rewrite !Z.quot_div_nonneg by lia. congruence.
    + rewrite !append_cons, !append_nil. cbn [String.length].
      by rewrite !Hsecs.
Qed.

(** X17 at 2 seconds, at 125 seconds and at 100 minutes. *)
Lemma timer_display_shows_the_time_witness :
  updateTimerDisplay timedGame = "00:02"
  ∧ updateTimerDisplay (set_timeRemaining 125 timedGame) = "02:05"
  ∧ updateTimerDisplay (set_timeRemaining 6000 timedGame) = "100:00"
  ∧ ∀ st', 0 <= timeRemaining st' →
           updateTimerDisplay st' = updateTimerDisplay timedGame →
           timeRemaining st' = timeRemaining timedGame.
Proof.
  destruct (timer_display_shows_the_time timedGame)
    as (_ & Hdigits & _ & _ & Hinj); [vm_compute; discriminate|].
  destruct (timer_display_shows_the_time (set_timeRemaining 125 timedGame))
    as (_ & Hdigits' & _); [vm_compute; discriminate|].
  destruct (timer_display_shows_the_time (set_timeRemaining 6000 timedGame))
    as (Hlong & _); [vm_compute; discriminate|].
  split; [apply Hdigits; vm_compute; reflexivity|].
  split; [apply Hdigits'; vm_compute; reflexivity|].
  split; [exact Hlong | exact Hinj].
Defined.

(** ** Preferences *)

(** X18. Preferences survive a reload: [loadPreferences] after
    [savePreferences] gives back the sound and vibration switches and the
    theme, except that an empty theme name comes back as 'default'; the
    body gets the class 'stealth' exactly for the theme 'stealth'.  With
    nothing stored the theme is 'default' and both switches are off, and a
    switch is on only for the stored text 'true'. *)
Theorem preferences_survive_reload (p : Prefs) :
  (loadPreferences (savePreferences p)).1
  = mkPrefs (if bool_decide (currentTheme p = EmptyString) then "default"
             else currentTheme p)
      (soundEnabled p) (vibrationEnabled p)
  ∧ (currentTheme p ≠ EmptyString →
     (loadPreferences (savePreferences p)).1 = p)
  ∧ ((loadPreferences (savePreferences p)).2 = true
     ↔ currentTheme p = "stealth")
  ∧ loadPreferences (mkPrefItems None None None)
    = (mkPrefs "default" false false, false)
  ∧ ∀ items,
      (soundEnabled (loadPreferences items).1 = true
       ↔ soundItem items = Some "true")
      ∧ (vibrationEnabled (loadPreferences items).1 = true
         ↔ vibrationItem items = Some "true").
Proof.
  assert (Hload : (loadPreferences (savePreferences p)).1
    = mkPrefs (if bool_decide (currentTheme p = EmptyString) then "default"
               else currentTheme p)
        (soundEnabled p) (vibrationEnabled p)).
  { unfold loadPreferences, savePreferences. cbn [fst themeItem soundItem
      vibrationItem]. f_equal.
    - by destruct (soundEnabled p).
    - by destruct (vibrationEnabled p). }
  split; [done|]. split; [|split; [|split; [done|]]].
  - intros Hne. rewrite Hload, bool_decide_eq_false_2 by done. by destruct p.
  - unfold loadPreferences, savePreferences, applyTheme.
    cbn [snd themeItem]. rewrite bool_decide_eq_true.
    case_bool_decide as He; [|done]. rewrite He. by split.
  - intros items. cbn [loadPreferences fst soundEnabled vibrationEnabled].
    by rewrite !bool_decide_eq_true.
Qed.

Lemma preferences_survive_reload_witness :
  (loadPreferences (savePreferences (mkPrefs "stealth" true false))).1
  = mkPrefs "stealth" true false
  ∧ (loadPreferences (savePreferences (mkPrefs "stealth" true false))).2
    = true.
Proof.
  destruct (preferences_survive_reload (mkPrefs "stealth" true false))
    as (_ & Hsame & Hclass & _).
  split; [apply Hsame; discriminate | by apply Hclass].
Defined.
